(** * Handwritten-digit recognition pipeline: a shallow embedding

    The development follows the TypeScript sources of the OCR components:
    - [Utils]              : components/ocr/utils.ts (pixel filter loop of
                             [preprocessImage]);
    - [DigitSegmentation]  : components/ocr/digitSegmentation.ts
                             ([segmentDigits]);
    - [MnistModel]         : components/ocr/mnistModel.ts ([loadMNISTModel],
                             [predictDigit], [disposeModel]);
    - [Recognizer]         : components/ocr/HandwrittenDigitRecognizer.tsx
                             (the [recognize] effect);
    - [Route]              : routes/ocr.tsx (the handlers of the page).

    Conventions.  A JS number that the code only ever uses as an integer
    (indices, coordinates, counts, byte samples, class labels) is a [Z].  A JS
    number that carries a fraction (filter multipliers, luma, probabilities,
    the 0.9 area factor) is a primitive binary64 [float], with the operators
    of IEEE 754 as JS has them; the centering offsets, which are halves of
    integers, are rationals.  Typed-array and array reads out of range give
    [undefined], which is written out where the code can meet it.

    An [async] function is a coroutine: a call runs to its first [await], and
    each time the awaited promise settles the call runs on to the next one.
    What settles a promise (the model store, the network, the image decoder,
    the TensorFlow.js runtime) is outside the code, so the settlements are
    inputs of the runs. *)

From Stdlib Require Import ZArith List Floats Uint63 Lia String Bool.
From Stdlib Require Import Sorted Permutation.
From Stdlib Require Import QArith.
From stdpp Require Import base option list strings pretty.

Open Scope Z_scope.
Set Warnings "-inexact-float".

(** ** JS numbers *)

(** The double that holds the integer [z] (exact below 2^53). *)
Definition Z2F (z : Z) : float :=
  if z <? 0 then (- PrimFloat.of_uint63 (Uint63.of_Z (- z)))%float
  else PrimFloat.of_uint63 (Uint63.of_Z z).

(** [Math.min(a, b)]: NaN if either is NaN; [-0] is smaller than [+0]. *)
Definition Math_min (a b : float) : float :=
  if is_nan a || is_nan b then nan
  else if (a <? b)%float then a
  else if (b <? a)%float then b
  else match Prim2SF a with S754_zero false => b | _ => a end.

(** [Math.max(a, b)]: NaN if either is NaN; [+0] is larger than [-0]. *)
Definition Math_max (a b : float) : float :=
  if is_nan a || is_nan b then nan
  else if (a <? b)%float then b
  else if (b <? a)%float then a
  else match Prim2SF a with S754_zero true => b | _ => a end.

(** [Math.round(v)]: the integer nearest to [v], a tie going up; [-0] for
    [-0.5 <= v < 0]. *)
Definition Math_round (v : float) : float :=
  match Prim2SF v with
  | S754_finite s m e =>
      if 0 <=? e then v
      else
        let d := 2 ^ (- e) in
        let n := (2 * (if s then - Zpos m else Zpos m) + d) / (2 * d) in
        if n =? 0 then (if s then (-0)%float else 0%float) else Z2F n
  | _ => v
  end.

(** Round [m * 2^e] ([m > 0]) to the nearest integer, ties to even. *)
Definition roundHalfEven (m : positive) (e : Z) : Z :=
  if 0 <=? e then Zpos m * 2 ^ e
  else
    let d := 2 ^ (- e) in
    let q := Zpos m / d in
    let r := Zpos m mod d in
    match 2 * r ?= d with
    | Lt => q
    | Gt => q + 1
    | Eq => if Z.even q then q else q + 1
    end.

(** Storing a number into a [Uint8ClampedArray] (ECMAScript ToUint8Clamp):
    NaN becomes 0, the value is clamped to 0..255 and rounded half to even. *)
Definition ToUint8Clamp (v : float) : Z :=
  match Prim2SF v with
  | S754_nan => 0
  | S754_zero _ => 0
  | S754_infinity s => if s then 0 else 255
  | S754_finite s m e => if s then 0 else Z.min 255 (roundHalfEven m e)
  end.

(** ** JS promises *)

(** How an awaited promise settles.  A rejection carries the [message] of
    the thrown [Error], or [None] when the reason is not an [Error]. *)
Inductive Settled (A : Type) : Type :=
| Fulfilled (value : A)
| Rejected (reason : option string).
Arguments Fulfilled {A} value.
Arguments Rejected {A} reason.

(** ** JS arrays *)

(** [a[i]] for an integer [i]: [None] is [undefined]. *)
Definition js_get {A : Type} (a : list A) (i : Z) : option A :=
  if i <? 0 then None else a !! Z.to_nat i.

(** [a.sort(cmp)] for a consistent comparator: the sort of ECMAScript is
    stable, so its result is the one of a stable insertion sort. *)
Fixpoint js_insert {A : Type} (cmp : A -> A -> Z) (a : A) (l : list A) : list A :=
  match l with
  | [] => [a]
  | b :: l' => if cmp a b <=? 0 then a :: b :: l' else b :: js_insert cmp a l'
  end.

Fixpoint js_sort {A : Type} (cmp : A -> A -> Z) (l : list A) : list A :=
  match l with
  | [] => []
  | a :: l' => js_insert cmp a (js_sort cmp l')
  end.

(** The browser's [ImageData]: [data] is a [Uint8ClampedArray] of RGBA
    samples in row-major order. *)
Module ImageData.
Record t := { width : Z; height : Z; data : list Z }.
End ImageData.

(** ** components/ocr/utils.ts *)

Module Utils.

(** The [options] argument of [preprocessImage]. *)
Record Options := {
  scale : float;
  grayscale : bool;
  contrast : float;
  brightness : float;
  sharpen : bool;
  threshold : option float  (* [null] is [None] *)
}.

(** The defaults of the destructuring at the top of [preprocessImage]. *)
Definition defaultOptions : Options :=
  {| scale := 2; grayscale := true; contrast := 1.5; brightness := 1.1;
     sharpen := false; threshold := None |}.

(** One iteration of the loop of step 4 ("Apply filters"), for the pixel
    whose samples are [data[i]], [data[i+1]], [data[i+2]].  [adjust] is the
    body down to "Clamp values": the numbers held by [r], [g], [b] there. *)
Definition adjust (o : Options) (r0 g0 b0 : Z) : float * float * float :=
  let r := Z2F r0 in
  let g := Z2F g0 in
  let b := Z2F b0 in
  (* Grayscale *)
  let '(r, g, b) :=
    if grayscale o then
      let gray := (0.299 * r + 0.587 * g + 0.114 * b)%float in
      (gray, gray, gray)
    else (r, g, b) in
  (* Contrast & Brightness *)
  let r := (((r - 128) * contrast o + 128) * brightness o)%float in
  let g := (((g - 128) * contrast o + 128) * brightness o)%float in
  let b := (((b - 128) * contrast o + 128) * brightness o)%float in
  (* Clamp values *)
  let r := Math_max 0 (Math_min 255 r) in
  let g := Math_max 0 (Math_min 255 g) in
  let b := Math_max 0 (Math_min 255 b) in
  (r, g, b).

(** The whole body: the three numbers assigned back to [data[i]],
    [data[i+1]], [data[i+2]], before the typed array converts them. *)
Definition filterPixel (o : Options) (r0 g0 b0 : Z) : float * float * float :=
  let '(r, g, b) := adjust o r0 g0 b0 in
  (* Binarization (threshold) *)
  match threshold o with
  | Some t =>
      let avg := ((r + g + b) / 3)%float in
      let v := if (t <? avg)%float then 255%float else 0%float in
      (v, v, v)
  | None => (r, g, b)
  end.

(** The loop [for (i = 0; i < data.length; i += 4)] over the RGBA samples of
    an [ImageData]; [data[i + 3]] is never written.  An [ImageData] holds a
    multiple of four samples, so the last case is met only at the end. *)
Fixpoint applyFilters (o : Options) (data : list Z) : list Z :=
  match data with
  | r :: g :: b :: a :: rest =>
      let '(r', g', b') := filterPixel o r g b in
      ToUint8Clamp r' :: ToUint8Clamp g' :: ToUint8Clamp b' :: a
        :: applyFilters o rest
  | _ => data
  end.

(** [getConfidenceColor] and [getConfidenceLabel]: [confidence >= 80] is
    false for NaN. *)
Definition getConfidenceColor (confidence : float) : string :=
  if (80 <=? confidence)%float then "text-green-600 dark:text-green-400"
  else if (60 <=? confidence)%float then "text-yellow-600 dark:text-yellow-400"
  else "text-red-600 dark:text-red-400".

Definition getConfidenceLabel (confidence : float) : string :=
  if (80 <=? confidence)%float then "High"
  else if (60 <=? confidence)%float then "Medium"
  else "Low".

Definition VALID_IMAGE_TYPES : list string :=
  ["image/jpeg"; "image/jpg"; "image/png"; "image/gif"; "image/webp";
   "image/bmp"].

Definition MAX_FILE_SIZE : Z := 10 * 1024 * 1024.

(** What [validateImageFile] reads of a [File]: its MIME type and its size
    in bytes. *)
Record File := { type : string; size : Z }.

(** The result [{ valid, error? }]. *)
Record Validation := { valid : bool; error : option string }.

(** [VALID_IMAGE_TYPES.includes(file.type)]. *)
Definition includes (l : list string) (s : string) : bool :=
  existsb (String.eqb s) l.

Definition validateImageFile (file : File) : Validation :=
  if negb (includes VALID_IMAGE_TYPES (type file)) then
    {| valid := false;
       error :=
         Some "Please select a valid image file (JPG, PNG, GIF, WEBP, or BMP)" |}
  else if MAX_FILE_SIZE <? size file then
    {| valid := false; error := Some "File size must be less than 10MB" |}
  else {| valid := true; error := None |}.

End Utils.

(** ** components/ocr/digitSegmentation.ts *)

Module BoundingBox.
Record t := { x : Z; y : Z; width : Z; height : Z }.
End BoundingBox.

Module DigitSegmentation.

(** What [getImageData(0, 0, size, size)] reads back from the square canvas
    of [segmentDigits]: a [size] x [size] raster showing a white fill and
    over it the source rectangle [(sx, sy, sw, sh)] of the image, drawn
    unscaled with its corner at [(offsetX, offsetY)].  The offsets are
    halves of integers (exact as doubles), kept as rationals; how the
    browser resamples at a half-pixel offset is not modelled. *)
Record Patch := {
  pwidth : Z;
  pheight : Z;
  fillStyle : string;
  sx : Z; sy : Z; sw : Z; sh : Z;
  offsetX : Q;
  offsetY : Q
}.

Record SegmentedDigit := { bbox : BoundingBox.t; imageData : Patch }.

(** The local state of [floodFill]: the explicit stack (its top is the
    head of the list), the shared [visited] array, and the running bounds
    and count. *)
Record Fill := {
  stack : list (Z * Z);
  visited : list bool;
  minX : Z; maxX : Z; minY : Z; maxY : Z;
  pixelCount : Z
}.

Section Segment.
Variable img : ImageData.t.
Let width := ImageData.width img.
Let height := ImageData.height img.

(** [isForeground]: the red sample is below 128 ([undefined < 128] is
    false). *)
Definition isForeground (x y : Z) : bool :=
  let idx := (y * width + x) * 4 in
  match js_get (ImageData.data img) idx with
  | Some value => value <? 128
  | None => false
  end.

(** One iteration of [while (stack.length > 0)], with [(x, y)] popped and
    [rest] the stack below it.  Past the bounds test [idx] is an index of
    [visited] ([inside_index]), so [visited[idx] = true] never extends the
    array. *)
Definition fillIter (x y : Z) (rest : list (Z * Z)) (s : Fill) : Fill :=
  let skip :=
    {| stack := rest; visited := visited s;
       minX := minX s; maxX := maxX s; minY := minY s; maxY := maxY s;
       pixelCount := pixelCount s |} in
  if (x <? 0) || (width <=? x) || (y <? 0) || (height <=? y) then skip
  else
    let idx := y * width + x in
    if match js_get (visited s) idx with Some true => true | _ => false end
       || negb (isForeground x y)
    then skip
    else
      {| stack :=
           (x - 1, y + 1) :: (x + 1, y - 1) :: (x - 1, y - 1)
             :: (x + 1, y + 1) :: (x, y - 1) :: (x, y + 1)
             :: (x - 1, y) :: (x + 1, y) :: rest;
         visited := <[Z.to_nat idx := true]> (visited s);
         minX := Z.min (minX s) x; maxX := Z.max (maxX s) x;
         minY := Z.min (minY s) y; maxY := Z.max (maxY s) y;
         pixelCount := pixelCount s + 1 |}.

(** The [while] loop, run for at most [fuel] iterations: [None] is "not
    finished yet". *)
Fixpoint fillLoop (fuel : nat) (s : Fill) : option Fill :=
  match stack s with
  | [] => Some s
  | (x, y) :: rest =>
      match fuel with
      | O => None
      | S n => fillLoop n (fillIter x y rest s)
      end
  end.

(** The test that ends [floodFill] ("Filter out noise (too small) and
    borders (too large)"). *)
Definition rejected (s : Fill) : bool :=
  let componentWidth := maxX s - minX s + 1 in
  let componentHeight := maxY s - minY s + 1 in
  let area := componentWidth * componentHeight in
  (pixelCount s <? 50)
  || (Z2F (width * height) * 0.9 <? Z2F area)%float
  || (componentWidth <? 10)
  || (componentHeight <? 10).

Definition boxOf (s : Fill) : BoundingBox.t :=
  {| BoundingBox.x := minX s; BoundingBox.y := minY s;
     BoundingBox.width := maxX s - minX s + 1;
     BoundingBox.height := maxY s - minY s + 1 |}.

Definition fillStart (vis : list bool) (startX startY : Z) : Fill :=
  {| stack := [(startX, startY)]; visited := vis;
     minX := startX; maxX := startX; minY := startY; maxY := startY;
     pixelCount := 0 |}.

(** Every iteration either pops, or marks one more pixel and pushes
    eight: eight iterations per pixel and one for the seed are enough. *)
Definition fillFuel : nat := S (8 * Z.to_nat (width * height)).

(** [floodFill(startX, startY)]: the [visited] array after the fill, and
    the box or [null]. *)
Definition floodFill (vis : list bool) (startX startY : Z)
  : option (list bool * option BoundingBox.t) :=
  match fillLoop fillFuel (fillStart vis startX startY) with
  | None => None
  | Some s =>
      Some (visited s, if rejected s then None else Some (boxOf s))
  end.

(** The body of the two [for] loops ("Find all connected components"). *)
Definition scanPixel (y : Z) (acc : option (list bool * list BoundingBox.t))
    (x : Z) : option (list bool * list BoundingBox.t) :=
  match acc with
  | None => None
  | Some (vis, components) =>
      let idx := y * width + x in
      if negb (match js_get vis idx with Some true => true | _ => false end)
         && isForeground x y
      then
        match floodFill vis x y with
        | None => None
        | Some (vis', Some bbox) => Some (vis', components ++ [bbox])
        | Some (vis', None) => Some (vis', components)
        end
      else acc
  end.

Definition scanRow (acc : option (list bool * list BoundingBox.t)) (y : Z) :=
  fold_left (scanPixel y) (seqZ 0 width) acc.

Definition findComponents : option (list BoundingBox.t) :=
  let visited0 := replicate (Z.to_nat (width * height)) false in
  match fold_left scanRow (seqZ 0 height) (Some (visited0, [])) with
  | None => None
  | Some (_, components) => Some components
  end.

(** The callback of [components.map]. *)
Definition extract (bbox : BoundingBox.t) : SegmentedDigit :=
  let padding := 5 in
  let paddedX := Z.max 0 (BoundingBox.x bbox - padding) in
  let paddedY := Z.max 0 (BoundingBox.y bbox - padding) in
  let paddedWidth :=
    Z.min (width - paddedX) (BoundingBox.width bbox + padding * 2) in
  let paddedHeight :=
    Z.min (height - paddedY) (BoundingBox.height bbox + padding * 2) in
  let size := Z.max paddedWidth paddedHeight in
  {| bbox :=
       {| BoundingBox.x := paddedX; BoundingBox.y := paddedY;
          BoundingBox.width := paddedWidth;
          BoundingBox.height := paddedHeight |};
     imageData :=
       {| pwidth := size; pheight := size; fillStyle := "white";
          sx := paddedX; sy := paddedY; sw := paddedWidth; sh := paddedHeight;
          offsetX := (size - paddedWidth) # 2;
          offsetY := (size - paddedHeight) # 2 |} |}.

(** [segmentDigits(imageData)]; [None] only if a fill ran out of fuel,
    which [segmentDigits_total] excludes. *)
Definition segmentDigits : option (list SegmentedDigit) :=
  match findComponents with
  | None => None
  | Some components =>
      let sorted :=
        js_sort (fun a b => BoundingBox.x a - BoundingBox.x b) components in
      Some (map extract sorted)
  end.

(** [segmentDigitsSimple(imageData, expectedDigits)], for a count of digits:
    [None] is a missing argument, and [!expectedDigits] holds for it and for
    0.  One iteration of the loop makes the band [i]. *)
Definition band (digitWidth i : Z) : SegmentedDigit :=
  let x := i * digitWidth in
  let size := Z.max digitWidth height in
  {| bbox :=
       {| BoundingBox.x := x; BoundingBox.y := 0;
          BoundingBox.width := digitWidth; BoundingBox.height := height |};
     imageData :=
       {| pwidth := size; pheight := size; fillStyle := "white";
          sx := x; sy := 0; sw := digitWidth; sh := height;
          offsetX := (size - digitWidth) # 2;
          offsetY := (size - height) # 2 |} |}.

Definition segmentDigitsSimple (expectedDigits : option Z)
  : option (list SegmentedDigit) :=
  match expectedDigits with
  | None => segmentDigits
  | Some n =>
      if n =? 0 then segmentDigits
      else
        (* Divide image into equal columns *)
        let digitWidth := width / n in
        Some (map (band digitWidth) (seqZ 0 n))
  end.

End Segment.

End DigitSegmentation.

(** ** components/ocr/mnistModel.ts *)

Module MnistModel.

Record DigitPrediction := {
  digit : Z;
  confidence : float;
  probabilities : list float
}.

(** [Math.max(...probabilities)]: the maximum starts from [-Infinity]. *)
Definition maxOf (ps : list float) : float :=
  fold_left Math_max ps neg_infinity.

(** [probabilities.indexOf(v)]: the first index whose entry is strictly
    equal ([===]) to [v], or [-1]. *)
Fixpoint indexOfFrom (v : float) (ps : list float) (i : Z) : Z :=
  match ps with
  | [] => -1
  | p :: ps' => if (p =? v)%float then i else indexOfFrom v ps' (i + 1)
  end.

Definition indexOf (ps : list float) (v : float) : Z := indexOfFrom v ps 0.

(** The body of [tf.tidy] in [predictDigit], from the array read back by
    [prediction.dataSync()]; [probabilities[-1]] is [undefined], and
    [undefined * 100] is NaN. *)
Definition tidyPrediction (probabilities : list float) : DigitPrediction :=
  let digit := indexOf probabilities (maxOf probabilities) in
  let confidence :=
    match js_get probabilities digit with
    | Some p => (p * 100)%float
    | None => nan
    end in
  {| digit := digit; confidence := confidence; probabilities := probabilities |}.

Section Model.
(** The TensorFlow.js runtime is a collaborator: [Weights] stands for the
    parameters of a [tf.LayersModel], [Tensor] for a [tf.Tensor4D], and
    [forward w t] for what [predict] followed by [dataSync] gives on a
    model with parameters [w] ([None] when it throws). *)
Context {Weights Tensor : Type}.
Variable forward : Weights -> Tensor -> option (list float).

(** A [tf.LayersModel] object: its identity and its parameters. *)
Record LayersModel := { uid : nat; weights : Weights }.

(** Calls into the runtime, the model store and the network. *)
Inductive Effect :=
| LoadLayersModel              (* tf.loadLayersModel('indexeddb://mnist-model') *)
| DataLoad                     (* data.load() *)
| Fit (newModel : nat)         (* newModel.fit(...) *)
| Save (newModel : nat)        (* newModel.save('indexeddb://mnist-model') *)
| Dispose (m : nat).           (* model.dispose() *)

(** The module-level [let model], the allocator of object identities and
    the calls made so far (latest first). *)
Record World := {
  model : option LayersModel;
  nextUid : nat;
  log : list Effect
}.

Definition emit (e : Effect) (w : World) : World :=
  {| model := model w; nextUid := nextUid w; log := e :: log w |}.

(** Where a call of [loadMNISTModel] is suspended, or how it ended. *)
Inductive LoadPc :=
| AwaitLoadLayers
| AwaitDataLoad (newModel : nat)
| AwaitFit (newModel : nat)
| AwaitSave (newModel : LayersModel)
| Returned (m : LayersModel)
| Threw (message : string).

(** The [catch] of [loadMNISTModel]. *)
Definition initFailure (reason : option string) : LoadPc :=
  Threw ("Failed to initialize MNIST model: "
         +:+ match reason with Some m => m | None => "Unknown error" end).

(** A call of [loadMNISTModel], up to its first [await]. *)
Definition loadMNISTModel (w : World) : World * LoadPc :=
  match model w with
  | Some m => (w, Returned m)
  | None => (emit LoadLayersModel w, AwaitLoadLayers)
  end.

(** A suspended call resumes when the awaited promise settles and runs to
    its next [await].  The value of a fulfilment is the parameters read
    from the store (after [AwaitLoadLayers]) or reached by training
    (after [AwaitFit]); [data.load()] and [save] yield nothing that is
    used. *)
Definition loadResume (w : World) (pc : LoadPc) (a : Settled Weights)
  : World * LoadPc :=
  match pc, a with
  | AwaitLoadLayers, Fulfilled ws =>
      let m := {| uid := nextUid w; weights := ws |} in
      ({| model := Some m; nextUid := S (nextUid w); log := log w |},
       Returned m)
  | AwaitLoadLayers, Rejected _ =>
      (* createMNISTModel(), compile, new MnistData(), data.load() *)
      let newModel := nextUid w in
      ({| model := model w; nextUid := S (nextUid w);
          log := DataLoad :: log w |},
       AwaitDataLoad newModel)
  | AwaitDataLoad newModel, Fulfilled _ =>
      (emit (Fit newModel) w, AwaitFit newModel)
  | AwaitFit newModel, Fulfilled ws =>
      (emit (Save newModel) w,
       AwaitSave {| uid := newModel; weights := ws |})
  | AwaitSave newModel, Fulfilled _ =>
      ({| model := Some newModel; nextUid := nextUid w; log := log w |},
       Returned newModel)
  | AwaitDataLoad _, Rejected r
  | AwaitFit _, Rejected r
  | AwaitSave _, Rejected r => (w, initFailure r)
  | Returned _, _ | Threw _, _ => (w, pc)
  end.

(** [disposeModel]. *)
Definition disposeModel (w : World) : World :=
  match model w with
  | Some m =>
      {| model := None; nextUid := nextUid w; log := Dispose (uid m) :: log w |}
  | None => w
  end.

(** Where a call of [predictDigit] is suspended, or how it ended. *)
Inductive PredictPc :=
| AwaitModel (inner : LoadPc)
| PredictReturned (p : DigitPrediction)
| PredictThrew (message : string).

(** [predictDigit] once [loadMNISTModel()] has advanced to [inner].  When
    [predict] throws, the message is the runtime's; "predict failed" stands
    for it. *)
Definition predictAfter (inputTensor : Tensor) (inner : LoadPc) : PredictPc :=
  match inner with
  | Returned mnistModel =>
      match forward (weights mnistModel) inputTensor with
      | Some probabilities => PredictReturned (tidyPrediction probabilities)
      | None => PredictThrew "predict failed"
      end
  | Threw message => PredictThrew message
  | _ => AwaitModel inner
  end.

Definition predictDigit (w : World) (inputTensor : Tensor) : World * PredictPc :=
  let '(w', inner) := loadMNISTModel w in
  (w', predictAfter inputTensor inner).

Definition predictResume (w : World) (inputTensor : Tensor) (pc : PredictPc)
    (a : Settled Weights) : World * PredictPc :=
  match pc with
  | AwaitModel inner =>
      let '(w', inner') := loadResume w inner a in
      (w', predictAfter inputTensor inner')
  | _ => (w, pc)
  end.

(** One call of [loadMNISTModel], alone, through the settlements of the
    promises it awaits. *)
Definition loadRun (w : World) (answers : list (Settled Weights))
  : World * LoadPc :=
  fold_left (fun st a => loadResume (fst st) (snd st) a) answers
    (loadMNISTModel w).

(** One call of [predictDigit], alone, likewise.  ([predictDigitFromImage]
    only builds the tensor, awaits [predictDigit] and disposes the
    tensor.) *)
Definition predictRun (w : World) (inputTensor : Tensor)
    (answers : list (Settled Weights)) : World * PredictPc :=
  fold_left (fun st a => predictResume (fst st) inputTensor (snd st) a)
    answers (predictDigit w inputTensor).

(** Several calls of [loadMNISTModel] in flight on the one JS thread:
    a started call runs to its first [await]; whenever an awaited promise
    settles, its call runs to the next one. *)
Inductive Event :=
| Call
| Settle (call : nat) (a : Settled Weights)
| DisposeModel.

Record Sys := { world : World; calls : list LoadPc }.

Definition step (s : Sys) (e : Event) : Sys :=
  match e with
  | Call =>
      let '(w', pc) := loadMNISTModel (world s) in
      {| world := w'; calls := calls s ++ [pc] |}
  | Settle i a =>
      match calls s !! i with
      | Some pc =>
          let '(w', pc') := loadResume (world s) pc a in
          {| world := w'; calls := <[i := pc']> (calls s) |}
      | None => s
      end
  | DisposeModel => {| world := disposeModel (world s); calls := calls s |}
  end.

Definition run (s : Sys) (es : list Event) : Sys := fold_left step es s.

(** A fresh page: no model, nothing called yet. *)
Definition absent : Sys :=
  {| world := {| model := None; nextUid := 0%nat; log := [] |}; calls := [] |}.

(** How many times the load-or-train path was entered. *)
Definition loadPathRuns (l : list Effect) : nat :=
  length (List.filter
            (fun e => match e with LoadLayersModel => true | _ => false end) l).

(** How many trainings were started. *)
Definition trainings (l : list Effect) : nat :=
  length (List.filter
            (fun e => match e with Fit _ => true | _ => false end) l).

End Model.

End MnistModel.

(** ** components/ocr/HandwrittenDigitRecognizer.tsx *)

Module Recognizer.

Record DigitResult := {
  digit : Z;
  confidence : float;
  bbox : BoundingBox.t
}.

Record HandwritingResult := {
  digits : list DigitResult;
  combinedText : string;
  processingTime : Z;
  preprocessedImage : string
}.

(** What the effect does to the outside: the two state setters, the two
    callbacks of the props, and [console.error]. *)
Inductive Output :=
| SetStatus (status : string)
| SetProgress (progress : float)
| ConsoleError
| OnComplete (result : HandwritingResult)
| OnError (error : string).

(** The options [recognize] passes to [preprocessImage]. *)
Definition preprocessOptions : Utils.Options :=
  {| Utils.scale := 3; Utils.grayscale := true; Utils.contrast := 2.5;
     Utils.brightness := 1.2; Utils.sharpen := false;
     Utils.threshold := Some 140%float |}.

(** The values the awaited promises of [recognize] fulfil with.  For
    [predictDigitFromImage] the value is the [DigitPrediction] that
    [predictDigit] builds, [MnistModel.tidyPrediction probabilities], given
    here by the array the model produced. *)
Inductive Value :=
| Model                                  (* loadMNISTModel() *)
| Url (dataUrl : string)                 (* preprocessImage(file, ...) *)
| Image (imageData : ImageData.t)        (* the decoded preprocessed image *)
| Prediction (probabilities : list float).

(** Where [recognize] is suspended. *)
Inductive Pc :=
| AwaitModel
| AwaitPreprocess
| AwaitImage (preprocessedImageUrl : string)
| AwaitPrediction (preprocessedImageUrl : string)
    (segments : list DigitSegmentation.SegmentedDigit)
    (i : nat) (results : list DigitResult)
| Done.

(** One run of the effect: [cancelled] is the flag of the closure, set by
    the cleanup function; [outputs] is in order of occurrence. *)
Record State := {
  pc : Pc;
  cancelled : bool;
  startTime : Z;
  outputs : list Output
}.

Definition say (os : list Output) (next : Pc) (s : State) : State :=
  {| pc := next; cancelled := cancelled s; startTime := startTime s;
     outputs := outputs s ++ os |}.

(** The outer [catch (err)]. *)
Definition catch (reason : option string) (s : State) : State :=
  if cancelled s then say [] Done s
  else
    say [ConsoleError;
         OnError match reason with Some m => m | None => "Recognition failed" end]
      Done s.

(** [results.map((r) => (r.digit >= 0 ? r.digit : '?')).join('')]. *)
Definition digitText (r : DigitResult) : string :=
  if 0 <=? digit r then pretty (digit r) else "?".

Definition combine (results : list DigitResult) : string :=
  String.concat "" (map digitText results).

(** Step 6 ("Combine results"). *)
Definition complete (now : Z) (url : string) (results : list DigitResult)
    (s : State) : State :=
  say [SetStatus "Complete!"; SetProgress 100;
       OnComplete {| digits := results; combinedText := combine results;
                     processingTime := now - startTime s;
                     preprocessedImage := url |}]
    Done s.

(** [setProgress(55 + (i / segments.length) * 40)]. *)
Definition loopProgress (i n : nat) : Output :=
  SetProgress (55 + (Z2F (Z.of_nat i) / Z2F (Z.of_nat n)) * 40)%float.

(** What one iteration of the loop of step 5 pushes to [results]. *)
Definition resultOf (segment : DigitSegmentation.SegmentedDigit)
    (a : Settled (list float)) : DigitResult :=
  match a with
  | Fulfilled probabilities =>
      let prediction := MnistModel.tidyPrediction probabilities in
      {| digit := MnistModel.digit prediction;
         confidence := MnistModel.confidence prediction;
         bbox := DigitSegmentation.bbox segment |}
  | Rejected _ =>
      {| digit := -1; confidence := 0; bbox := DigitSegmentation.bbox segment |}
  end.

(** The call of [recognize()] in the effect, up to its first [await]. *)
Definition recognize (now : Z) : State :=
  {| pc := AwaitModel; cancelled := false; startTime := now;
     outputs :=
       [SetStatus "Loading AI model (first time may take 30-60s to train)...";
        SetProgress 10] |}.

(** [recognize] resumes when the promise it awaits settles, at time [now],
    and runs to its next [await] or to its end.  A fulfilment of the wrong
    type cannot occur and leaves the state as it is.  [segmentDigits] always
    returns ([segmentDigits_total]). *)
Definition resume (a : Settled Value) (now : Z) (s : State) : State :=
  match pc s, a with
  | AwaitModel, Fulfilled Model =>
      let s := say [SetProgress 25] AwaitModel s in
      if cancelled s then say [] Done s
      else say [SetStatus "Preprocessing image..."; SetProgress 35]
             AwaitPreprocess s
  | AwaitPreprocess, Fulfilled (Url preprocessedImageUrl) =>
      say [SetStatus "Loading preprocessed image..."; SetProgress 45]
        (AwaitImage preprocessedImageUrl) s
  | AwaitImage url, Fulfilled (Image imageData) =>
      let s := say [SetStatus "Detecting digits..."; SetProgress 55]
                 (AwaitImage url) s in
      let segments := default [] (DigitSegmentation.segmentDigits imageData) in
      match segments with
      | [] =>
          say [OnError
                 "No digits detected. Try adjusting the image or preprocessing."]
            Done s
      | _ :: _ =>
          say [SetStatus ("Recognizing " +:+ pretty (length segments)
                          +:+ " digit(s)...");
               loopProgress 0 (length segments)]
            (AwaitPrediction url segments 0 []) s
      end
  | AwaitPrediction url segments i results, _ =>
      match segments !! i,
            match a with
            | Fulfilled (Prediction ps) => Some (Fulfilled ps, [])
            | Rejected r => Some (Rejected r, [ConsoleError])
            | _ => None
            end
      with
      | Some segment, Some (outcome, logged) =>
          let results := results ++ [resultOf segment outcome] in
          if (S i <? length segments)%nat then
            say (logged ++ [loopProgress (S i) (length segments)])
              (AwaitPrediction url segments (S i) results) s
          else complete now url results (say logged Done s)
      | _, _ => s
      end
  | AwaitModel, Rejected r
  | AwaitPreprocess, Rejected r
  | AwaitImage _, Rejected r => catch r s
  | _, _ => s
  end.

(** What happens to a run: a promise settles, or React runs the cleanup
    function of the effect ([cancelled = true]). *)
Inductive Event :=
| Settle (a : Settled Value) (now : Z)
| Cleanup.

Definition step (s : State) (e : Event) : State :=
  match e with
  | Settle a now => resume a now s
  | Cleanup =>
      {| pc := pc s; cancelled := true; startTime := startTime s;
         outputs := outputs s |}
  end.

Definition run (s : State) (es : list Event) : State := fold_left step es s.

(** The settlements of the awaited [predictDigitFromImage] calls of a run,
    one per segment, each with the time at which it happens. *)
Definition answerOf (o : Settled (list float)) : Settled Value :=
  match o with
  | Fulfilled probabilities => Fulfilled (Prediction probabilities)
  | Rejected r => Rejected r
  end.

Definition predictionEvents (outcomes : list (Settled (list float) * Z))
  : list Event :=
  map (fun o => Settle (answerOf (fst o)) (snd o)) outcomes.

(** What the inner [catch] logs for an outcome. *)
Definition logged (o : Settled (list float)) : list Output :=
  match o with Fulfilled _ => [] | Rejected _ => [ConsoleError] end.

(** The calls of [onComplete] and of [onError] among the outputs. *)
Definition completions (os : list Output) : list HandwritingResult :=
  omap (fun o => match o with OnComplete r => Some r | _ => None end) os.

Definition errors (os : list Output) : list string :=
  omap (fun o => match o with OnError e => Some e | _ => None end) os.

(** [HandwritingResults]: its inner [getConfidenceColor], the classes of a
    digit's tile; the tile shows [digitText]. *)
Definition getConfidenceColor (conf : float) : string :=
  if (90 <=? conf)%float then "bg-green-100 dark:bg-green-900/30 border-green-500"
  else if (70 <=? conf)%float then
    "bg-yellow-100 dark:bg-yellow-900/30 border-yellow-500"
  else "bg-red-100 dark:bg-red-900/30 border-red-500".

End Recognizer.

(** ** routes/ocr.tsx

    The handlers of [RouteComponent] as transformers of its state.  A handler
    reads the state cells when it is called; after an [await] the Tesseract
    branch of [handleProcess] only calls setters, so a setter is a write to
    its cell.  The runs of that branch are told apart by their rank. *)

Module Route.

(** Statements in the order of the source: [s |> f |> g] is [f] then [g]. *)
Notation "s |> f" := (f s) (at level 45, left associativity, only parsing).

Inductive OCREngine := tesseract | tensorflow.

Section Route.
(** [RecognizeResult] is the result type of tesseract.js. *)
Context {RecognizeResult : Type}.

(** The state of [RouteComponent] (its [useState] cells). *)
Record State := {
  selectedFile : option Utils.File;
  imagePreview : string;
  preprocessedImage : string;
  ocrResult : option RecognizeResult;
  handwritingResult : option Recognizer.HandwritingResult;
  isProcessing : bool;
  error : string;
  progress : float;
  processingTime : Z;
  engine : OCREngine
}.

(** The options [handleProcess] passes to [preprocessImage]. *)
Definition tesseractOptions : Utils.Options :=
  {| Utils.scale := 2; Utils.grayscale := true; Utils.contrast := 1.8;
     Utils.brightness := 1.1; Utils.sharpen := false;
     Utils.threshold := Some 128%float |}.

(** Calls that leave the component, with the Tesseract run that makes
    them. *)
Inductive Effect :=
| ReadAsDataURL (file : Utils.File)
| PreprocessImage (run : nat) (file : Utils.File) (options : Utils.Options)
| CreateWorker (run : nat)
| SetParameters (run : nat)
| Recognize (run : nat) (image : string)
| ConsoleLog (run : nat)
| Terminate (run : nat).

(** The values the promises awaited by the Tesseract branch fulfil with. *)
Inductive Value :=
| PreprocessedUrl (url : string)     (* preprocessImage(...) *)
| Worker                             (* createWorker(...) *)
| Unit                               (* setParameters, terminate *)
| Result (result : RecognizeResult). (* worker.recognize(...) *)

(** Where the Tesseract branch of a call of [handleProcess] is suspended. *)
Inductive Pc :=
| AwaitPreprocess (startTime : Z)
| AwaitCreateWorker (startTime : Z) (preprocessedImageUrl : string)
| AwaitSetParameters (startTime : Z) (preprocessedImageUrl : string)
| AwaitRecognize (startTime : Z) (preprocessedImageUrl : string)
| AwaitTerminate
| Finished.

(** The component, the Tesseract runs started so far and the calls made
    (latest first). *)
Record Page := {
  state : State;
  runs : list Pc;
  effects : list Effect
}.

(** The setters of the [useState] cells. *)
Definition setSelectedFile (v : option Utils.File) (s : State) : State :=
  {| selectedFile := v; imagePreview := imagePreview s;
     preprocessedImage := preprocessedImage s; ocrResult := ocrResult s;
     handwritingResult := handwritingResult s; isProcessing := isProcessing s;
     error := error s; progress := progress s;
     processingTime := processingTime s; engine := engine s |}.

Definition setImagePreview (v : string) (s : State) : State :=
  {| selectedFile := selectedFile s; imagePreview := v;
     preprocessedImage := preprocessedImage s; ocrResult := ocrResult s;
     handwritingResult := handwritingResult s; isProcessing := isProcessing s;
     error := error s; progress := progress s;
     processingTime := processingTime s; engine := engine s |}.

Definition setPreprocessedImage (v : string) (s : State) : State :=
  {| selectedFile := selectedFile s; imagePreview := imagePreview s;
     preprocessedImage := v; ocrResult := ocrResult s;
     handwritingResult := handwritingResult s; isProcessing := isProcessing s;
     error := error s; progress := progress s;
     processingTime := processingTime s; engine := engine s |}.

Definition setOcrResult (v : option RecognizeResult) (s : State) : State :=
  {| selectedFile := selectedFile s; imagePreview := imagePreview s;
     preprocessedImage := preprocessedImage s; ocrResult := v;
     handwritingResult := handwritingResult s; isProcessing := isProcessing s;
     error := error s; progress := progress s;
     processingTime := processingTime s; engine := engine s |}.

Definition setHandwritingResult (v : option Recognizer.HandwritingResult)
    (s : State) : State :=
  {| selectedFile := selectedFile s; imagePreview := imagePreview s;
     preprocessedImage := preprocessedImage s; ocrResult := ocrResult s;
     handwritingResult := v; isProcessing := isProcessing s; error := error s;
     progress := progress s; processingTime := processingTime s;
     engine := engine s |}.

Definition setIsProcessing (v : bool) (s : State) : State :=
  {| selectedFile := selectedFile s; imagePreview := imagePreview s;
     preprocessedImage := preprocessedImage s; ocrResult := ocrResult s;
     handwritingResult := handwritingResult s; isProcessing := v;
     error := error s; progress := progress s;
     processingTime := processingTime s; engine := engine s |}.

Definition setError (v : string) (s : State) : State :=
  {| selectedFile := selectedFile s; imagePreview := imagePreview s;
     preprocessedImage := preprocessedImage s; ocrResult := ocrResult s;
     handwritingResult := handwritingResult s; isProcessing := isProcessing s;
     error := v; progress := progress s; processingTime := processingTime s;
     engine := engine s |}.

Definition setProgress (v : float) (s : State) : State :=
  {| selectedFile := selectedFile s; imagePreview := imagePreview s;
     preprocessedImage := preprocessedImage s; ocrResult := ocrResult s;
     handwritingResult := handwritingResult s; isProcessing := isProcessing s;
     error := error s; progress := v; processingTime := processingTime s;
     engine := engine s |}.

Definition setProcessingTime (v : Z) (s : State) : State :=
  {| selectedFile := selectedFile s; imagePreview := imagePreview s;
     preprocessedImage := preprocessedImage s; ocrResult := ocrResult s;
     handwritingResult := handwritingResult s; isProcessing := isProcessing s;
     error := error s; progress := progress s; processingTime := v;
     engine := engine s |}.

Definition setEngine (v : OCREngine) (s : State) : State :=
  {| selectedFile := selectedFile s; imagePreview := imagePreview s;
     preprocessedImage := preprocessedImage s; ocrResult := ocrResult s;
     handwritingResult := handwritingResult s; isProcessing := isProcessing s;
     error := error s; progress := progress s;
     processingTime := processingTime s; engine := v |}.

Definition initial : Page :=
  {| state :=
       {| selectedFile := None; imagePreview := ""; preprocessedImage := "";
          ocrResult := None; handwritingResult := None; isProcessing := false;
          error := ""; progress := 0; processingTime := 0;
          engine := tensorflow |};
     runs := []; effects := [] |}.

Definition withState (s : State) (p : Page) : Page :=
  {| state := s; runs := runs p; effects := effects p |}.

(** [handleFileSelect]: [reader.readAsDataURL(file)] is the call that later
    delivers the preview. *)
Definition handleFileSelect (file : Utils.File) (p : Page) : Page :=
  let validation := Utils.validateImageFile file in
  if negb (Utils.valid validation) then
    withState (state p |> setError (default "" (Utils.error validation))) p
  else
    {| state :=
         state p |> setError "" |> setSelectedFile (Some file)
                 |> setOcrResult None |> setHandwritingResult None;
       runs := runs p;
       effects := ReadAsDataURL file :: effects p |}.

(** [handleProcess], called at time [now], up to its first [await]. *)
Definition handleProcess (now : Z) (p : Page) : Page :=
  match selectedFile (state p) with
  | None => p
  | Some file =>
      match engine (state p) with
      | tensorflow =>
          withState
            (state p |> setIsProcessing true |> setError ""
                     |> setOcrResult None |> setHandwritingResult None) p
      | tesseract =>
          {| state :=
               state p |> setIsProcessing true |> setError "" |> setProgress 0
                       |> setOcrResult None |> setHandwritingResult None;
             runs := runs p ++ [AwaitPreprocess now];
             effects :=
               PreprocessImage (length (runs p)) file tesseractOptions
                 :: effects p |}
      end
  end.

(** The [finally] block. *)
Definition finally (s : State) : State :=
  s |> setIsProcessing false |> setProgress 0.

(** The [catch (err)] block, then [finally]. *)
Definition catch (reason : option string) (s : State) : State :=
  s |> setError match reason with
                | Some m => m
                | None => "OCR processing failed"
                end
    |> finally.

(** The run [i] resumes when the promise it awaits settles, at time [now],
    and runs to its next [await] or to its end: the new state of the
    component, where the run is, and the calls it made (latest first).  A
    fulfilment of the wrong type cannot occur and changes nothing. *)
Definition resume (i : nat) (pc : Pc) (a : Settled Value) (now : Z) (s : State)
  : State * Pc * list Effect :=
  match pc, a with
  | AwaitPreprocess t0, Fulfilled (PreprocessedUrl url) =>
      (s |> setPreprocessedImage url, AwaitCreateWorker t0 url,
       [CreateWorker i])
  | AwaitCreateWorker t0 url, Fulfilled Worker =>
      (s, AwaitSetParameters t0 url, [SetParameters i])
  | AwaitSetParameters t0 url, Fulfilled _ =>
      (s, AwaitRecognize t0 url, [Recognize i url])
  | AwaitRecognize t0 url, Fulfilled (Result result) =>
      (s |> setOcrResult (Some result) |> setProcessingTime (now - t0),
       AwaitTerminate, [Terminate i; ConsoleLog i])
  | AwaitTerminate, Fulfilled _ => (finally s, Finished, [])
  | AwaitPreprocess _, Rejected r
  | AwaitCreateWorker _ _, Rejected r
  | AwaitSetParameters _ _, Rejected r
  | AwaitRecognize _ _, Rejected r
  | AwaitTerminate, Rejected r => (catch r s, Finished, [])
  | _, _ => (s, pc, [])
  end.

(** The [logger] given to [createWorker]. *)
Definition logger (status : string) (mprogress : float) (s : State) : State :=
  if String.eqb status "recognizing text" then
    s |> setProgress (Math_round (mprogress * 100))
  else s.

(** [handleTFComplete] and [handleTFError]. *)
Definition handleTFComplete (result : Recognizer.HandwritingResult) (s : State)
  : State :=
  s |> setHandwritingResult (Some result) |> setIsProcessing false.

Definition handleTFError (errorMsg : string) (s : State) : State :=
  s |> setError errorMsg |> setIsProcessing false.

(** What happens to the page.  [ClickProcess] is a click on the
    [ProcessButton], which is rendered when [selectedFile && !isProcessing];
    [PreviewLoaded] is [reader.onload]; [TFComplete] and [TFError] are the
    callbacks given to [HandwrittenDigitRecognizer]. *)
Inductive Event :=
| FileSelect (file : Utils.File)
| PreviewLoaded (result : string)
| SetEngine (e : OCREngine)
| ClickProcess (now : Z)
| Settle (run : nat) (a : Settled Value) (now : Z)
| Logger (status : string) (mprogress : float)
| TFComplete (result : Recognizer.HandwritingResult)
| TFError (errorMsg : string).

Definition step (p : Page) (e : Event) : Page :=
  match e with
  | FileSelect file => handleFileSelect file p
  | PreviewLoaded result => withState (state p |> setImagePreview result) p
  | SetEngine e => withState (state p |> setEngine e) p
  | ClickProcess now =>
      match selectedFile (state p) with
      | Some _ => if isProcessing (state p) then p else handleProcess now p
      | None => p
      end
  | Settle i a now =>
      match runs p !! i with
      | Some pc =>
          let '(s', pc', es) := resume i pc a now (state p) in
          {| state := s'; runs := <[i := pc']> (runs p);
             effects := es ++ effects p |}
      | None => p
      end
  | Logger status mprogress => withState (logger status mprogress (state p)) p
  | TFComplete result => withState (handleTFComplete result (state p)) p
  | TFError errorMsg => withState (handleTFError errorMsg (state p)) p
  end.

Definition run (p : Page) (es : list Event) : Page := fold_left step es p.

End Route.

End Route.

(** ** The specification's own words

    Definitions that follow the text of the specification, to be compared
    with the code above. *)

Module Spec.

(** "clamp(v, lo, hi)". *)
Definition clamp (v lo hi : float) : float :=
  if (v <? lo)%float then lo else if (hi <? v)%float then hi else v.

(** "the luma value 0.299R + 0.587G + 0.114B". *)
Definition luma (r g b : float) : float :=
  (0.299 * r + 0.587 * g + 0.114 * b)%float.

(** Step 2: "if grayscale, replace each pixel's R,G,B with the luma value". *)
Definition grayscaled (o : Utils.Options) (r g b : Z) : float * float * float :=
  if Utils.grayscale o then
    let y := luma (Z2F r) (Z2F g) (Z2F b) in (y, y, y)
  else (Z2F r, Z2F g, Z2F b).

(** Step 3: "v' = clamp(((v-128)*contrast + 128) * brightness, 0, 255)". *)
Definition contrastBrightness (o : Utils.Options) (v : float) : float :=
  clamp (((v - 128) * Utils.contrast o + 128) * Utils.brightness o) 0 255.

(** Step 4: "average of R,G,B compared to threshold; pixel becomes pure
    white if average > threshold, else pure black". *)
Definition binarize (t : float) (r g b : float) : Z * Z * Z :=
  let average := ((r + g + b) / 3)%float in
  if (t <? average)%float then (255, 255, 255) else (0, 0, 0).

(** "bounding area > 90% of total raster area", the product by 0.9 and the
    comparison being those of doubles. *)
Definition over90 (area total : Z) : Prop :=
  (Z2F total * 0.9 <? Z2F area)%float = true.

(** "pad bounding box by 5 pixels on every side (clamped to raster
    bounds)", for a raster of [W] by [H] pixels. *)
Definition paddedBox (W H : Z) (b : BoundingBox.t) : BoundingBox.t :=
  let left := Z.max 0 (BoundingBox.x b - 5) in
  let top := Z.max 0 (BoundingBox.y b - 5) in
  let right := Z.min W (BoundingBox.x b + BoundingBox.width b + 5) in
  let bottom := Z.min H (BoundingBox.y b + BoundingBox.height b + 5) in
  {| BoundingBox.x := left; BoundingBox.y := top;
     BoundingBox.width := right - left; BoundingBox.height := bottom - top |}.

(** "each predicted digit's character or '?' for -1". *)
Definition character (digit : Z) : string :=
  match digit with
  | 0 => "0" | 1 => "1" | 2 => "2" | 3 => "3" | 4 => "4"
  | 5 => "5" | 6 => "6" | 7 => "7" | 8 => "8" | 9 => "9"
  | _ => "?"
  end.

End Spec.

(** ** Vocabulary of the statements *)

(** Two doubles that are the same number: equal under [===], or both NaN.
    ([+0] and [-0] are the same number.) *)
Definition sameNumber (a b : float) : Prop :=
  (a =? b)%float = true \/ (is_nan a = true /\ is_nan b = true).

Definition isByte (v : Z) : Prop := 0 <= v <= 255.

(** A property of every RGBA pixel of a sample array. *)
Inductive Pixels (P : Z -> Z -> Z -> Z -> Prop) : list Z -> Prop :=
| Pixels_nil : Pixels P []
| Pixels_cons r g b a rest :
    P r g b a -> Pixels P rest -> Pixels P (r :: g :: b :: a :: rest).

Definition blackOrWhite (r g b a : Z) : Prop :=
  (r, g, b) = (0, 0, 0) \/ (r, g, b) = (255, 255, 255).

(** The entries of [visited] that are still [false]. *)
Fixpoint unvisited (vis : list bool) : nat :=
  match vis with
  | [] => 0
  | b :: vis' => (if b then 0 else 1) + unvisited vis'
  end.

(** What bounds the iterations left to a fill. *)
Definition fillMeasure (s : DigitSegmentation.Fill) : nat :=
  (8 * unvisited (DigitSegmentation.visited s)
   + length (DigitSegmentation.stack s))%nat.

(** [(x, y)] is a pixel of the raster. *)
Definition inside (img : ImageData.t) (x y : Z) : Prop :=
  0 <= x < ImageData.width img /\ 0 <= y < ImageData.height img.

(** Every foreground pixel of the raster lies in the block of [w] by [h]
    pixels whose corner is [(x0, y0)]. *)
Definition confined (img : ImageData.t) (x0 y0 w h : Z) : Prop :=
  forall x y, inside img x y -> DigitSegmentation.isForeground img x y = true ->
              x0 <= x < x0 + w /\ y0 <= y < y0 + h.

Definition componentWidth (s : DigitSegmentation.Fill) : Z :=
  DigitSegmentation.maxX s - DigitSegmentation.minX s + 1.

Definition componentHeight (s : DigitSegmentation.Fill) : Z :=
  DigitSegmentation.maxY s - DigitSegmentation.minY s + 1.

Definition accepted (img : ImageData.t) (s : DigitSegmentation.Fill) : bool :=
  negb (DigitSegmentation.rejected img s).

(** The scan of [segmentDigits] again, keeping the final state of every
    fill, rejected or not: all the flood-filled components of a raster, in
    the order in which the scan meets them. *)
Definition scanPixelFills (img : ImageData.t) (y : Z)
    (acc : option (list bool * list DigitSegmentation.Fill)) (x : Z)
  : option (list bool * list DigitSegmentation.Fill) :=
  match acc with
  | None => None
  | Some (vis, fills) =>
      let idx := y * ImageData.width img + x in
      if negb (match js_get vis idx with Some true => true | _ => false end)
         && DigitSegmentation.isForeground img x y
      then
        match DigitSegmentation.fillLoop img (DigitSegmentation.fillFuel img)
                (DigitSegmentation.fillStart vis x y) with
        | None => None
        | Some s => Some (DigitSegmentation.visited s, fills ++ [s])
        end
      else acc
  end.

Definition allFills (img : ImageData.t) : option (list DigitSegmentation.Fill) :=
  let visited0 :=
    replicate (Z.to_nat (ImageData.width img * ImageData.height img)) false in
  match fold_left
          (fun acc y =>
             fold_left (scanPixelFills img y) (seqZ 0 (ImageData.width img)) acc)
          (seqZ 0 (ImageData.height img)) (Some (visited0, [])) with
  | None => None
  | Some (_, fills) => Some fills
  end.

(** The comparator of [components.sort]. *)
Definition byX (a b : BoundingBox.t) : Z := BoundingBox.x a - BoundingBox.x b.

Definition leftEdge (s : DigitSegmentation.SegmentedDigit) : Z :=
  BoundingBox.x (DigitSegmentation.bbox s).

(** The box of an accepted component: inside the raster, at least 10 by 10. *)
Definition componentBox (img : ImageData.t) (b : BoundingBox.t) : Prop :=
  0 <= BoundingBox.x b /\ 0 <= BoundingBox.y b
  /\ 10 <= BoundingBox.width b /\ 10 <= BoundingBox.height b
  /\ BoundingBox.x b + BoundingBox.width b <= ImageData.width img
  /\ BoundingBox.y b + BoundingBox.height b <= ImageData.height img.

(** The model gave one probability for each of the ten classes (the last
    layer of [createMNISTModel] is [dense({ units: 10 })]). *)
Definition tenClasses (o : Settled (list float) * Z) : Prop :=
  match fst o with
  | Fulfilled probabilities => length probabilities = 10%nat
  | Rejected _ => True
  end.

Section ModelStates.
Context {Weights Tensor : Type}.
Variable forward : Weights -> Tensor -> option (list float).

(** The states of a call of [predictDigit] that found no cached model:
    waiting for [loadMNISTModel], classified with the model that call
    cached, failed in the forward pass of that model, or failed because
    load-or-train did. *)
Inductive lazyOutcome (inputTensor : Tensor)
  : @MnistModel.World Weights * @MnistModel.PredictPc Weights -> Prop :=
| lazy_waiting w inner :
    MnistModel.model w = None ->
    (forall m, inner <> MnistModel.Returned m) ->
    (forall message, inner <> MnistModel.Threw message) ->
    lazyOutcome inputTensor (w, MnistModel.AwaitModel inner)
| lazy_classified w m probabilities :
    MnistModel.model w = Some m ->
    forward (MnistModel.weights m) inputTensor = Some probabilities ->
    lazyOutcome inputTensor
      (w, MnistModel.PredictReturned (MnistModel.tidyPrediction probabilities))
| lazy_forward_failed w m message :
    MnistModel.model w = Some m ->
    forward (MnistModel.weights m) inputTensor = None ->
    lazyOutcome inputTensor (w, MnistModel.PredictThrew message)
| lazy_init_failed w reason :
    MnistModel.model w = None ->
    lazyOutcome inputTensor
      (w, MnistModel.PredictThrew
            ("Failed to initialize MNIST model: "
             +:+ match reason with Some m => m | None => "Unknown error" end)).

(** One call of [loadMNISTModel] in flight, started on a fresh page. *)
Definition alone (s : @MnistModel.Sys Weights) : Prop :=
  MnistModel.loadPathRuns (MnistModel.log (MnistModel.world s)) = 1%nat
  /\ exists pc,
       MnistModel.calls s = [pc]
       /\ match pc with
          | MnistModel.AwaitLoadLayers | MnistModel.AwaitDataLoad _ =>
              MnistModel.model (MnistModel.world s) = None
              /\ MnistModel.trainings (MnistModel.log (MnistModel.world s)) = 0%nat
          | MnistModel.AwaitFit _ | MnistModel.AwaitSave _ =>
              MnistModel.model (MnistModel.world s) = None
              /\ MnistModel.trainings (MnistModel.log (MnistModel.world s)) = 1%nat
          | MnistModel.Returned m =>
              MnistModel.model (MnistModel.world s) = Some m
              /\ (MnistModel.trainings (MnistModel.log (MnistModel.world s)) <= 1)%nat
          | MnistModel.Threw _ =>
              MnistModel.model (MnistModel.world s) = None
              /\ (MnistModel.trainings (MnistModel.log (MnistModel.world s)) <= 1)%nat
          end.
End ModelStates.

(** ** Vocabulary of the further properties *)

(** [visited[idx]] is set. *)
Definition seen (vis : list bool) (idx : Z) : bool :=
  match js_get vis idx with Some true => true | _ => false end.

(** The index [y * width + x] of the pixel [p = (x, y)]. *)
Definition pixelIndex (img : ImageData.t) (p : Z * Z) : Z :=
  snd p * ImageData.width img + fst p.

Definition seenAt (img : ImageData.t) (vis : list bool) (p : Z * Z) : Prop :=
  seen vis (pixelIndex img p) = true.

Definition insideP (img : ImageData.t) (p : Z * Z) : Prop :=
  inside img (fst p) (snd p).

Definition foregroundP (img : ImageData.t) (p : Z * Z) : Prop :=
  DigitSegmentation.isForeground img (fst p) (snd p) = true.

(** Two distinct pixels that touch by a side or by a corner. *)
Definition adjacent (p q : Z * Z) : Prop :=
  p <> q /\ Z.abs (fst p - fst q) <= 1 /\ Z.abs (snd p - snd q) <= 1.

(** The pixel of index [i] is foreground: its red sample is below 128. *)
Definition fgAt (img : ImageData.t) (i : nat) : bool :=
  match ImageData.data img !! (i * 4)%nat with
  | Some value => value <? 128
  | None => false
  end.

(** The foreground pixels not marked in [vis], whose first entry is the
    pixel of index [i]. *)
Fixpoint pendingFrom (img : ImageData.t) (i : nat) (vis : list bool) : nat :=
  match vis with
  | [] => 0
  | b :: vis' =>
      ((if negb b && fgAt img i then 1 else 0) + pendingFrom img (S i) vis')%nat
  end.

(** The number of foreground pixels of a raster. *)
Definition foregroundCount (img : ImageData.t) : nat :=
  length (List.filter (fgAt img)
            (seq 0 (Z.to_nat (ImageData.width img * ImageData.height img)))).

(** How many entries are [true] in [after] and were not in [before]. *)
Definition marks (before after : list bool) : nat :=
  length (List.filter (fun ab : bool * bool => negb (fst ab) && snd ab)
            (zip before after)).

(** The pixels counted by a list of fills. *)
Definition inkOf (fills : list DigitSegmentation.Fill) : Z :=
  foldr (fun s n => DigitSegmentation.pixelCount s + n) 0 fills.

(** Every foreground pixel whose index is below [k] is marked. *)
Definition scanned (img : ImageData.t) (vis : list bool) (k : Z) : Prop :=
  forall i, Z.of_nat i < k -> fgAt img i = true -> vis !! i = Some true.

(** The band [i] of [segmentDigitsSimple]: its box is the column of width
    [digitWidth] at [i * digitWidth], over the whole height, and its patch is
    a square with that column in the middle. *)
Definition columnBand (img : ImageData.t) (digitWidth i : Z)
    (s : DigitSegmentation.SegmentedDigit) : Prop :=
  let size := Z.max digitWidth (ImageData.height img) in
  let p := DigitSegmentation.imageData s in
  DigitSegmentation.bbox s
  = {| BoundingBox.x := i * digitWidth; BoundingBox.y := 0;
       BoundingBox.width := digitWidth;
       BoundingBox.height := ImageData.height img |}
  /\ DigitSegmentation.pwidth p = size /\ DigitSegmentation.pheight p = size
  /\ DigitSegmentation.sx p = i * digitWidth /\ DigitSegmentation.sy p = 0
  /\ DigitSegmentation.sw p = digitWidth
  /\ DigitSegmentation.sh p = ImageData.height img
  /\ (DigitSegmentation.offsetX p * 2 + inject_Z digitWidth == inject_Z size)%Q
  /\ (DigitSegmentation.offsetY p * 2 + inject_Z (ImageData.height img)
      == inject_Z size)%Q.

(** No entry of the array is NaN; some entry is. *)
Definition nanFree (ps : list float) : Prop :=
  Forall (fun p => is_nan p = false) ps.

Definition hasNaN (ps : list float) : Prop :=
  Exists (fun p => is_nan p = true) ps.

(** The RGBA samples of the pixel [k] of a sample array. *)
Definition pixelAt (data : list Z) (k : nat) : option (Z * Z * Z * Z) :=
  match data !! (4 * k)%nat, data !! (4 * k + 1)%nat,
        data !! (4 * k + 2)%nat, data !! (4 * k + 3)%nat with
  | Some r, Some g, Some b, Some a => Some (r, g, b, a)
  | _, _, _, _ => None
  end.

(** What the filter loop stores for a pixel. *)
Definition filtered (o : Utils.Options) (p : Z * Z * Z * Z) : Z * Z * Z * Z :=
  let '(r, g, b, a) := p in
  let '(r', g', b') := Utils.filterPixel o r g b in
  (ToUint8Clamp r', ToUint8Clamp g', ToUint8Clamp b', a).

(** The file passes [validateImageFile]. *)
Definition validated (f : Utils.File) : Prop :=
  Utils.valid (Utils.validateImageFile f) = true.

(** How many times a run of [recognize] has called back. *)
Definition reports (s : Recognizer.State) : nat :=
  (length (Recognizer.completions (Recognizer.outputs s))
   + length (Recognizer.errors (Recognizer.outputs s)))%nat.

(** The result has a digit, and its text is the one of its digits. *)
Definition wellFormed (r : Recognizer.HandwritingResult) : Prop :=
  Recognizer.digits r <> []
  /\ Recognizer.combinedText r = Recognizer.combine (Recognizer.digits r).

(** The models that [disposeModel] disposed of, latest first. *)
Definition disposed (l : list MnistModel.Effect) : list nat :=
  omap (fun e => match e with MnistModel.Dispose n => Some n | _ => None end) l.

(** The model that a suspended call has created and not yet returned. *)
Definition pendingUid {Weights : Type} (pc : @MnistModel.LoadPc Weights)
  : option nat :=
  match pc with
  | MnistModel.AwaitDataLoad n | MnistModel.AwaitFit n => Some n
  | MnistModel.AwaitSave m => Some (MnistModel.uid m)
  | _ => None
  end.

(** The Tesseract run holds a worker: [createWorker] has fulfilled and
    [worker.terminate()] was not called. *)
Definition holdsWorker (pc : Route.Pc) : Prop :=
  match pc with
  | Route.AwaitSetParameters _ _ | Route.AwaitRecognize _ _ => True
  | _ => False
  end.

Definition isFinished (pc : Route.Pc) : bool :=
  match pc with Route.Finished => true | _ => false end.

(** The Tesseract runs in flight. *)
Definition inFlight (runs : list Route.Pc) : list Route.Pc :=
  List.filter (fun pc => negb (isFinished pc)) runs.

(** An event of the page that is not a callback of
    [HandwrittenDigitRecognizer]. *)
Definition ownEvent {RecognizeResult : Type}
    (e : @Route.Event RecognizeResult) : Prop :=
  match e with
  | Route.TFComplete _ | Route.TFError _ => False
  | _ => True
  end.

(** The file handed to [FileReader] or to [preprocessImage]. *)
Definition fileOf (e : Route.Effect) : option Utils.File :=
  match e with
  | Route.ReadAsDataURL f | Route.PreprocessImage _ f _ => Some f
  | _ => None
  end.

(** A pixel that the fill from [vis] to [vis'] has marked. *)
Definition newly (img : ImageData.t) (vis vis' : list bool) (p : Z * Z) : Prop :=
  insideP img p /\ seenAt img vis' p /\ ~ seenAt img vis p.

(** A foreground pixel of the raster that is not marked in [vis]. *)
Definition fresh (img : ImageData.t) (vis : list bool) (p : Z * Z) : Prop :=
  insideP img p /\ foregroundP img p /\ ~ seenAt img vis p.

(** [q] is in the 8-connected component of [p0] among the fresh pixels. *)
Inductive connected (img : ImageData.t) (vis : list bool) (p0 : Z * Z)
  : Z * Z -> Prop :=
| connected_seed : fresh img vis p0 -> connected img vis p0 p0
| connected_step p q :
    connected img vis p0 p -> adjacent p q -> fresh img vis q ->
    connected img vis p0 q.

(** The pixel [q] lies in the box of the segment. *)
Definition covers (seg : DigitSegmentation.SegmentedDigit) (q : Z * Z) : Prop :=
  let b := DigitSegmentation.bbox seg in
  BoundingBox.x b <= fst q < BoundingBox.x b + BoundingBox.width b
  /\ BoundingBox.y b <= snd q < BoundingBox.y b + BoundingBox.height b.

(** [q] is in the 8-connected component of [p0] among the foreground pixels
    of the raster: no pixel is marked in the empty array. *)
Definition component (img : ImageData.t) (p0 q : Z * Z) : Prop :=
  connected img [] p0 q.

(** The marks are closed: a foreground pixel of the raster that touches a
    marked pixel of the raster is marked. *)
Definition closed (img : ImageData.t) (vis : list bool) : Prop :=
  forall p q,
    insideP img p -> seenAt img vis p -> adjacent p q ->
    insideP img q -> foregroundP img q -> seenAt img vis q.

(** The box of the segment covers a whole 8-connected component of the
    foreground of the raster, which has at least 50 pixels. *)
Definition coversComponent (img : ImageData.t)
    (seg : DigitSegmentation.SegmentedDigit) : Prop :=
  exists p0,
    insideP img p0 /\ foregroundP img p0
    /\ (forall q, component img p0 q -> covers seg q)
    /\ exists l, List.NoDup l /\ (50 <= length l)%nat
                 /\ Forall (component img p0) l.

(** The fill [s] is the one of a whole component of the raster: its bounds
    hold the component, and it has counted distinct pixels of it. *)
Definition wholeFill (img : ImageData.t) (s : DigitSegmentation.Fill) : Prop :=
  exists p0,
    insideP img p0 /\ foregroundP img p0
    /\ (forall q, component img p0 q ->
                  insideP img q
                  /\ DigitSegmentation.minX s <= fst q <= DigitSegmentation.maxX s
                  /\ DigitSegmentation.minY s <= snd q <= DigitSegmentation.maxY s)
    /\ exists l, List.NoDup l
                 /\ Z.of_nat (length l) = DigitSegmentation.pixelCount s
                 /\ Forall (component img p0) l.

(** ** Invariants *)

(** What a fill keeps true, from the array [vis0] and the seed [p0]: the
    array keeps its length and its marks; a pixel marked by the fill is
    foreground and lies in the bounds collected so far; a neighbour of such a
    pixel is on the stack, or outside, or marked, or background; so is the
    seed; and [pixelCount] counts the marks. *)
Record fillInv (img : ImageData.t) (vis0 : list bool) (p0 : Z * Z)
    (s : DigitSegmentation.Fill) : Prop := {
  inv_length0 :
    length vis0 = Z.to_nat (ImageData.width img * ImageData.height img);
  inv_length :
    length (DigitSegmentation.visited s)
    = Z.to_nat (ImageData.width img * ImageData.height img);
  inv_mono :
    forall i, seen vis0 i = true -> seen (DigitSegmentation.visited s) i = true;
  inv_marked :
    forall p,
      insideP img p -> seenAt img (DigitSegmentation.visited s) p ->
      ~ seenAt img vis0 p ->
      foregroundP img p
      /\ DigitSegmentation.minX s <= fst p <= DigitSegmentation.maxX s
      /\ DigitSegmentation.minY s <= snd p <= DigitSegmentation.maxY s;
  inv_frontier :
    forall p q,
      insideP img p -> seenAt img (DigitSegmentation.visited s) p ->
      ~ seenAt img vis0 p -> adjacent p q ->
      In q (DigitSegmentation.stack s) \/ ~ insideP img q
      \/ seenAt img (DigitSegmentation.visited s) q \/ ~ foregroundP img q;
  inv_seed :
    (In p0 (DigitSegmentation.stack s)
     \/ seenAt img (DigitSegmentation.visited s) p0
     \/ ~ insideP img p0 \/ ~ foregroundP img p0)
    /\ DigitSegmentation.minX s <= fst p0 <= DigitSegmentation.maxX s
    /\ DigitSegmentation.minY s <= snd p0 <= DigitSegmentation.maxY s;
  inv_count :
    DigitSegmentation.pixelCount s
    + Z.of_nat (pendingFrom img 0 (DigitSegmentation.visited s))
    = Z.of_nat (pendingFrom img 0 vis0);
  inv_marks :
    DigitSegmentation.pixelCount s
    = Z.of_nat (marks vis0 (DigitSegmentation.visited s))
}.

(** What a fill keeps true besides [fillInv]: what it has marked is
    connected to the seed, what it has stacked is the seed or touches a pixel
    it has marked, and every bound is the seed's coordinate or the one of a
    pixel it has marked. *)
Record componentInv (img : ImageData.t) (vis0 : list bool) (p0 : Z * Z)
    (s : DigitSegmentation.Fill) : Prop := {
  inv_connected :
    forall p, newly img vis0 (DigitSegmentation.visited s) p ->
              connected img vis0 p0 p;
  inv_stacked :
    forall q, In q (DigitSegmentation.stack s) ->
              q = p0
              \/ exists p, newly img vis0 (DigitSegmentation.visited s) p
                           /\ adjacent p q;
  inv_minX :
    DigitSegmentation.minX s = fst p0
    \/ exists p, newly img vis0 (DigitSegmentation.visited s) p
                 /\ fst p = DigitSegmentation.minX s;
  inv_maxX :
    DigitSegmentation.maxX s = fst p0
    \/ exists p, newly img vis0 (DigitSegmentation.visited s) p
                 /\ fst p = DigitSegmentation.maxX s;
  inv_minY :
    DigitSegmentation.minY s = snd p0
    \/ exists p, newly img vis0 (DigitSegmentation.visited s) p
                 /\ snd p = DigitSegmentation.minY s;
  inv_maxY :
    DigitSegmentation.maxY s = snd p0
    \/ exists p, newly img vis0 (DigitSegmentation.visited s) p
                 /\ snd p = DigitSegmentation.maxY s
}.

(** The pixels that a fill has counted: distinct, and marked by it. *)
Definition countedInv (img : ImageData.t) (vis0 : list bool)
    (s : DigitSegmentation.Fill) : Prop :=
  exists l, List.NoDup l
            /\ Z.of_nat (length l) = DigitSegmentation.pixelCount s
            /\ Forall (newly img vis0 (DigitSegmentation.visited s)) l.

(** What the scan keeps true when it reaches the pixel of index [k]: the
    foreground before it is marked, and every foreground pixel is counted by
    a fill or still unmarked. *)
Definition scanInv (img : ImageData.t) (k : Z)
    (acc : option (list bool * list DigitSegmentation.Fill)) : Prop :=
  exists vis fills,
    acc = Some (vis, fills)
    /\ length vis = Z.to_nat (ImageData.width img * ImageData.height img)
    /\ scanned img vis k
    /\ inkOf fills + Z.of_nat (pendingFrom img 0 vis)
       = Z.of_nat (foregroundCount img).

(** What every state of a run of [recognize] satisfies: it has called back
    at most once, only a finished run has, and a run that finished without a
    call was cancelled. *)
Definition runInv (s : Recognizer.State) : Prop :=
  match Recognizer.pc s with
  | Recognizer.Done =>
      (reports s <= 1)%nat
      /\ (reports s = 0%nat -> Recognizer.cancelled s = true)
  | _ => reports s = 0%nat
  end
  /\ Forall wellFormed (Recognizer.completions (Recognizer.outputs s)).

(** What every state of the model service satisfies, whatever the
    interleaving of the calls: the models disposed of are old and distinct;
    the cached model is not one of them; a model that a call is still
    building is neither disposed of nor cached, and belongs to that call
    only. *)
Record sysInv {Weights : Type} (s : @MnistModel.Sys Weights) : Prop := {
  inv_disposed_old :
    Forall (fun n => (n < MnistModel.nextUid (MnistModel.world s))%nat)
      (disposed (MnistModel.log (MnistModel.world s)));
  inv_disposed_once :
    List.NoDup (disposed (MnistModel.log (MnistModel.world s)));
  inv_model :
    forall m, MnistModel.model (MnistModel.world s) = Some m ->
              (MnistModel.uid m < MnistModel.nextUid (MnistModel.world s))%nat
              /\ ~ In (MnistModel.uid m)
                     (disposed (MnistModel.log (MnistModel.world s)));
  inv_pending :
    forall i pc n,
      MnistModel.calls s !! i = Some pc -> pendingUid pc = Some n ->
      (n < MnistModel.nextUid (MnistModel.world s))%nat
      /\ ~ In n (disposed (MnistModel.log (MnistModel.world s)))
      /\ (forall m, MnistModel.model (MnistModel.world s) = Some m ->
                    MnistModel.uid m <> n);
  inv_distinct :
    forall i j pc pc' n,
      MnistModel.calls s !! i = Some pc -> MnistModel.calls s !! j = Some pc' ->
      pendingUid pc = Some n -> pendingUid pc' = Some n -> i = j
}.

(** A call of [loadMNISTModel] that found no model: the model is cached
    exactly when the call has returned it, and a failure comes after
    [data.load()] was called and carries the message of the [catch]. *)
Definition loadInv {Weights : Type}
    (st : @MnistModel.World Weights * @MnistModel.LoadPc Weights) : Prop :=
  match snd st with
  | MnistModel.Returned m => MnistModel.model (fst st) = Some m
  | MnistModel.Threw message =>
      MnistModel.model (fst st) = None
      /\ In MnistModel.DataLoad (MnistModel.log (fst st))
      /\ exists reason,
           MnistModel.Threw message = @MnistModel.initFailure Weights reason
  | MnistModel.AwaitLoadLayers => MnistModel.model (fst st) = None
  | _ =>
      MnistModel.model (fst st) = None
      /\ In MnistModel.DataLoad (MnistModel.log (fst st))
  end.

Section PageStates.
Context {RecognizeResult : Type}.
Implicit Types p : @Route.Page RecognizeResult.

(** The selected file and the files read or preprocessed are validated. *)
Definition filesInv p : Prop :=
  (forall f, Route.selectedFile (Route.state p) = Some f -> validated f)
  /\ (forall e f, In e (Route.effects p) -> fileOf e = Some f -> validated f).

(** The runs that asked for a worker have called [createWorker]; only a run
    whose recognition succeeded has called [worker.terminate()]. *)
Definition workerInv p : Prop :=
  (forall i pc, Route.runs p !! i = Some pc ->
                match pc with
                | Route.AwaitPreprocess _ | Route.Finished => True
                | _ => In (Route.CreateWorker i) (Route.effects p)
                end)
  /\ (forall i, In (Route.Terminate i) (Route.effects p) ->
                Route.runs p !! i = Some Route.AwaitTerminate
                \/ Route.runs p !! i = Some Route.Finished).

(** The run [i] has ended without calling [worker.terminate()] on the
    worker it had asked for. *)
Definition leaked (i : nat) p : Prop :=
  Route.runs p !! i = Some Route.Finished
  /\ In (Route.CreateWorker i) (Route.effects p)
  /\ ~ In (Route.Terminate i) (Route.effects p).

(** At most one run is in flight, and the button is hidden meanwhile. *)
Definition flightInv p : Prop :=
  (length (inFlight (Route.runs p)) <= 1)%nat
  /\ (inFlight (Route.runs p) <> [] ->
      Route.isProcessing (Route.state p) = true).
End PageStates.

(** ** Concrete inputs *)

Definition inRect (x0 y0 w h x y : Z) : bool :=
  (x0 <=? x) && (x <? x0 + w) && (y0 <=? y) && (y <? y0 + h).

(** A binarized raster of [w] by [h] opaque pixels: black where [ink], white
    elsewhere. *)
Definition raster (w h : Z) (ink : Z -> Z -> bool) : ImageData.t :=
  {| ImageData.width := w; ImageData.height := h;
     ImageData.data :=
       flat_map
         (fun y =>
            flat_map
              (fun x => let v := if ink x y then 0 else 255 in [v; v; v; 255])
              (seqZ 0 w))
         (seqZ 0 h) |}.

(** A 3 x 3 speck on a white raster of 20 x 20. *)
Definition speck : ImageData.t := raster 20 20 (inRect 5 5 3 3).

(** Two blobs of 10 x 10, one above the other, on a raster of 10 x 21. *)
Definition stackedBlobs : ImageData.t :=
  raster 10 21 (fun x y => inRect 0 0 10 10 x y || inRect 0 11 10 10 x y).

Definition stackedSegments : list DigitSegmentation.SegmentedDigit :=
  Eval vm_compute in default [] (DigitSegmentation.segmentDigits stackedBlobs).

(** A blob of 10 x 10 in the top left corner of a raster of 30 x 30. *)
Definition cornerBlob : ImageData.t := raster 30 30 (inRect 0 0 10 10).

(** A blob of 10 x 10 in the middle of a raster of 40 x 40. *)
Definition centredBlob : ImageData.t := raster 40 40 (inRect 10 10 10 10).

(** A white raster of 4 x 4. *)
Definition blank : ImageData.t := raster 4 4 (fun _ _ => false).

(** A stand-in for the runtime: the parameters of a model are the digit
    that it is sure to see in every input. *)
Definition toyForward (ws : Z) (t : unit) : option (list float) :=
  Some (map (fun k => if k =? ws then 1%float else 0%float) (seqZ 0 10)).

Definition absentWorld : @MnistModel.World Z := MnistModel.world MnistModel.absent.

(** The stored model was loaded, then [disposeModel] was called. *)
Definition disposedWorld : @MnistModel.World Z :=
  MnistModel.disposeModel (fst (MnistModel.loadRun absentWorld [Fulfilled 1])).

(** Two overlapping calls of [loadMNISTModel] on a fresh page with an empty
    model store: both find no stored model, both train (the trainings end
    with parameters 1 and 2) and both save. *)
Definition overlappingCalls : list (@MnistModel.Event Z) :=
  [MnistModel.Call; MnistModel.Call;
   MnistModel.Settle 0 (Rejected None); MnistModel.Settle 1 (Rejected None);
   MnistModel.Settle 0 (Fulfilled 0); MnistModel.Settle 1 (Fulfilled 0);
   MnistModel.Settle 0 (Fulfilled 1); MnistModel.Settle 1 (Fulfilled 2);
   MnistModel.Settle 0 (Fulfilled 0); MnistModel.Settle 1 (Fulfilled 0)].

(** A model output that is sure of the digit 1. *)
Definition sureOfOne : list float := [0; 1; 0; 0; 0; 0; 0; 0; 0; 0]%float.

(** The effect is cleaned up while the image is being preprocessed. *)
Definition cancelWhilePreprocessing : list Recognizer.Event :=
  [Recognizer.Settle (Fulfilled Recognizer.Model) 10;
   Recognizer.Cleanup;
   Recognizer.Settle (Fulfilled (Recognizer.Url "data:image/png")) 20;
   Recognizer.Settle (Fulfilled (Recognizer.Image stackedBlobs)) 30;
   Recognizer.Settle (Fulfilled (Recognizer.Prediction sureOfOne)) 40;
   Recognizer.Settle (Fulfilled (Recognizer.Prediction sureOfOne)) 50].

(** The effect is cleaned up between the two digits. *)
Definition cancelMidClassification : list Recognizer.Event :=
  [Recognizer.Settle (Fulfilled Recognizer.Model) 10;
   Recognizer.Settle (Fulfilled (Recognizer.Url "data:image/png")) 20;
   Recognizer.Settle (Fulfilled (Recognizer.Image stackedBlobs)) 30;
   Recognizer.Settle (Fulfilled (Recognizer.Prediction sureOfOne)) 40;
   Recognizer.Cleanup;
   Recognizer.Settle (Fulfilled (Recognizer.Prediction sureOfOne)) 50].

(** The effect is cleaned up while the image is being preprocessed, and the
    image turns out blank. *)
Definition cancelThenBlank : list Recognizer.Event :=
  [Recognizer.Settle (Fulfilled Recognizer.Model) 10;
   Recognizer.Cleanup;
   Recognizer.Settle (Fulfilled (Recognizer.Url "data:image/png")) 20;
   Recognizer.Settle (Fulfilled (Recognizer.Image blank)) 30].

(** A PNG file of 200 KiB. *)
Definition pngFile : Utils.File :=
  {| Utils.type := "image/png"; Utils.size := 204800 |}.

(** A Tesseract run is started on [pngFile], and its worker is created. *)
Definition workerReady : list (@Route.Event unit) :=
  [Route.FileSelect pngFile; Route.SetEngine Route.tesseract;
   Route.ClickProcess 0;
   Route.Settle 0 (Fulfilled (Route.PreprocessedUrl "data:image/png")) 10;
   Route.Settle 0 (Fulfilled Route.Worker) 20].

(** ** Tactics *)

(** Splits a membership in an explicit list into its cases. *)
Ltac in_cases H :=
  simpl in H;
  repeat match type of H with _ \/ _ => destruct H as [H | H] end;
  try discriminate H; try contradiction.

(** * Proofs *)

(** ** Doubles *)

Lemma SFcompare_antisym x y c :
  SFcompare x y = Some c -> SFcompare y x = Some (CompOpp c).
Proof.
  destruct x as [sx|sx| |sx mx ex], y as [sy|sy| |sy my ey]; simpl;
    try discriminate;
    try (destruct sx; intros [= <-]; reflexivity);
    try (destruct sy; intros [= <-]; reflexivity);
    try (destruct sx, sy; intros [= <-]; reflexivity).
  intros [= <-]. f_equal.
  destruct sx, sy; try reflexivity;
    rewrite (Z.compare_antisym ex ey);
    destruct (ex ?= ey) eqn:E; simpl; try reflexivity;
    change (PosDef.Pos.compare_cont Eq my mx) with (my ?= mx)%positive;
    change (PosDef.Pos.compare_cont Eq mx my) with (mx ?= my)%positive;
    rewrite (Pos.compare_antisym mx my); reflexivity.
Qed.

Lemma SFcompare_refl x : x <> S754_nan -> SFcompare x x = Some Eq.
Proof.
  destruct x as [s|s| |s m e]; simpl; intros H; try congruence.
  - destruct s; reflexivity.
  - rewrite Z.compare_refl, Pos.compare_cont_refl. destruct s; reflexivity.
Qed.

Lemma is_nan_spec v :
  is_nan v = match Prim2SF v with S754_nan => true | _ => false end.
Proof.
  unfold is_nan. rewrite FloatAxioms.eqb_spec. unfold SFeqb.
  destruct (Prim2SF v) eqn:E; try reflexivity;
    rewrite SFcompare_refl by discriminate; reflexivity.
Qed.

(** [Math.max(0, Math.min(255, v))] is the clamp of the specification. *)
Lemma clamp_refines v :
  sameNumber (Math_max 0 (Math_min 255 v)) (Spec.clamp v 0 255).
Proof.
  unfold Math_max, Math_min, Spec.clamp.
  rewrite (is_nan_spec v).
  change (is_nan 255) with false. change (is_nan 0) with false. simpl orb.
  rewrite !(FloatAxioms.ltb_spec v), !(FloatAxioms.ltb_spec _ v).
  change (Prim2SF 255) with (S754_finite false 8972014882652160 (-45)).
  change (Prim2SF 0) with (S754_zero false).
  destruct (Prim2SF v) as [s|s| |s m e] eqn:E.
  - (* a zero *)
    cbn. rewrite is_nan_spec, E. cbn. rewrite FloatAxioms.ltb_spec, E. cbn.
    rewrite FloatAxioms.ltb_spec, E. cbn. left.
    rewrite FloatAxioms.eqb_spec, E. reflexivity.
  - (* an infinity *)
    destruct s; cbn.
    + rewrite is_nan_spec, E. cbn. rewrite !FloatAxioms.ltb_spec, E. cbn.
      left. reflexivity.
    + left. reflexivity.
  - (* NaN *)
    cbn. right. split; [reflexivity|]. rewrite is_nan_spec, E. reflexivity.
  - destruct s.
    + (* negative *)
      cbn. rewrite is_nan_spec, E. cbn. rewrite !FloatAxioms.ltb_spec, E. cbn.
      left; reflexivity.
    + (* positive *)
      unfold SFltb.
      destruct (SFcompare (S754_finite false 8972014882652160 (-45))
                  (S754_finite false m e)) as [c|] eqn:C; [|discriminate C].
      rewrite (SFcompare_antisym _ _ _ C).
      destruct c; simpl.
      * change (is_nan 255) with false. cbn. change (0 <? 255)%float with true.
        cbn. left. rewrite FloatAxioms.eqb_spec, E. unfold SFeqb.
        change (Prim2SF 255) with (S754_finite false 8972014882652160 (-45)).
        rewrite C. reflexivity.
      * left; reflexivity.
      * rewrite is_nan_spec, E. rewrite !FloatAxioms.ltb_spec, E. cbn. left.
        rewrite FloatAxioms.eqb_spec, E. unfold SFeqb.
        rewrite SFcompare_refl by discriminate. reflexivity.
Qed.

Lemma roundHalfEven_nonneg m e : 0 <= roundHalfEven m e.
Proof.
  unfold roundHalfEven. destruct (0 <=? e) eqn:He.
  - apply Z.leb_le in He. apply Z.mul_nonneg_nonneg; [lia|].
    apply Z.pow_nonneg. lia.
  - apply Z.leb_gt in He.
    assert (Hd : 0 < 2 ^ (- e)) by (apply Z.pow_pos_nonneg; lia).
    assert (Hq : 0 <= Z.pos m / 2 ^ (- e)) by (apply Z.div_pos; lia).
    destruct (2 * (Z.pos m mod 2 ^ (- e)) ?= 2 ^ (- e)); try lia.
    destruct (Z.even _); lia.
Qed.

Lemma ToUint8Clamp_byte v : isByte (ToUint8Clamp v).
Proof.
  unfold isByte, ToUint8Clamp.
  destruct (Prim2SF v) as [s|s| |s m e]; try destruct s; try lia.
  pose proof (roundHalfEven_nonneg m e). lia.
Qed.

(** The same number is stored as the same byte. *)
Lemma sameNumber_stored a b : sameNumber a b -> ToUint8Clamp a = ToUint8Clamp b.
Proof.
  unfold ToUint8Clamp. intros [H|[Ha Hb]].
  - rewrite FloatAxioms.eqb_spec in H. unfold SFeqb in H.
    destruct (Prim2SF a) as [sa|sa| |sa ma ea], (Prim2SF b) as [sb|sb| |sb mb eb];
      simpl in H; try discriminate; try reflexivity;
      try (destruct sa; discriminate); try (destruct sb; discriminate).
    + destruct sa, sb; try discriminate; reflexivity.
    + destruct sa, sb; try discriminate; try reflexivity.
      destruct (ea ?= eb) eqn:E; try discriminate.
      apply Z.compare_eq in E. subst eb.
      destruct (PosDef.Pos.compare_cont Eq ma mb) eqn:E'; try discriminate.
      apply Pos.compare_eq in E'. subst. reflexivity.
  - rewrite is_nan_spec in Ha, Hb.
    destruct (Prim2SF a), (Prim2SF b); try discriminate. reflexivity.
Qed.

(** ** The pixel filter loop *)

Lemma adjust_spec o r0 g0 b0 r1 g1 b1 r g b :
  Spec.grayscaled o r0 g0 b0 = (r1, g1, b1) ->
  Utils.adjust o r0 g0 b0 = (r, g, b) ->
  sameNumber r (Spec.contrastBrightness o r1)
  /\ sameNumber g (Spec.contrastBrightness o g1)
  /\ sameNumber b (Spec.contrastBrightness o b1).
Proof.
  unfold Spec.grayscaled, Utils.adjust, Spec.contrastBrightness, Spec.luma.
  destruct (Utils.grayscale o); intros [= <- <- <-] [= <- <- <-];
    repeat split; apply clamp_refines.
Qed.

Lemma applyFilters_bytes o data :
  Forall isByte data -> Forall isByte (Utils.applyFilters o data).
Proof.
  remember (length data) as n eqn:Hn. revert data Hn.
  induction n as [n IH] using lt_wf_ind. intros data Hn Hd.
  destruct data as [|r [|g [|b [|a rest]]]]; try exact Hd.
  simpl. destruct (Utils.filterPixel o r g b) as [[r' g'] b'].
  repeat (apply Forall_cons; split); try apply ToUint8Clamp_byte.
  - do 3 (apply Forall_cons in Hd; destruct Hd as [_ Hd]).
    apply Forall_cons in Hd. tauto.
  - apply (IH (length rest)); [simpl in Hn; lia | reflexivity |].
    do 4 (apply Forall_cons in Hd; destruct Hd as [_ Hd]). exact Hd.
Qed.

(** C8: for every pixel and every options record, the loop computes for R, G
    and B (after the grayscale replacement when enabled) the number
    clamp(((v-128)*contrast + 128) * brightness, 0, 255); without a threshold
    that number is what it stores for the channel; alpha is left as it is;
    and every sample stored lies in 0..255 (so does every sample of the
    output, alpha being a byte of the input). *)
Theorem applyFilters_contrast_brightness o r0 g0 b0 a rest r1 g1 b1 r g b :
  Spec.grayscaled o r0 g0 b0 = (r1, g1, b1) ->
  Utils.adjust o r0 g0 b0 = (r, g, b) ->
  (sameNumber r (Spec.contrastBrightness o r1)
   /\ sameNumber g (Spec.contrastBrightness o g1)
   /\ sameNumber b (Spec.contrastBrightness o b1))
  /\ (exists r' g' b',
        Utils.applyFilters o (r0 :: g0 :: b0 :: a :: rest)
        = r' :: g' :: b' :: a :: Utils.applyFilters o rest
        /\ isByte r' /\ isByte g' /\ isByte b'
        /\ (Utils.threshold o = None ->
            r' = ToUint8Clamp (Spec.contrastBrightness o r1)
            /\ g' = ToUint8Clamp (Spec.contrastBrightness o g1)
            /\ b' = ToUint8Clamp (Spec.contrastBrightness o b1)))
  /\ (forall data, Forall isByte data -> Forall isByte (Utils.applyFilters o data)).
Proof.
  intros Hgray Hadj.
  destruct (adjust_spec o r0 g0 b0 _ _ _ _ _ _ Hgray Hadj) as (Hr & Hg & Hb).
  split; [auto|]. split; [|apply applyFilters_bytes].
  simpl Utils.applyFilters. unfold Utils.filterPixel. rewrite Hadj.
  destruct (Utils.threshold o) as [t|].
  - eexists _, _, _. split; [reflexivity|].
    repeat split; try apply ToUint8Clamp_byte; discriminate.
  - eexists _, _, _. split; [reflexivity|].
    repeat split; try apply ToUint8Clamp_byte; apply sameNumber_stored; assumption.
Qed.

Lemma applyFilters_contrast_brightness_witness :
  Utils.threshold Utils.defaultOptions = None
  /\ Utils.applyFilters Utils.defaultOptions [10; 20; 30; 7]
     = [ToUint8Clamp (Spec.contrastBrightness Utils.defaultOptions
                        (Spec.luma 10 20 30));
        ToUint8Clamp (Spec.contrastBrightness Utils.defaultOptions
                        (Spec.luma 10 20 30));
        ToUint8Clamp (Spec.contrastBrightness Utils.defaultOptions
                        (Spec.luma 10 20 30));
        7].
Proof.
  split; [reflexivity|].
  destruct (applyFilters_contrast_brightness Utils.defaultOptions 10 20 30 7 []
              _ _ _ _ _ _ eq_refl eq_refl)
    as (_ & (r' & g' & b' & Heq & _ & _ & _ & Hstored) & _).
  destruct (Hstored eq_refl) as (-> & -> & ->). exact Heq.
Defined.

Lemma filterPixel_threshold o t r0 g0 b0 r g b :
  Utils.threshold o = Some t ->
  Utils.adjust o r0 g0 b0 = (r, g, b) ->
  let '(r', g', b') := Utils.filterPixel o r0 g0 b0 in
  (ToUint8Clamp r', ToUint8Clamp g', ToUint8Clamp b') = Spec.binarize t r g b.
Proof.
  intros Ht Ha. unfold Utils.filterPixel, Spec.binarize. rewrite Ha, Ht.
  destruct (t <? (r + g + b) / 3)%float; reflexivity.
Qed.

Lemma binarize_blackOrWhite t r g b a :
  let '(r', g', b') := Spec.binarize t r g b in blackOrWhite r' g' b' a.
Proof.
  unfold Spec.binarize, blackOrWhite.
  destruct (t <? (r + g + b) / 3)%float; [right|left]; reflexivity.
Qed.

Lemma applyFilters_blackOrWhite o t data :
  Utils.threshold o = Some t ->
  (length data mod 4 = 0)%nat ->
  Pixels blackOrWhite (Utils.applyFilters o data).
Proof.
  intros Ht.
  remember (length data) as n eqn:Hn. revert data Hn.
  induction n as [n IH] using lt_wf_ind. intros data Hn Hm.
  destruct data as [|r [|g [|b [|a rest]]]]; simpl in Hn; subst n;
    try discriminate Hm; [constructor|].
  simpl.
  destruct (Utils.adjust o r g b) as [[r1 g1] b1] eqn:Ha.
  pose proof (filterPixel_threshold o t r g b _ _ _ Ht Ha) as Hp.
  pose proof (binarize_blackOrWhite t r1 g1 b1 a) as Hb.
  destruct (Utils.filterPixel o r g b) as [[r' g'] b'].
  destruct (Spec.binarize t r1 g1 b1) as [[x y] z].
  injection Hp as -> -> ->.
  constructor; [exact Hb|].
  apply (IH (length rest)); [lia | reflexivity |].
  replace (S (S (S (S (length rest))))) with (length rest + 1 * 4)%nat in Hm
    by lia.
  rewrite Nat.Div0.mod_add in Hm. exact Hm.
Qed.

(** C9: with a threshold set, for every pixel the loop compares the average
    of the R, G and B it has computed with the threshold and stores
    (255,255,255) if the average exceeds it and (0,0,0) otherwise, alpha
    left as it is; so every pixel of the output is pure black or pure
    white. *)
Theorem applyFilters_binarizes o t r0 g0 b0 a rest r g b :
  Utils.threshold o = Some t ->
  Utils.adjust o r0 g0 b0 = (r, g, b) ->
  (exists r' g' b',
      Utils.applyFilters o (r0 :: g0 :: b0 :: a :: rest)
      = r' :: g' :: b' :: a :: Utils.applyFilters o rest
      /\ (r', g', b') = Spec.binarize t r g b
      /\ blackOrWhite r' g' b' a)
  /\ (forall data, (length data mod 4 = 0)%nat ->
        Pixels blackOrWhite (Utils.applyFilters o data)).
Proof.
  intros Ht Ha.
  split; [|intros data; apply (applyFilters_blackOrWhite o t); exact Ht].
  pose proof (filterPixel_threshold o t r0 g0 b0 _ _ _ Ht Ha) as Hp.
  pose proof (binarize_blackOrWhite t r g b a) as Hb.
  simpl. destruct (Utils.filterPixel o r0 g0 b0) as [[r' g'] b'].
  rewrite <- Hp in Hb.
  eexists _, _, _. repeat split; [exact Hp | exact Hb].
Qed.

Lemma applyFilters_binarizes_witness :
  Utils.threshold Recognizer.preprocessOptions = Some 140%float
  /\ Pixels blackOrWhite
       (Utils.applyFilters Recognizer.preprocessOptions
          [200; 180; 190; 255; 90; 100; 80; 7]).
Proof.
  split; [reflexivity|].
  refine (proj2 (applyFilters_binarizes Recognizer.preprocessOptions 140%float
                   200 180 190 255 [] _ _ _ eq_refl eq_refl)
            [200; 180; 190; 255; 90; 100; 80; 7] eq_refl).
Defined.

(** ** Flood fill: termination and invariants *)

Lemma unvisited_le vis : (unvisited vis <= length vis)%nat.
Proof. induction vis as [|[] vis IH]; simpl; lia. Qed.

Lemma unvisited_mark vis i :
  vis !! i = Some false -> S (unvisited (<[i := true]> vis)) = unvisited vis.
Proof.
  revert i. induction vis as [|b vis IH]; intros [|i] H; simpl in *;
    try discriminate.
  - injection H as ->. reflexivity.
  - rewrite <- (IH i H). destruct b; lia.
Qed.

Lemma fold_left_inv {A B} (f : A -> B -> A) (P : A -> Prop) (l : list B) :
  (forall a b, In b l -> P a -> P (f a b)) -> forall a, P a -> P (fold_left f l a).
Proof.
  induction l as [|b l IH]; intros Hf a Ha; simpl; [exact Ha|].
  apply IH.
  - intros a' b' Hin. apply Hf. right. exact Hin.
  - apply Hf; [left; reflexivity | exact Ha].
Qed.

Lemma fold_left_rel {A A' B} (f : A -> B -> A) (f' : A' -> B -> A')
    (R : A -> A' -> Prop) (l : list B) :
  (forall a a' b, In b l -> R a a' -> R (f a b) (f' a' b)) ->
  forall a a', R a a' -> R (fold_left f l a) (fold_left f' l a').
Proof.
  induction l as [|b l IH]; intros Hf a a' Ha; simpl; [exact Ha|].
  apply IH.
  - intros ? ? ? Hin. apply Hf. right. exact Hin.
  - apply Hf; [left; reflexivity | exact Ha].
Qed.

Lemma In_seqZ x n : In x (seqZ 0 n) -> 0 <= x < n.
Proof. intros Hin. apply list_elem_of_In, elem_of_seqZ in Hin. lia. Qed.

Section FillProofs.
Import DigitSegmentation.
Variable img : ImageData.t.
Let W := ImageData.width img.
Let H := ImageData.height img.
Let N := Z.to_nat (W * H).

Lemma inside_index x y : inside img x y -> 0 <= y * W + x < W * H.
Proof. unfold inside. fold W H. nia. Qed.

Lemma outside_dec x y :
  (x <? 0) || (W <=? x) || (y <? 0) || (H <=? y) = false <-> inside img x y.
Proof.
  unfold inside. fold W H.
  rewrite !orb_false_iff, !Z.ltb_ge, !Z.leb_gt. lia.
Qed.

(** An iteration either only pops, or visits a foreground pixel of the
    raster that was not visited yet. *)
Lemma fillIter_cases x y rest s :
  fillIter img x y rest s
  = {| stack := rest; visited := visited s;
       minX := minX s; maxX := maxX s; minY := minY s; maxY := maxY s;
       pixelCount := pixelCount s |}
  \/ (inside img x y /\ isForeground img x y = true
      /\ visited s !! Z.to_nat (y * W + x) = Some false
      /\ visited (fillIter img x y rest s)
         = <[Z.to_nat (y * W + x) := true]> (visited s)
      /\ length (stack (fillIter img x y rest s)) = (8 + length rest)%nat
      /\ minX (fillIter img x y rest s) = Z.min (minX s) x
      /\ maxX (fillIter img x y rest s) = Z.max (maxX s) x
      /\ minY (fillIter img x y rest s) = Z.min (minY s) y
      /\ maxY (fillIter img x y rest s) = Z.max (maxY s) y
      /\ pixelCount (fillIter img x y rest s) = pixelCount s + 1)
     \/ (inside img x y /\ length (visited s) <= Z.to_nat (y * W + x))%nat.
Proof.
  unfold fillIter. fold W H.
  destruct ((x <? 0) || (W <=? x) || (y <? 0) || (H <=? y)) eqn:Hout;
    [left; reflexivity|].
  destruct (match js_get (visited s) (y * W + x) with
            | Some true => true
            | _ => false
            end || negb (isForeground img x y)) eqn:Hskip;
    [left; reflexivity|].
  right. apply outside_dec in Hout.
  pose proof (inside_index x y Hout) as Hidx.
  apply orb_false_iff in Hskip. destruct Hskip as [Hseen Hfg].
  apply negb_false_iff in Hfg. unfold js_get in Hseen.
  destruct (y * W + x <? 0) eqn:E; [apply Z.ltb_lt in E; lia|].
  destruct (visited s !! Z.to_nat (y * W + x)) as [[]|] eqn:E';
    try discriminate.
  - left. simpl. auto 12.
  - right. apply lookup_ge_None in E'. auto.
Qed.

Lemma fillIter_visited_length x y rest s :
  length (visited (fillIter img x y rest s)) = length (visited s).
Proof.
  unfold fillIter.
  destruct (_ || _ || _ || _); [reflexivity|].
  destruct (_ || _); [reflexivity|]. simpl. apply length_insert.
Qed.

(** Every iteration lowers the measure by one. *)
Lemma fillIter_measure x y rest s :
  length (visited s) = N ->
  (S (fillMeasure (fillIter img x y rest s))
   = 8 * unvisited (visited s) + S (length rest))%nat.
Proof.
  intros Hlen. unfold fillMeasure.
  destruct (fillIter_cases x y rest s)
    as [-> | [(_ & _ & Hv & -> & -> & _) | (Hin & Hge)]].
  - simpl. lia.
  - rewrite <- (unvisited_mark _ _ Hv). lia.
  - pose proof (inside_index x y Hin). unfold N in Hlen. lia.
Qed.

Lemma fillLoop_total fuel s :
  length (visited s) = N -> (fillMeasure s <= fuel)%nat ->
  exists s', fillLoop img fuel s = Some s'.
Proof.
  revert s. induction fuel as [|fuel IH]; intros s Hlen Hm.
  - unfold fillMeasure in Hm. destruct s as [st vis ? ? ? ? ?]. simpl in *.
    destruct st; [eauto | simpl in Hm; lia].
  - simpl. destruct (stack s) as [|[x y] rest] eqn:Hs; [eauto|].
    apply IH.
    + rewrite fillIter_visited_length. exact Hlen.
    + pose proof (fillIter_measure x y rest s Hlen).
      unfold fillMeasure in Hm. rewrite Hs in Hm. simpl in Hm. lia.
Qed.

(** What every iteration preserves holds when the loop ends. *)
Lemma fillLoop_invariant (P : Fill -> Prop) :
  (forall x y rest s,
      P s -> stack s = (x, y) :: rest -> P (fillIter img x y rest s)) ->
  forall fuel s s', P s -> fillLoop img fuel s = Some s' -> P s' /\ stack s' = [].
Proof.
  intros Hstep. induction fuel as [|fuel IH]; intros s s' HP Hrun;
    simpl in Hrun.
  - destruct (stack s) as [|[x y] rest] eqn:Hs; [|discriminate].
    injection Hrun as <-. auto.
  - destruct (stack s) as [|[x y] rest] eqn:Hs.
    + injection Hrun as <-. auto.
    + eapply IH; [|exact Hrun]. eapply Hstep; eauto.
Qed.

(** The fuel of [floodFill] is enough: the fill always ends. *)
Lemma floodFill_total vis x y :
  length vis = N ->
  exists s, fillLoop img (fillFuel img) (fillStart vis x y) = Some s
            /\ length (visited s) = N.
Proof.
  intros Hlen.
  destruct (fillLoop_total (fillFuel img) (fillStart vis x y)) as [s Hs].
  - exact Hlen.
  - unfold fillMeasure, fillFuel. simpl. fold W H. fold N.
    pose proof (unvisited_le vis). lia.
  - exists s. split; [exact Hs|].
    eapply (fillLoop_invariant (fun s => length (visited s) = N));
      [| |exact Hs].
    + intros. rewrite fillIter_visited_length. assumption.
    + exact Hlen.
Qed.

Lemma rejected_iff s :
  rejected img s = true <->
  pixelCount s < 50
  \/ Spec.over90 (componentWidth s * componentHeight s) (W * H)
  \/ componentWidth s < 10
  \/ componentHeight s < 10.
Proof.
  unfold rejected, Spec.over90, componentWidth, componentHeight. fold W H.
  rewrite !orb_true_iff, !Z.ltb_lt. tauto.
Qed.

(** The bounds of a fill stay within any block that holds the foreground. *)
Lemma fill_confined x0 y0 w h vis x y fuel s :
  confined img x0 y0 w h ->
  inside img x y -> isForeground img x y = true ->
  fillLoop img fuel (fillStart vis x y) = Some s ->
  x0 <= minX s /\ minX s <= maxX s /\ maxX s < x0 + w
  /\ y0 <= minY s /\ minY s <= maxY s /\ maxY s < y0 + h.
Proof.
  intros Hc Hin Hfg Hrun.
  eapply (fillLoop_invariant
            (fun s => x0 <= minX s /\ minX s <= maxX s /\ maxX s < x0 + w
                      /\ y0 <= minY s /\ minY s <= maxY s /\ maxY s < y0 + h));
    [| |exact Hrun].
  - intros x1 y1 rest s1 Hs _.
    unfold fillIter.
    destruct ((x1 <? 0) || (ImageData.width img <=? x1) || (y1 <? 0)
              || (ImageData.height img <=? y1)) eqn:Hout; [exact Hs|].
    destruct (match js_get (visited s1) (y1 * ImageData.width img + x1) with
              | Some true => true
              | _ => false
              end || negb (isForeground img x1 y1)) eqn:Hskip; [exact Hs|].
    apply outside_dec in Hout.
    apply orb_false_iff in Hskip. destruct Hskip as [_ Hfg1].
    apply negb_false_iff in Hfg1.
    specialize (Hc x1 y1 Hout Hfg1). simpl. lia.
  - specialize (Hc x y Hin Hfg). simpl. lia.
Qed.

Lemma raster_confined : confined img 0 0 W H.
Proof. intros x y Hin _. unfold inside in Hin. fold W H in Hin. lia. Qed.

(** Scanning with an invariant [Q] on the boxes collected, given what each
    fill from a foreground pixel of the raster ensures. *)
Lemma scan_invariant (Q : list BoundingBox.t -> Prop) :
  (forall vis x y s cs,
      inside img x y -> isForeground img x y = true -> length vis = N ->
      fillLoop img (fillFuel img) (fillStart vis x y) = Some s ->
      Q cs -> Q (if rejected img s then cs else cs ++ [boxOf s])) ->
  Q [] ->
  exists cs, findComponents img = Some cs /\ Q cs.
Proof.
  intros Hfill Hnil. unfold findComponents. fold W H.
  set (P := fun acc : option (list bool * list BoundingBox.t) =>
              exists vis cs, acc = Some (vis, cs) /\ length vis = N /\ Q cs).
  assert (HP : P (fold_left (scanRow img) (seqZ 0 H)
                    (Some (replicate (Z.to_nat (W * H)) false, [])))).
  { apply fold_left_inv.
    - intros acc y Hy Hacc. unfold scanRow. fold W.
      apply fold_left_inv; [|exact Hacc].
      clear acc Hacc. intros acc x Hx (vis & cs & -> & Hlen & HQ).
      apply In_seqZ in Hx, Hy.
      unfold scanPixel. fold W.
      destruct (negb _ && isForeground img x y) eqn:Htest.
      + apply andb_true_iff in Htest. destruct Htest as [_ Hfg].
        destruct (floodFill_total vis x y Hlen) as (s & Hs & Hlen').
        unfold floodFill. rewrite Hs.
        specialize (Hfill vis x y s cs (conj Hx Hy) Hfg Hlen Hs HQ).
        destruct (rejected img s); exists (visited s); eexists; eauto.
      + exists vis, cs. auto.
    - exists (replicate (Z.to_nat (W * H)) false), [].
      split; [reflexivity|]. split; [apply length_replicate | exact Hnil]. }
  destruct HP as (vis & cs & -> & _ & HQ). eauto.
Qed.

Lemma findComponents_total : exists cs, findComponents img = Some cs.
Proof.
  destruct (scan_invariant (fun _ => True)) as (cs & Hcs & _); eauto.
Qed.

(** [segmentDigits] returns, on every raster. *)
Lemma segmentDigits_total : exists segs, segmentDigits img = Some segs.
Proof.
  unfold segmentDigits. destruct findComponents_total as [cs ->]. eauto.
Qed.

(** The boxes collected are those of the fills that are not rejected. *)
Lemma findComponents_fills :
  exists fills,
    allFills img = Some fills
    /\ findComponents img = Some (map boxOf (List.filter (accepted img) fills)).
Proof.
  unfold findComponents, allFills. fold W H.
  set (R := fun (a : option (list bool * list BoundingBox.t))
                (a' : option (list bool * list Fill)) =>
              exists vis fills,
                a' = Some (vis, fills) /\ length vis = N
                /\ a = Some (vis, map boxOf (List.filter (accepted img) fills))).
  assert (HR : R (fold_left (scanRow img) (seqZ 0 H)
                    (Some (replicate (Z.to_nat (W * H)) false, [])))
                 (fold_left
                    (fun acc y => fold_left (scanPixelFills img y) (seqZ 0 W) acc)
                    (seqZ 0 H) (Some (replicate (Z.to_nat (W * H)) false, [])))).
  { apply fold_left_rel.
    - intros a a' y _ Ha. unfold scanRow. fold W.
      apply fold_left_rel; [|exact Ha].
      clear a a' Ha. intros a a' x _ (vis & fills & -> & Hlen & ->).
      unfold scanPixel, scanPixelFills. fold W.
      destruct (negb _ && isForeground img x y).
      + destruct (floodFill_total vis x y Hlen) as (s & Hs & Hlen').
        unfold floodFill. rewrite Hs.
        exists (visited s), (fills ++ [s]).
        split; [reflexivity|]. split; [exact Hlen'|].
        rewrite List.filter_app, map_app. simpl. unfold accepted.
        destruct (rejected img s); simpl; [rewrite app_nil_r|]; reflexivity.
      + exists vis, fills. auto.
    - exists (replicate (Z.to_nat (W * H)) false), [].
      split; [reflexivity|]. split; [apply length_replicate | reflexivity]. }
  destruct HR as (vis & fills & -> & _ & ->). eauto.
Qed.

(** A raster whose foreground fits a block narrower or lower than 10
    pixels has no segment. *)
Lemma confined_no_segments x0 y0 w h :
  confined img x0 y0 w h -> w < 10 \/ h < 10 ->
  segmentDigits img = Some [].
Proof.
  intros Hc Hsmall. unfold segmentDigits.
  destruct (scan_invariant (fun cs => cs = [])) as (cs & -> & ->);
    [| reflexivity | reflexivity].
  intros vis x y s cs Hin Hfg _ Hrun ->.
  pose proof (fill_confined x0 y0 w h vis x y _ s Hc Hin Hfg Hrun) as Hb.
  assert (Hr : rejected img s = true).
  { apply rejected_iff. unfold componentWidth, componentHeight. lia. }
  rewrite Hr. reflexivity.
Qed.

(** The box of every accepted component lies in the raster and is at least
    10 by 10. *)
Lemma findComponents_boxes :
  exists cs, findComponents img = Some cs /\ Forall (componentBox img) cs.
Proof.
  apply (scan_invariant (Forall (componentBox img))); [|constructor].
  intros vis x y s cs Hin Hfg _ Hrun Hcs.
  destruct (rejected img s) eqn:Hr; [exact Hcs|].
  apply Forall_app. split; [exact Hcs|]. constructor; [|constructor].
  pose proof (fill_confined 0 0 _ _ vis x y _ s raster_confined Hin Hfg Hrun).
  assert (Hn : ~ (pixelCount s < 50
                  \/ Spec.over90 (componentWidth s * componentHeight s) (W * H)
                  \/ componentWidth s < 10 \/ componentHeight s < 10)).
  { rewrite <- rejected_iff. congruence. }
  unfold componentWidth, componentHeight in Hn.
  unfold componentBox, boxOf. fold W H. simpl. lia.
Qed.
End FillProofs.

(** ** Sorting *)

Section SortProofs.
Context {A : Type} (key : A -> Z).
Let cmp (a b : A) : Z := key a - key b.
Let le (a b : A) : Prop := key a <= key b.

Lemma js_insert_perm a l : Permutation (js_insert cmp a l) (a :: l).
Proof.
  induction l as [|b l IH]; simpl; [reflexivity|].
  destruct (cmp a b <=? 0); [reflexivity|].
  rewrite IH. apply perm_swap.
Qed.

Lemma js_sort_perm l : Permutation (js_sort cmp l) l.
Proof.
  induction l as [|a l IH]; simpl; [reflexivity|].
  rewrite js_insert_perm, IH. reflexivity.
Qed.

Lemma js_insert_sorted a l :
  StronglySorted le l -> StronglySorted le (js_insert cmp a l).
Proof.
  induction 1 as [|b l Hl IH Hb]; simpl.
  - repeat constructor.
  - destruct (cmp a b <=? 0) eqn:E.
    + apply Z.leb_le in E. unfold cmp in E.
      constructor; [constructor; assumption|].
      constructor; [unfold le; lia|].
      eapply List.Forall_impl; [|exact Hb]. unfold le. simpl. intros; lia.
    + apply Z.leb_gt in E. unfold cmp in E.
      constructor; [exact IH|].
      rewrite (js_insert_perm a l). constructor; [unfold le; lia | exact Hb].
Qed.

Lemma js_sort_sorted l : StronglySorted le (js_sort cmp l).
Proof.
  induction l as [|a l IH]; simpl; [constructor|].
  apply js_insert_sorted, IH.
Qed.

(** The sort is stable: elements with the same key keep their order. *)
Lemma js_insert_stable k a l :
  List.filter (fun b => key b =? k) (js_insert cmp a l)
  = List.filter (fun b => key b =? k) (a :: l).
Proof.
  induction l as [|b l IH]; [reflexivity|].
  simpl js_insert. destruct (cmp a b <=? 0) eqn:E; [reflexivity|].
  apply Z.leb_gt in E. unfold cmp in E.
  simpl. simpl in IH. rewrite IH.
  destruct (key a =? k) eqn:Ea; [|reflexivity].
  apply Z.eqb_eq in Ea.
  assert (Eb : (key b =? k) = false) by (apply Z.eqb_neq; lia).
  rewrite Eb. reflexivity.
Qed.

Lemma js_sort_stable k l :
  List.filter (fun b => key b =? k) (js_sort cmp l)
  = List.filter (fun b => key b =? k) l.
Proof.
  induction l as [|a l IH]; [reflexivity|].
  simpl js_sort. rewrite js_insert_stable. simpl. rewrite IH. reflexivity.
Qed.
End SortProofs.

Lemma StronglySorted_map {A B} (R : A -> A -> Prop) (R' : B -> B -> Prop)
    (f : A -> B) l :
  (forall a b, R a b -> R' (f a) (f b)) ->
  StronglySorted R l -> StronglySorted R' (map f l).
Proof.
  intros Hf. induction 1 as [|a l Hl IH Ha]; simpl; constructor; [exact IH|].
  apply Forall_map. eapply List.Forall_impl; [|exact Ha]. simpl. auto.
Qed.

(** ** Segmentation *)

Lemma speck_confined : confined speck 5 5 3 3.
Proof.
  intros x y [Hx Hy] Hfg. change (ImageData.width speck) with 20 in Hx.
  change (ImageData.height speck) with 20 in Hy.
  assert (Hall : forallb
                   (fun y =>
                      forallb
                        (fun x => implb (DigitSegmentation.isForeground speck x y)
                                    (inRect 5 5 3 3 x y))
                        (seqZ 0 20))
                   (seqZ 0 20) = true)
    by (vm_compute; reflexivity).
  rewrite forallb_forall in Hall.
  specialize (Hall y). rewrite forallb_forall in Hall.
  assert (Hi : implb (DigitSegmentation.isForeground speck x y)
                 (inRect 5 5 3 3 x y) = true).
  { apply Hall; apply list_elem_of_In, elem_of_seqZ; lia. }
  rewrite Hfg in Hi. simpl in Hi. unfold inRect in Hi.
  rewrite !andb_true_iff, !Z.leb_le, !Z.ltb_lt in Hi. lia.
Qed.

(** At the boundary the comparison of doubles agrees with the exact one:
    of a raster of 30 x 30 = 900 pixels, a bounding area of 810 is not above
    90%, and 811 is; of 10 pixels, 9 is not, and 10 is. *)
Lemma over90_boundary :
  ~ Spec.over90 810 900 /\ Spec.over90 811 900
  /\ ~ Spec.over90 9 10 /\ Spec.over90 10 10.
Proof.
  unfold Spec.over90. repeat split; vm_compute; congruence.
Qed.

(** C5: for every raster, a flood-filled component is rejected if and only
    if its pixel count is below 50, or its bounding area is above 90% of the
    raster's, or a bounding dimension is below 10; what [segmentDigits]
    emits are the components that are not rejected (sorted and extracted);
    and a raster whose foreground lies in one block of 3 x 3 pixels yields
    zero segments. *)
Theorem segmentDigits_rejection img :
  (forall s,
      DigitSegmentation.rejected img s = true <->
      DigitSegmentation.pixelCount s < 50
      \/ Spec.over90 (componentWidth s * componentHeight s)
           (ImageData.width img * ImageData.height img)
      \/ componentWidth s < 10 \/ componentHeight s < 10)
  /\ (exists fills,
        allFills img = Some fills
        /\ DigitSegmentation.segmentDigits img
           = Some (map (DigitSegmentation.extract img)
                     (js_sort byX
                        (map DigitSegmentation.boxOf
                           (List.filter (accepted img) fills)))))
  /\ (forall x0 y0,
        confined img x0 y0 3 3 -> DigitSegmentation.segmentDigits img = Some []).
Proof.
  split; [apply rejected_iff|]. split.
  - destruct (findComponents_fills img) as (fills & Hf & Hc).
    exists fills. split; [exact Hf|].
    unfold DigitSegmentation.segmentDigits. rewrite Hc. reflexivity.
  - intros x0 y0 Hc. apply (confined_no_segments img x0 y0 3 3 Hc). lia.
Qed.

Lemma segmentDigits_rejection_witness :
  DigitSegmentation.segmentDigits speck = Some [].
Proof.
  exact (proj2 (proj2 (segmentDigits_rejection speck)) 5 5 speck_confined).
Defined.

(** C6, as the code has it: [segmentDigits] is a function of the raster
    (the same width, height and samples give the same segments), it returns
    on every raster, and its segments are the accepted components, extracted
    in ascending order of the left edge of the bounding box -- ascending, not
    strictly: components with the same left edge are all kept, in the order
    in which the scan found them. *)
Theorem segmentDigits_ascending img :
  (forall img',
      ImageData.width img' = ImageData.width img ->
      ImageData.height img' = ImageData.height img ->
      ImageData.data img' = ImageData.data img ->
      DigitSegmentation.segmentDigits img' = DigitSegmentation.segmentDigits img)
  /\ exists cs sorted,
       DigitSegmentation.findComponents img = Some cs
       /\ DigitSegmentation.segmentDigits img
          = Some (map (DigitSegmentation.extract img) sorted)
       /\ Permutation sorted cs
       /\ StronglySorted (fun a b => BoundingBox.x a <= BoundingBox.x b) sorted
       /\ (forall k,
             List.filter (fun c => BoundingBox.x c =? k) sorted
             = List.filter (fun c => BoundingBox.x c =? k) cs)
       /\ StronglySorted (fun a b => leftEdge a <= leftEdge b)
            (map (DigitSegmentation.extract img) sorted).
Proof.
  split.
  { intros [w' h' d'] Hw Hh Hd. destruct img as [w h d]. simpl in *.
    subst. reflexivity. }
  destruct (findComponents_total img) as [cs Hcs].
  exists cs, (js_sort (fun a b => BoundingBox.x a - BoundingBox.x b) cs).
  split; [exact Hcs|].
  split; [unfold DigitSegmentation.segmentDigits; rewrite Hcs; reflexivity|].
  split; [apply (js_sort_perm BoundingBox.x)|].
  split; [apply (js_sort_sorted BoundingBox.x)|].
  split; [intros k; apply (js_sort_stable BoundingBox.x)|].
  eapply StronglySorted_map; [|apply (js_sort_sorted BoundingBox.x)].
  intros a b Hab. unfold leftEdge. simpl in *. lia.
Qed.

Lemma segmentDigits_ascending_witness :
  DigitSegmentation.segmentDigits
    {| ImageData.width := 20; ImageData.height := 20;
       ImageData.data := ImageData.data speck |}
  = DigitSegmentation.segmentDigits speck.
Proof.
  exact (proj1 (segmentDigits_ascending speck) _ eq_refl eq_refl eq_refl).
Defined.

(** C6 as stated fails: the two blobs of [stackedBlobs] are both accepted
    and their boxes have the same left edge, so the order is not strict. *)
Lemma segmentDigits_not_strictly_ascending :
  exists a b,
    DigitSegmentation.segmentDigits stackedBlobs = Some [a; b]
    /\ ~ leftEdge a < leftEdge b.
Proof.
  eexists _, _. split; [vm_compute; reflexivity|]. vm_compute. discriminate.
Qed.

(** C7: what [segmentDigits] emits for a component, and where it departs
    from the claim.  The emitted box starts 5 pixels before the component's,
    clamped at 0, and its width and height are the component's plus 10,
    counted from that clamped start and clamped so as to end in the raster.
    It is the component box padded by 5 pixels on every side and clamped to
    the raster exactly when, in each direction, the component starts at least
    5 pixels from the left (top) edge or ends within 5 pixels of the right
    (bottom) edge; otherwise the padding cut off at the left (top) is added
    at the right (bottom).  In every case the box of an accepted component
    holds the component box and lies in the raster.  The patch is a square of
    side max(padded width, padded height), filled white, with the padded
    region drawn unscaled and centered (equal margins on both sides). *)
Theorem segmentDigits_patches img :
  exists cs,
    DigitSegmentation.findComponents img = Some cs
    /\ Forall (componentBox img) cs
    /\ DigitSegmentation.segmentDigits img
       = Some (map (DigitSegmentation.extract img) (js_sort byX cs))
    /\ forall c,
        let s := DigitSegmentation.extract img c in
        let box := DigitSegmentation.bbox s in
        let patch := DigitSegmentation.imageData s in
        let W := ImageData.width img in
        let H := ImageData.height img in
        let size := Z.max (BoundingBox.width box) (BoundingBox.height box) in
        (BoundingBox.x box = Z.max 0 (BoundingBox.x c - 5)
         /\ BoundingBox.y box = Z.max 0 (BoundingBox.y c - 5)
         /\ BoundingBox.width box
            = Z.min (W - BoundingBox.x box) (BoundingBox.width c + 10)
         /\ BoundingBox.height box
            = Z.min (H - BoundingBox.y box) (BoundingBox.height c + 10))
        /\ (box = Spec.paddedBox W H c <->
            (5 <= BoundingBox.x c
             \/ W <= BoundingBox.x c + BoundingBox.width c + 5)
            /\ (5 <= BoundingBox.y c
                \/ H <= BoundingBox.y c + BoundingBox.height c + 5))
        /\ (componentBox img c ->
            (0 <= BoundingBox.x box <= BoundingBox.x c
             /\ BoundingBox.x c + BoundingBox.width c
                <= BoundingBox.x box + BoundingBox.width box <= W)
            /\ (0 <= BoundingBox.y box <= BoundingBox.y c
                /\ BoundingBox.y c + BoundingBox.height c
                   <= BoundingBox.y box + BoundingBox.height box <= H))
        /\ (DigitSegmentation.pwidth patch = size
            /\ DigitSegmentation.pheight patch = size
            /\ DigitSegmentation.fillStyle patch = "white"%string)
        /\ (DigitSegmentation.sx patch = BoundingBox.x box
            /\ DigitSegmentation.sy patch = BoundingBox.y box
            /\ DigitSegmentation.sw patch = BoundingBox.width box
            /\ DigitSegmentation.sh patch = BoundingBox.height box)
        /\ (DigitSegmentation.offsetX patch
            + inject_Z (DigitSegmentation.sw patch)
            + DigitSegmentation.offsetX patch == inject_Z size
            /\ DigitSegmentation.offsetY patch
               + inject_Z (DigitSegmentation.sh patch)
               + DigitSegmentation.offsetY patch == inject_Z size)%Q.
Proof.
  destruct (findComponents_boxes img) as (cs & Hcs & Hboxes).
  exists cs. split; [exact Hcs|]. split; [exact Hboxes|].
  split; [unfold DigitSegmentation.segmentDigits; rewrite Hcs; reflexivity|].
  intros c. cbv zeta. unfold DigitSegmentation.extract, Spec.paddedBox. simpl.
  split; [repeat split|]. split.
  - split.
    + intros [= Hw Hh]. lia.
    + intros [Hx Hy]. f_equal; lia.
  - split; [unfold componentBox; lia|].
    repeat split; unfold Qeq, Qplus, inject_Z; simpl; lia.
Qed.

Lemma segmentDigits_patches_witness :
  exists c,
    DigitSegmentation.findComponents centredBlob = Some [c]
    /\ componentBox centredBlob c
    /\ DigitSegmentation.bbox (DigitSegmentation.extract centredBlob c)
       = Spec.paddedBox 40 40 c
    /\ DigitSegmentation.bbox (DigitSegmentation.extract centredBlob c)
       = {| BoundingBox.x := 5; BoundingBox.y := 5;
            BoundingBox.width := 20; BoundingBox.height := 20 |}.
Proof.
  destruct (segmentDigits_patches centredBlob) as (cs & Hcs & Hboxes & _ & Hc).
  assert (Hscan : DigitSegmentation.findComponents centredBlob
                  = Some [{| BoundingBox.x := 10; BoundingBox.y := 10;
                             BoundingBox.width := 10;
                             BoundingBox.height := 10 |}])
    by (vm_compute; reflexivity).
  rewrite Hscan in Hcs. injection Hcs as <-.
  eexists. split; [exact Hscan|].
  split; [inversion Hboxes; assumption|].
  split; [|reflexivity].
  apply (proj2 (proj1 (proj2 (Hc _)))). simpl. lia.
Defined.

(** C7 as stated fails: the blob of [cornerBlob] touches the left and top
    edges, and the emitted box is not its box padded by 5 pixels on every
    side and clamped (which is 15 x 15): it is 20 x 20, with 10 pixels of
    padding on the right and below. *)
Lemma padding_exceeds_five_at_the_edge :
  exists c s,
    DigitSegmentation.findComponents cornerBlob = Some [c]
    /\ DigitSegmentation.segmentDigits cornerBlob = Some [s]
    /\ DigitSegmentation.bbox s
       = {| BoundingBox.x := 0; BoundingBox.y := 0;
            BoundingBox.width := 20; BoundingBox.height := 20 |}
    /\ Spec.paddedBox 30 30 c
       = {| BoundingBox.x := 0; BoundingBox.y := 0;
            BoundingBox.width := 15; BoundingBox.height := 15 |}
    /\ DigitSegmentation.bbox s <> Spec.paddedBox 30 30 c.
Proof.
  eexists _, _. split; [vm_compute; reflexivity|].
  split; [vm_compute; reflexivity|].
  split; [reflexivity|]. split; [reflexivity|]. vm_compute. discriminate.
Qed.

(** ** The classifier service *)

(** C1 as stated fails: on a fresh page, and again after [disposeModel], no
    model is cached, and a call of [predictDigit] enters the load path of
    [loadMNISTModel] and, once the stored model is loaded, returns a
    prediction. *)
Lemma predictDigit_without_model_succeeds :
  (MnistModel.model absentWorld = None
   /\ MnistModel.predictDigit toyForward absentWorld tt
      = ({| MnistModel.model := None; MnistModel.nextUid := 0;
            MnistModel.log := [MnistModel.LoadLayersModel] |},
         MnistModel.AwaitModel MnistModel.AwaitLoadLayers)
   /\ MnistModel.predictRun toyForward absentWorld tt [Fulfilled 1]
      = ({| MnistModel.model :=
              Some {| MnistModel.uid := 0; MnistModel.weights := 1 |};
            MnistModel.nextUid := 1;
            MnistModel.log := [MnistModel.LoadLayersModel] |},
         MnistModel.PredictReturned
           {| MnistModel.digit := 1; MnistModel.confidence := 100;
              MnistModel.probabilities := sureOfOne |}))
  /\ (MnistModel.model disposedWorld = None
      /\ MnistModel.predictRun toyForward disposedWorld tt [Fulfilled 1]
         = ({| MnistModel.model :=
                 Some {| MnistModel.uid := 1; MnistModel.weights := 1 |};
               MnistModel.nextUid := 2;
               MnistModel.log :=
                 [MnistModel.LoadLayersModel; MnistModel.Dispose 0;
                  MnistModel.LoadLayersModel] |},
            MnistModel.PredictReturned
              {| MnistModel.digit := 1; MnistModel.confidence := 100;
                 MnistModel.probabilities := sureOfOne |})).
Proof. repeat split. Qed.

Section ModelProofs.
Import MnistModel.
Context {Weights Tensor : Type}.
Variable forward : Weights -> Tensor -> option (list float).

Lemma lazyOutcome_resume inputTensor (w : @World Weights) (p : PredictPc) a :
  lazyOutcome forward inputTensor (w, p) ->
  lazyOutcome forward inputTensor (predictResume forward w inputTensor p a).
Proof.
  inversion 1 as [w0 inner Hm Hr Ht | w0 m ps Hm Hf | w0 m msg Hm Hf | w0 r Hm];
    subst; simpl; try (econstructor; eassumption).
  destruct inner as [ |n|n|nm|m|msg]; try (exfalso; eapply Hr; reflexivity);
    try (exfalso; eapply Ht; reflexivity);
    destruct a as [ws|r]; simpl;
    try (apply lazy_waiting; [assumption | discriminate | discriminate]);
    try (apply lazy_init_failed; assumption).
  - destruct (forward ws inputTensor) eqn:E.
    + eapply lazy_classified; [reflexivity | exact E].
    + eapply lazy_forward_failed; [reflexivity | exact E].
  - destruct (forward (weights nm) inputTensor) eqn:E.
    + eapply lazy_classified; [reflexivity | exact E].
    + eapply lazy_forward_failed; [reflexivity | exact E].
Qed.

(** C1, as the code has it: if no model handle is cached, a call of
    [predictDigit] runs [loadMNISTModel] itself, entering the load-or-train
    path inside the call; when the stored model loads, it classifies with
    that model; and however the awaited promises settle, the call is
    waiting, or has classified with the model that its own load cached, or
    has failed in the forward pass of that model, or has failed with
    "Failed to initialize MNIST model: ..." because load-or-train failed. *)
Theorem predictDigit_loads_lazily (w : @World Weights) inputTensor :
  model w = None ->
  predictDigit forward w inputTensor
  = (emit LoadLayersModel w, AwaitModel AwaitLoadLayers)
  /\ (forall ws,
        snd (predictRun forward w inputTensor [Fulfilled ws])
        = match forward ws inputTensor with
          | Some probabilities => PredictReturned (tidyPrediction probabilities)
          | None => PredictThrew "predict failed"
          end)
  /\ (forall answers,
        lazyOutcome forward inputTensor
          (predictRun forward w inputTensor answers)).
Proof.
  intros Hm.
  assert (Hcall : predictDigit forward w inputTensor
                  = (emit LoadLayersModel w, AwaitModel AwaitLoadLayers)).
  { unfold predictDigit, loadMNISTModel. rewrite Hm. reflexivity. }
  split; [exact Hcall|]. split.
  - intros ws. unfold predictRun. rewrite Hcall. reflexivity.
  - intros answers. unfold predictRun. rewrite Hcall.
    assert (H0 : lazyOutcome forward inputTensor
                   (emit LoadLayersModel w, AwaitModel AwaitLoadLayers)).
    { apply lazy_waiting; [exact Hm | discriminate | discriminate]. }
    revert H0.
    generalize (emit LoadLayersModel w, AwaitModel (@AwaitLoadLayers Weights)).
    induction answers as [|a answers IH]; intros [w' pc'] H0; simpl;
      [exact H0|].
    apply IH. apply lazyOutcome_resume. exact H0.
Qed.
End ModelProofs.

Lemma predictDigit_loads_lazily_witness :
  MnistModel.model absentWorld = None
  /\ lazyOutcome toyForward tt
       (MnistModel.predictRun toyForward absentWorld tt
          [Rejected None; Fulfilled 0]).
Proof.
  split; [reflexivity|].
  exact (proj2 (proj2 (predictDigit_loads_lazily toyForward absentWorld tt
                         eq_refl)) _).
Defined.

(** C2 as stated fails: two calls of [loadMNISTModel] that overlap while no
    model is cached both enter the load path and both train, and they
    resolve to two different models, whose predictions differ. *)
Lemma overlapping_calls_both_train :
  MnistModel.calls (MnistModel.run MnistModel.absent overlappingCalls)
  = [MnistModel.Returned {| MnistModel.uid := 0; MnistModel.weights := 1 |};
     MnistModel.Returned {| MnistModel.uid := 1; MnistModel.weights := 2 |}]
  /\ MnistModel.loadPathRuns
       (MnistModel.log
          (MnistModel.world (MnistModel.run MnistModel.absent overlappingCalls)))
     = 2%nat
  /\ MnistModel.trainings
       (MnistModel.log
          (MnistModel.world (MnistModel.run MnistModel.absent overlappingCalls)))
     = 2%nat
  /\ toyForward 1 tt <> toyForward 2 tt.
Proof. vm_compute. repeat split. discriminate. Qed.

Section SingleFlightProofs.
Import MnistModel.
Context {Weights : Type}.

Lemma alone_settle (s : @Sys Weights) a : alone s -> alone (step s (Settle 0 a)).
Proof.
  intros (Hruns & pc & Hcalls & Hpc).
  unfold step. rewrite Hcalls. simpl. unfold alone.
  unfold trainings, loadPathRuns in *.
  destruct pc as [ |n|n|nm|m|msg], a as [ws|r]; simpl in *;
    destruct Hpc as [Hm Ht];
    (split; [assumption|]); eexists; (split; [reflexivity|]); simpl;
    split; try assumption; try reflexivity; lia.
Qed.

Lemma alone_run (s : @Sys Weights) answers :
  alone s -> alone (run s (map (Settle 0) answers)).
Proof.
  revert s. induction answers as [|a answers IH]; intros s Hs; simpl;
    [exact Hs|].
  apply IH, alone_settle, Hs.
Qed.

(** C2, as the code has it: when a call of [loadMNISTModel] on a fresh
    page has resolved to a model, however the promises it awaited settled,
    a call that starts after it resolves at once to the same model (so to
    the same predictions) without any further effect: over the two calls
    the load-or-train path ran once and at most one training was started. *)
Theorem sequential_calls_load_once (answers : list (Settled Weights))
    (m : LayersModel) :
  let first := run absent (Call :: map (Settle 0) answers) in
  calls first !! 0%nat = Some (Returned m) ->
  let second := step first Call in
  calls second = [Returned m; Returned m]
  /\ log (world second) = log (world first)
  /\ loadPathRuns (log (world second)) = 1%nat
  /\ (trainings (log (world second)) <= 1)%nat.
Proof.
  intros first Hret second.
  assert (Hal : alone first).
  { unfold first. simpl. apply alone_run. unfold alone. simpl.
    split; [reflexivity|]. eexists. split; [reflexivity|]. simpl. auto. }
  destruct Hal as (Hruns & pc & Hcalls & Hpc).
  rewrite Hcalls in Hret. injection Hret as ->. destruct Hpc as [Hm Ht].
  unfold second, step, loadMNISTModel. rewrite Hm, Hcalls. simpl. auto.
Qed.
End SingleFlightProofs.

Lemma sequential_calls_load_once_witness :
  MnistModel.calls
    (MnistModel.run MnistModel.absent
       (MnistModel.Call
          :: map (MnistModel.Settle 0)
               [Rejected None; Fulfilled 0; Fulfilled 7; Fulfilled 0]))
    !! 0%nat
  = Some (MnistModel.Returned {| MnistModel.uid := 0; MnistModel.weights := 7 |})
  /\ MnistModel.calls
       (MnistModel.step
          (MnistModel.run MnistModel.absent
             (MnistModel.Call
                :: map (MnistModel.Settle 0)
                     [Rejected None; Fulfilled 0; Fulfilled 7; Fulfilled 0]))
          MnistModel.Call)
     = [MnistModel.Returned {| MnistModel.uid := 0; MnistModel.weights := 7 |};
        MnistModel.Returned {| MnistModel.uid := 0; MnistModel.weights := 7 |}].
Proof.
  split; [reflexivity|].
  exact (proj1 (sequential_calls_load_once
                  [Rejected None; Fulfilled 0; Fulfilled 7; Fulfilled 0]
                  {| MnistModel.uid := 0; MnistModel.weights := 7 |} eq_refl)).
Defined.

(** ** The recognition effect *)

Section RecognizerProofs.
Import Recognizer.

Lemma completions_app os os' :
  completions (os ++ os') = completions os ++ completions os'.
Proof. apply omap_app. Qed.

Lemma errors_app os os' : errors (os ++ os') = errors os ++ errors os'.
Proof. apply omap_app. Qed.

Lemma indexOfFrom_range v ps i :
  MnistModel.indexOfFrom v ps i = -1
  \/ i <= MnistModel.indexOfFrom v ps i < i + Z.of_nat (length ps).
Proof.
  revert i. induction ps as [|p ps IH]; intros i; simpl; [left; reflexivity|].
  destruct (p =? v)%float; [right; lia|].
  destruct (IH (i + 1)) as [->|H]; [left; reflexivity | right; lia].
Qed.

(** The digit of a prediction is a class index, or -1. *)
Lemma tidyPrediction_digit ps :
  -1 <= MnistModel.digit (MnistModel.tidyPrediction ps) < Z.of_nat (length ps).
Proof.
  unfold MnistModel.tidyPrediction, MnistModel.indexOf. simpl.
  destruct (indexOfFrom_range (MnistModel.maxOf ps) ps 0) as [->|H]; lia.
Qed.

Lemma digitText_length r :
  digit r <= 9 -> String.length (digitText r) = 1%nat.
Proof.
  intros Hd. unfold digitText. destruct (0 <=? digit r) eqn:E; [|reflexivity].
  apply Z.leb_le in E.
  assert (H : digit r = 0 \/ digit r = 1 \/ digit r = 2 \/ digit r = 3
              \/ digit r = 4 \/ digit r = 5 \/ digit r = 6 \/ digit r = 7
              \/ digit r = 8 \/ digit r = 9) by lia.
  repeat (destruct H as [-> | H]; [reflexivity|]). rewrite H. reflexivity.
Qed.

Lemma length_app_string (a b : string) :
  String.length (a +:+ b) = (String.length a + String.length b)%nat.
Proof.
  induction a as [|c a IH]; simpl; [reflexivity | rewrite IH; reflexivity].
Qed.

Lemma concat_length_1 (l : list string) :
  Forall (fun x => String.length x = 1%nat) l ->
  String.length (String.concat "" l) = length l.
Proof.
  induction 1 as [|x l Hx Hl IH]; [reflexivity|].
  simpl. destruct l as [|y l]; [exact Hx|].
  rewrite !length_app_string, IH, Hx. reflexivity.
Qed.

Lemma resultOf_digit seg o :
  tenClasses o -> digit (resultOf seg (fst o)) <= 9.
Proof.
  unfold tenClasses. destruct (fst o) as [ps|r]; simpl; [|intros _; lia].
  intros Hlen. pose proof (tidyPrediction_digit ps) as Hd.
  unfold MnistModel.tidyPrediction in Hd. simpl in Hd. lia.
Qed.

(** One settlement of [predictDigitFromImage] in the loop of step 5. *)
Lemma resume_prediction o t s url segs i results seg :
  pc s = AwaitPrediction url segs i results ->
  segs !! i = Some seg ->
  resume (answerOf o) t s
  = if (S i <? length segs)%nat then
      say (logged o ++ [loopProgress (S i) (length segs)])
        (AwaitPrediction url segs (S i) (results ++ [resultOf seg o])) s
    else complete t url (results ++ [resultOf seg o]) (say (logged o) Done s).
Proof.
  intros Hpc Hseg. unfold resume. rewrite Hpc, Hseg.
  destruct o; reflexivity.
Qed.

(** The loop of step 5 from its [i]-th iteration, when nothing cancels:
    it ends, and calls [onComplete] once, and [onError] never. *)
Lemma classify_loop outcomes : forall i results s url segs,
  pc s = AwaitPrediction url segs i results ->
  outcomes <> [] ->
  (i + length outcomes = length segs)%nat ->
  let s' := run s (predictionEvents outcomes) in
  let digits := results ++ zip_with resultOf (drop i segs) (map fst outcomes) in
  pc s' = Done
  /\ exists now os,
       outputs s' = outputs s ++ os
       /\ errors os = []
       /\ completions os
          = [{| digits := digits; combinedText := combine digits;
                processingTime := now - startTime s;
                preprocessedImage := url |}].
Proof.
  induction outcomes as [|[o t] outcomes IH];
    intros i results s url segs Hpc Hne Hlen; [congruence|].
  simpl in Hlen.
  destruct (lookup_lt_is_Some_2 segs i ltac:(lia)) as [seg Hseg].
  rewrite (drop_S _ _ _ Hseg).
  cbv zeta. simpl predictionEvents. simpl run. simpl map.
  rewrite (resume_prediction o t s url segs i results seg Hpc Hseg).
  assert (Hlog : errors (logged o) = [] /\ completions (logged o) = [])
    by (destruct o; auto).
  destruct Hlog as [Hle Hlc].
  destruct outcomes as [|o' outcomes].
  - assert (Hlast : (S i <? length segs)%nat = false)
      by (apply Nat.ltb_ge; simpl in Hlen; lia).
    rewrite Hlast. simpl. rewrite zip_with_nil_r. split; [reflexivity|].
    exists t. eexists. split; [rewrite <- app_assoc; reflexivity|].
    rewrite errors_app, completions_app, Hle, Hlc. simpl.
    split; reflexivity.
  - assert (Hmore : (S i <? length segs)%nat = true)
      by (apply Nat.ltb_lt; simpl in Hlen; lia).
    rewrite Hmore.
    edestruct (IH (S i) (results ++ [resultOf seg o])
                 (say (logged o ++ [loopProgress (S i) (length segs)])
                    (AwaitPrediction url segs (S i)
                       (results ++ [resultOf seg o])) s)
                 url segs) as (Hdone & now & os & Hout & Herr & Hcomp);
      [reflexivity | discriminate | simpl in *; lia |].
    split; [exact Hdone|].
    exists now. eexists.
    split; [rewrite Hout; simpl; rewrite <- app_assoc; reflexivity|].
    rewrite errors_app, completions_app, !errors_app, !completions_app,
      Herr, Hcomp, Hle, Hlc.
    simpl. rewrite <- !app_assoc. simpl. split; reflexivity.
Qed.

(** Steps 1 to 4, when nothing fails or cancels and digits are found. *)
Lemma start_classification t0 t1 t2 t3 url img seg segs :
  DigitSegmentation.segmentDigits img = Some (seg :: segs) ->
  let s := run (recognize t0)
             [Settle (Fulfilled Model) t1; Settle (Fulfilled (Url url)) t2;
              Settle (Fulfilled (Image img)) t3] in
  pc s = AwaitPrediction url (seg :: segs) 0 []
  /\ startTime s = t0
  /\ errors (outputs s) = [] /\ completions (outputs s) = [].
Proof.
  intros Hseg. cbv zeta. unfold run, fold_left, step.
  unfold resume at 3. simpl. unfold resume at 2. simpl.
  unfold resume. simpl. rewrite Hseg. simpl. auto.
Qed.

(** A run cancelled before [loadMNISTModel()] settles calls neither
    [onComplete] nor [onError], whatever happens next. *)
Lemma cancelled_before_model_is_silent t0 es :
  let s := run (recognize t0) (Cleanup :: es) in
  completions (outputs s) = [] /\ errors (outputs s) = [].
Proof.
  simpl.
  set (s0 := {| pc := AwaitModel; cancelled := true; startTime := t0;
                outputs := _ |}).
  assert (H0 : cancelled s0 = true /\ (pc s0 = AwaitModel \/ pc s0 = Done)
               /\ completions (outputs s0) = [] /\ errors (outputs s0) = [])
    by (simpl; auto).
  revert H0. generalize s0. clear s0.
  induction es as [|e es IH]; intros s (Hc & Hpc & Ho); simpl; [exact Ho|].
  apply IH. destruct e as [a now|]; simpl.
  - destruct s as [p c st os]. simpl in *. subst c.
    destruct Hpc as [-> | ->]; unfold resume; simpl.
    + destruct a as [[ | | | ]|r]; simpl; try (split; [reflexivity|]; auto);
        unfold catch, say; simpl;
        rewrite ?completions_app, ?errors_app, ?app_nil_r;
        destruct Ho as [-> ->]; auto.
    + destruct a as [[ | | | ]|r]; simpl; auto.
  - auto.
Qed.
End RecognizerProofs.

(** The character that [combinedText] holds for a class of the model is
    the one of the specification. *)
Lemma digitText_character r :
  Recognizer.digit r <= 9 ->
  Recognizer.digitText r = Spec.character (Recognizer.digit r).
Proof.
  intros Hd. unfold Recognizer.digitText.
  destruct (0 <=? Recognizer.digit r) eqn:E.
  - apply Z.leb_le in E.
    assert (H : Recognizer.digit r = 0 \/ Recognizer.digit r = 1
                \/ Recognizer.digit r = 2 \/ Recognizer.digit r = 3
                \/ Recognizer.digit r = 4 \/ Recognizer.digit r = 5
                \/ Recognizer.digit r = 6 \/ Recognizer.digit r = 7
                \/ Recognizer.digit r = 8 \/ Recognizer.digit r = 9) by lia.
    repeat (destruct H as [-> | H]; [reflexivity|]). rewrite H. reflexivity.
  - apply Z.leb_gt in E. destruct (Recognizer.digit r); try lia. reflexivity.
Qed.

(** C4: for every non-empty sequence of segments that [recognize] gets from
    [segmentDigits], and however each [predictDigitFromImage] settles, the
    run ends with one call of [onComplete] and none of [onError]; it reports
    one digit per segment, in segment order: for a glyph whose inference
    failed, the digit -1 with confidence 0, and for every other glyph,
    whether it comes before or after a failure, the class and the confidence
    that [predictDigit] computed from the model's output for that glyph;
    [combinedText] is the concatenation, in that order, of the decimal
    numeral of each digit that is not negative and of '?' for each negative
    one; and with a model of ten classes, it is the concatenation of the
    characters '0' to '9' of the digits, or '?' for -1, and its length is the
    number of segments. *)
Theorem recognize_tolerates_glyph_failures t0 t1 t2 t3 url img segs
    (outcomes : list (Settled (list float) * Z)) :
  DigitSegmentation.segmentDigits img = Some segs ->
  segs <> [] ->
  length outcomes = length segs ->
  let s := Recognizer.run (Recognizer.recognize t0)
             ([Recognizer.Settle (Fulfilled Recognizer.Model) t1;
               Recognizer.Settle (Fulfilled (Recognizer.Url url)) t2;
               Recognizer.Settle (Fulfilled (Recognizer.Image img)) t3]
              ++ Recognizer.predictionEvents outcomes) in
  Recognizer.pc s = Recognizer.Done
  /\ Recognizer.errors (Recognizer.outputs s) = []
  /\ exists r,
       Recognizer.completions (Recognizer.outputs s) = [r]
       /\ Recognizer.digits r
          = zip_with Recognizer.resultOf segs (map fst outcomes)
       /\ length (Recognizer.digits r) = length segs
       /\ (forall i seg reason t,
             segs !! i = Some seg -> outcomes !! i = Some (Rejected reason, t) ->
             Recognizer.digits r !! i
             = Some {| Recognizer.digit := -1; Recognizer.confidence := 0;
                       Recognizer.bbox := DigitSegmentation.bbox seg |})
       /\ (forall i seg probabilities t,
             segs !! i = Some seg ->
             outcomes !! i = Some (Fulfilled probabilities, t) ->
             Recognizer.digits r !! i
             = Some {| Recognizer.digit :=
                         MnistModel.digit
                           (MnistModel.tidyPrediction probabilities);
                       Recognizer.confidence :=
                         MnistModel.confidence
                           (MnistModel.tidyPrediction probabilities);
                       Recognizer.bbox := DigitSegmentation.bbox seg |})
       /\ Recognizer.combinedText r
          = String.concat ""
              (map (fun d => if 0 <=? Recognizer.digit d
                             then pretty (Recognizer.digit d) else "?"%string)
                 (Recognizer.digits r))
       /\ (Forall tenClasses outcomes ->
           Recognizer.combinedText r
           = String.concat ""
               (map (fun d => Spec.character (Recognizer.digit d))
                  (Recognizer.digits r))
           /\ String.length (Recognizer.combinedText r) = length segs).
Proof.
  intros Hseg Hne Hlen s. subst s.
  unfold Recognizer.run. rewrite fold_left_app.
  fold (Recognizer.run (Recognizer.recognize t0)
          [Recognizer.Settle (Fulfilled Recognizer.Model) t1;
           Recognizer.Settle (Fulfilled (Recognizer.Url url)) t2;
           Recognizer.Settle (Fulfilled (Recognizer.Image img)) t3]).
  set (s3 := Recognizer.run (Recognizer.recognize t0) _).
  assert (Hs3 : Recognizer.pc s3 = Recognizer.AwaitPrediction url segs 0 []
                /\ Recognizer.errors (Recognizer.outputs s3) = []
                /\ Recognizer.completions (Recognizer.outputs s3) = []).
  { destruct segs as [|seg segs]; [congruence|].
    destruct (start_classification t0 t1 t2 t3 url img seg segs Hseg)
      as (? & ? & ? & ?).
    auto. }
  destruct Hs3 as (Hpc & Herr & Hcomp).
  assert (Hne' : outcomes <> [])
    by (destruct outcomes, segs; simpl in *; congruence).
  destruct (classify_loop outcomes 0 [] s3 url segs Hpc Hne' ltac:(simpl; lia))
    as (Hdone & now & os & Hout & Herr' & Hcomp').
  fold (Recognizer.run s3 (Recognizer.predictionEvents outcomes)).
  split; [exact Hdone|].
  rewrite Hout, errors_app, completions_app, Herr, Hcomp, Herr', Hcomp'.
  split; [reflexivity|]. eexists. split; [reflexivity|]. simpl.
  change (drop 0 segs) with segs.
  assert (Hdigits : forall i seg o t,
             segs !! i = Some seg -> outcomes !! i = Some (o, t) ->
             zip_with Recognizer.resultOf segs (map fst outcomes) !! i
             = Some (Recognizer.resultOf seg o)).
  { intros i seg o t Hi Ho. rewrite lookup_zip_with, Hi. simpl.
    rewrite list_lookup_fmap, Ho. reflexivity. }
  assert (Hnine : Forall tenClasses outcomes ->
                  Forall (fun d => Recognizer.digit d <= 9)
                    (zip_with Recognizer.resultOf segs (map fst outcomes))).
  { intros Hten. apply Forall_lookup. intros i r Hr.
    rewrite lookup_zip_with in Hr.
    destruct (segs !! i) as [seg|] eqn:Hi; [|discriminate].
    simpl in Hr. rewrite list_lookup_fmap in Hr.
    destruct (outcomes !! i) as [o|] eqn:Ho; [|discriminate].
    simpl in Hr. injection Hr as <-.
    apply resultOf_digit. eapply Forall_lookup_1; eassumption. }
  split; [reflexivity|].
  split; [rewrite length_zip_with, length_map; lia|].
  split; [intros i seg reason t Hi Ho; apply (Hdigits i seg _ t Hi Ho)|].
  split; [intros i seg ps t Hi Ho; apply (Hdigits i seg _ t Hi Ho)|].
  split; [reflexivity|].
  intros Hten. specialize (Hnine Hten). split.
  - unfold Recognizer.combine. f_equal.
    apply map_ext_Forall. eapply List.Forall_impl; [|exact Hnine].
    intros d Hd. apply digitText_character, Hd.
  - unfold Recognizer.combine. rewrite concat_length_1.
    + rewrite length_map, length_zip_with, length_map. lia.
    + apply Forall_map. eapply List.Forall_impl; [|exact Hnine].
      intros d Hd. apply digitText_length, Hd.
Qed.

Lemma recognize_tolerates_glyph_failures_witness :
  DigitSegmentation.segmentDigits stackedBlobs = Some stackedSegments
  /\ stackedSegments <> []
  /\ length [(Rejected None, 40); (Fulfilled sureOfOne, 50)]
     = length stackedSegments
  /\ exists r,
       Recognizer.completions
         (Recognizer.outputs
            (Recognizer.run (Recognizer.recognize 0)
               ([Recognizer.Settle (Fulfilled Recognizer.Model) 10;
                 Recognizer.Settle
                   (Fulfilled (Recognizer.Url "data:image/png")) 20;
                 Recognizer.Settle
                   (Fulfilled (Recognizer.Image stackedBlobs)) 30]
                ++ Recognizer.predictionEvents
                     [(Rejected None, 40); (Fulfilled sureOfOne, 50)])))
       = [r]
       /\ map Recognizer.digit (Recognizer.digits r) = [-1; 1]
       /\ Recognizer.combinedText r = "?1"%string.
Proof.
  assert (Hseg : DigitSegmentation.segmentDigits stackedBlobs
                 = Some stackedSegments) by (vm_compute; reflexivity).
  split; [exact Hseg|]. split; [discriminate|]. split; [reflexivity|].
  destruct (recognize_tolerates_glyph_failures 0 10 20 30 "data:image/png"
              stackedBlobs stackedSegments
              [(Rejected None, 40); (Fulfilled sureOfOne, 50)]
              Hseg ltac:(discriminate) eq_refl)
    as (_ & _ & r & Hr & Hdigits & _ & _ & _ & Htext & _).
  exists r. split; [exact Hr|].
  rewrite Htext, Hdigits. split; vm_compute; reflexivity.
Defined.

(** C3: the cancellation flag is tested when [loadMNISTModel()] has settled
    and in the outer [catch], and nowhere else.  A run cancelled before the
    model is ready is silent, whatever happens next; but a run cancelled
    while the image is preprocessed, or between two digits, goes on to call
    [onComplete] with the digits, and a run cancelled while a blank image is
    preprocessed goes on to call [onError]. *)
Theorem cancellation_is_checked_at_model_load_only :
  (forall t0 es,
      let s := Recognizer.run (Recognizer.recognize t0) (Recognizer.Cleanup :: es) in
      Recognizer.completions (Recognizer.outputs s) = []
      /\ Recognizer.errors (Recognizer.outputs s) = [])
  /\ (exists r,
        Recognizer.completions
          (Recognizer.outputs
             (Recognizer.run (Recognizer.recognize 0) cancelWhilePreprocessing))
        = [r]
        /\ Recognizer.combinedText r = "11"%string)
  /\ (exists r,
        Recognizer.completions
          (Recognizer.outputs
             (Recognizer.run (Recognizer.recognize 0) cancelMidClassification))
        = [r]
        /\ Recognizer.combinedText r = "11"%string)
  /\ Recognizer.errors
       (Recognizer.outputs
          (Recognizer.run (Recognizer.recognize 0) cancelThenBlank))
     = ["No digits detected. Try adjusting the image or preprocessing."%string].
Proof.
  split; [apply cancelled_before_model_is_silent|].
  split; [eexists; split; vm_compute; reflexivity|].
  split; [eexists; split; vm_compute; reflexivity|].
  vm_compute. reflexivity.
Qed.

(** * Further properties *)

(** ** Flood fill: what a fill marks *)

Lemma pendingFrom_fresh img i n :
  pendingFrom img i (replicate n false)
  = length (List.filter (fgAt img) (seq i n)).
Proof.
  revert i. induction n as [|n IH]; intros i; simpl; [reflexivity|].
  rewrite IH. destruct (fgAt img i); reflexivity.
Qed.

Lemma pendingFrom_mark img i vis j :
  vis !! j = Some false -> fgAt img (i + j) = true ->
  S (pendingFrom img i (<[j := true]> vis)) = pendingFrom img i vis.
Proof.
  revert i j. induction vis as [|b vis IH]; intros i [|j] Hj Hfg; simpl in *;
    try discriminate.
  - injection Hj as ->. rewrite Nat.add_0_r in Hfg. rewrite Hfg. reflexivity.
  - rewrite <- (IH (S i) j Hj); [lia|].
    replace (S i + j)%nat with (i + S j)%nat by lia. exact Hfg.
Qed.

Lemma pending_none img i0 vis :
  (forall j, (j < length vis)%nat -> fgAt img (i0 + j) = true ->
             vis !! j = Some true) ->
  pendingFrom img i0 vis = 0%nat.
Proof.
  revert i0. induction vis as [|b vis IH]; intros i0 Hall; simpl; [reflexivity|].
  rewrite IH.
  - destruct b; simpl; [reflexivity|].
    destruct (fgAt img i0) eqn:E; [|reflexivity].
    specialize (Hall 0%nat ltac:(simpl; lia)). rewrite Nat.add_0_r in Hall.
    specialize (Hall E). discriminate.
  - intros j Hj Hfg. apply (Hall (S j)); [simpl; lia|].
    replace (i0 + S j)%nat with (S i0 + j)%nat by lia. exact Hfg.
Qed.

Lemma marks_refl vis : marks vis vis = 0%nat.
Proof.
  unfold marks. induction vis as [|b vis IH]; simpl; [reflexivity|].
  destruct b; simpl; exact IH.
Qed.

Lemma marks_insert before after j :
  before !! j = Some false -> after !! j = Some false ->
  marks before (<[j:=true]> after) = S (marks before after).
Proof.
  unfold marks. revert after j.
  induction before as [|b before IH]; intros [|a after] [|j]; simpl;
    try discriminate.
  - intros [= ->] [= ->]. reflexivity.
  - intros Hb Ha. specialize (IH after j Hb Ha).
    destruct (negb b && a); simpl; rewrite IH; reflexivity.
Qed.

Lemma seen_lookup vis i :
  seen vis i = true <-> 0 <= i /\ vis !! Z.to_nat i = Some true.
Proof.
  unfold seen, js_get. destruct (i <? 0) eqn:E.
  - apply Z.ltb_lt in E. split; [discriminate | lia].
  - apply Z.ltb_ge in E.
    destruct (vis !! Z.to_nat i) as [[]|]; split; try discriminate; auto.
    + intros [_ Hc]. discriminate.
    + intros [_ Hc]. discriminate.
Qed.

Lemma adjacent_pushed x y q :
  adjacent (x, y) q ->
  In q [(x - 1, y + 1); (x + 1, y - 1); (x - 1, y - 1); (x + 1, y + 1);
        (x, y - 1); (x, y + 1); (x - 1, y); (x + 1, y)].
Proof.
  destruct q as [x' y']. unfold adjacent. simpl. intros (Hne & Hx & Hy).
  assert (Hdx : x' = x - 1 \/ x' = x \/ x' = x + 1) by lia.
  assert (Hdy : y' = y - 1 \/ y' = y \/ y' = y + 1) by lia.
  destruct Hdx as [-> | [-> | ->]], Hdy as [-> | [-> | ->]];
    try (exfalso; apply Hne; reflexivity); auto 10.
Qed.

Lemma fold_left_seqZ_ind {A} (f : A -> Z -> A) (P : Z -> A -> Prop) n a :
  0 <= n -> P 0 a ->
  (forall i a, 0 <= i < n -> P i a -> P (i + 1) (f a i)) ->
  P n (fold_left f (seqZ 0 n) a).
Proof.
  intros Hn H0 Hstep.
  rewrite <- (Z2Nat.id n Hn) in *. clear Hn.
  induction (Z.to_nat n) as [|m IH].
  - exact H0.
  - rewrite seqZ_S, fold_left_app. simpl.
    replace (Z.of_nat (S m)) with (Z.of_nat m + 1) by lia.
    apply Hstep; [lia|]. apply IH.
    intros i a' Hi. apply Hstep. lia.
Qed.

Lemma inkOf_snoc fills s :
  inkOf (fills ++ [s]) = inkOf fills + DigitSegmentation.pixelCount s.
Proof.
  unfold inkOf. induction fills as [|s' fills IH]; simpl; [lia|].
  rewrite IH. lia.
Qed.

Lemma seen_insert_same vis i :
  0 <= i -> (Z.to_nat i < length vis)%nat ->
  seen (<[Z.to_nat i := true]> vis) i = true.
Proof.
  intros Hi Hlt. unfold seen, js_get.
  destruct (i <? 0) eqn:E; [apply Z.ltb_lt in E; lia|].
  rewrite list_lookup_insert_eq by exact Hlt. reflexivity.
Qed.

Lemma seen_insert_mono vis j i :
  seen vis i = true -> seen (<[j := true]> vis) i = true.
Proof.
  unfold seen, js_get. destruct (i <? 0); [discriminate|].
  destruct (decide (j = Z.to_nat i)) as [->|Hne].
  - destruct (vis !! Z.to_nat i) as [[]|] eqn:E; try discriminate.
    intros _. rewrite list_lookup_insert_eq; [reflexivity|].
    apply lookup_lt_Some in E. exact E.
  - rewrite list_lookup_insert_ne by exact Hne. auto.
Qed.

Lemma seen_insert_other vis j i :
  0 <= i -> j <> Z.to_nat i -> seen (<[j := true]> vis) i = seen vis i.
Proof.
  intros Hi Hne. unfold seen, js_get. destruct (i <? 0); [reflexivity|].
  rewrite list_lookup_insert_ne by exact Hne. reflexivity.
Qed.

Section MarkProofs.
Import DigitSegmentation.
Variable img : ImageData.t.
Let W := ImageData.width img.
Let H := ImageData.height img.
Let N := Z.to_nat (W * H).

Lemma isForeground_fgAt x y :
  inside img x y -> isForeground img x y = fgAt img (Z.to_nat (y * W + x)).
Proof.
  intros Hin. pose proof (inside_index img x y Hin) as Hi. fold W H in Hi.
  unfold isForeground, fgAt, js_get. fold W.
  destruct ((y * W + x) * 4 <? 0) eqn:E; [apply Z.ltb_lt in E; lia|].
  replace (Z.to_nat ((y * W + x) * 4)) with (Z.to_nat (y * W + x) * 4)%nat by lia.
  reflexivity.
Qed.

Lemma pixelIndex_inj p q :
  insideP img p -> insideP img q -> pixelIndex img p = pixelIndex img q -> p = q.
Proof.
  destruct p as [x y], q as [x' y']. unfold insideP, inside, pixelIndex. simpl.
  fold W H. intros Hp Hq He.
  assert (y = y') by nia. subst. f_equal. lia.
Qed.

(** One iteration, with the reason for which it only pops. *)
Lemma fillIter_step x y rest s :
  (fillIter img x y rest s
   = {| stack := rest; visited := visited s;
        minX := minX s; maxX := maxX s; minY := minY s; maxY := maxY s;
        pixelCount := pixelCount s |}
   /\ (~ inside img x y \/ seen (visited s) (y * W + x) = true
       \/ isForeground img x y = false))
  \/ (inside img x y /\ isForeground img x y = true
      /\ seen (visited s) (y * W + x) = false
      /\ fillIter img x y rest s
         = {| stack :=
                (x - 1, y + 1) :: (x + 1, y - 1) :: (x - 1, y - 1)
                  :: (x + 1, y + 1) :: (x, y - 1) :: (x, y + 1)
                  :: (x - 1, y) :: (x + 1, y) :: rest;
              visited := <[Z.to_nat (y * W + x) := true]> (visited s);
              minX := Z.min (minX s) x; maxX := Z.max (maxX s) x;
              minY := Z.min (minY s) y; maxY := Z.max (maxY s) y;
              pixelCount := pixelCount s + 1 |}).
Proof.
  unfold fillIter. fold W H. fold (seen (visited s) (y * W + x)).
  destruct ((x <? 0) || (W <=? x) || (y <? 0) || (H <=? y)) eqn:Hout.
  - left. split; [reflexivity|]. left. intros Hin.
    apply (outside_dec img) in Hin. fold W H in Hin. congruence.
  - apply (outside_dec img) in Hout.
    destruct (seen (visited s) (y * W + x)) eqn:Hseen; simpl.
    + left. auto.
    + destruct (isForeground img x y) eqn:Hfg; simpl.
      * right. auto.
      * left. auto.
Qed.

Lemma fillInv_start vis x y :
  length vis = N -> fillInv img vis (x, y) (fillStart vis x y).
Proof.
  intros Hlen. constructor; simpl.
  - exact Hlen.
  - exact Hlen.
  - auto.
  - intros p _ Hs Hn. contradiction.
  - intros p q _ Hs Hn. contradiction.
  - split; [left; left; reflexivity | lia].
  - lia.
  - rewrite marks_refl. reflexivity.
Qed.

Lemma fillInv_iter vis0 p0 x y rest s :
  fillInv img vis0 p0 s -> stack s = (x, y) :: rest ->
  fillInv img vis0 p0 (fillIter img x y rest s).
Proof.
  intros [Hlen0 Hlen Hmono Hmarked Hfront [Hseed Hbox] Hcount Hmarks] Hstack.
  destruct (fillIter_step x y rest s)
    as [[-> Hwhy] | (Hin & Hfg & Hseen & ->)].
  - (* only pops *)
    constructor; simpl; auto.
    + intros p q Hp Hs Hn Hadj.
      destruct (Hfront p q Hp Hs Hn Hadj) as [Hq | Hq]; [|auto].
      rewrite Hstack in Hq. destruct Hq as [<- | Hq]; [|auto].
      right. unfold insideP, seenAt, foregroundP, pixelIndex. simpl. fold W.
      destruct Hwhy as [Hw | [Hw | Hw]]; [auto | auto | right; right; congruence].
    + split; [|exact Hbox].
      destruct Hseed as [Hq | Hq]; [|auto].
      rewrite Hstack in Hq. destruct Hq as [<- | Hq]; [|auto].
      right. unfold insideP, seenAt, foregroundP, pixelIndex. simpl. fold W.
      destruct Hwhy as [Hw | [Hw | Hw]]; [auto | auto | right; right; congruence].
  - (* visits (x, y) *)
    pose proof (inside_index img x y Hin) as Hidx. fold W H in Hidx.
    assert (Hlt : (Z.to_nat (y * W + x) < length (visited s))%nat)
      by (rewrite Hlen; unfold N; lia).
    assert (Hfalse : visited s !! Z.to_nat (y * W + x) = Some false).
    { unfold seen, js_get in Hseen.
      destruct (y * W + x <? 0) eqn:E; [apply Z.ltb_lt in E; lia|].
      destruct (visited s !! Z.to_nat (y * W + x)) as [[]|] eqn:E';
        [discriminate | reflexivity |].
      apply lookup_ge_None in E'. lia. }
    assert (Hnew : forall p,
               insideP img p ->
               seenAt img (<[Z.to_nat (y * W + x) := true]> (visited s)) p ->
               p = (x, y) \/ seenAt img (visited s) p).
    { intros p Hp Hs.
      destruct (decide (pixelIndex img p = pixelIndex img (x, y))) as [He | Hne].
      - left. apply pixelIndex_inj; assumption.
      - right. unfold seenAt in *. rewrite seen_insert_other in Hs; [exact Hs | |].
        + destruct p as [px py]. unfold insideP in Hp.
          pose proof (inside_index img px py Hp). unfold pixelIndex. simpl. lia.
        + unfold pixelIndex in Hne. simpl in Hne. fold W in Hne.
          destruct p as [px py]. unfold insideP in Hp.
          pose proof (inside_index img px py Hp) as Hi. fold W H in Hi.
          simpl in *. unfold pixelIndex. simpl. fold W. lia. }
    constructor; simpl.
    + exact Hlen0.
    + rewrite length_insert. exact Hlen.
    + intros i Hi. apply seen_insert_mono. auto.
    + intros p Hp Hs Hn. destruct (Hnew p Hp Hs) as [-> | Hs'].
      * simpl. unfold foregroundP. simpl. split; [exact Hfg | lia].
      * destruct (Hmarked p Hp Hs' Hn) as (Hf & Hbx & Hby). split; [exact Hf | lia].
    + intros p q Hp Hs Hn Hadj. destruct (Hnew p Hp Hs) as [-> | Hs'].
      * left. apply adjacent_pushed in Hadj. simpl in Hadj. simpl. tauto.
      * destruct (Hfront p q Hp Hs' Hn Hadj) as [Hq | [Hq | [Hq | Hq]]]; auto.
        -- rewrite Hstack in Hq. destruct Hq as [<- | Hq].
           ++ right. right. left. unfold seenAt, pixelIndex. simpl. fold W.
              apply seen_insert_same; lia.
           ++ left. simpl. auto 12.
        -- right. right. left. unfold seenAt in *. apply seen_insert_mono. exact Hq.
    + split; [|lia].
      destruct Hseed as [Hq | [Hq | Hq]]; auto.
      * rewrite Hstack in Hq. destruct Hq as [<- | Hq].
        -- right. left. unfold seenAt, pixelIndex. simpl. fold W.
           apply seen_insert_same; lia.
        -- left. simpl. auto 12.
      * right. left. unfold seenAt in *. apply seen_insert_mono. exact Hq.
    + rewrite <- Hcount.
      assert (Hf' : fgAt img (0 + Z.to_nat (y * W + x)) = true).
      { simpl. rewrite <- (isForeground_fgAt x y Hin). exact Hfg. }
      pose proof (pendingFrom_mark img 0 (visited s) _ Hfalse Hf'). lia.
    + assert (Hfalse0 : vis0 !! Z.to_nat (y * W + x) = Some false).
      { destruct (vis0 !! Z.to_nat (y * W + x)) as [[]|] eqn:E0.
        - assert (Hs0 : seen vis0 (y * W + x) = true).
          { unfold seen, js_get.
            destruct (y * W + x <? 0) eqn:E; [apply Z.ltb_lt in E; lia|].
            rewrite E0. reflexivity. }
          apply Hmono in Hs0. congruence.
        - reflexivity.
        - apply lookup_ge_None in E0. unfold N in *. lia. }
      rewrite (marks_insert _ _ _ Hfalse0 Hfalse). lia.
Qed.

Lemma fill_ends vis x y :
  length vis = N ->
  exists s, fillLoop img (fillFuel img) (fillStart vis x y) = Some s
            /\ stack s = [] /\ fillInv img vis (x, y) s.
Proof.
  intros Hlen. destruct (floodFill_total img vis x y Hlen) as (s & Hs & _).
  exists s. split; [exact Hs|].
  destruct (fillLoop_invariant img (fillInv img vis (x, y))
              (fun x1 y1 rest s1 => fillInv_iter vis (x, y) x1 y1 rest s1)
              _ _ _ (fillInv_start vis x y Hlen) Hs) as [Hinv Hst].
  auto.
Qed.
End MarkProofs.

(** ** The scan: how many components, and what they count *)

Section CountProofs.
Import DigitSegmentation.
Variable img : ImageData.t.
Let W := ImageData.width img.
Let H := ImageData.height img.
Let N := Z.to_nat (W * H).

(** Scanning with an invariant [Q] on the marks and the boxes collected. *)
Lemma scan_invariant_marks (Q : list bool -> list BoundingBox.t -> Prop) :
  (forall vis x y s cs,
      inside img x y -> isForeground img x y = true -> length vis = N ->
      fillLoop img (fillFuel img) (fillStart vis x y) = Some s ->
      Q vis cs ->
      Q (visited s) (if rejected img s then cs else cs ++ [boxOf s])) ->
  Q (replicate N false) [] ->
  exists vis cs, findComponents img = Some cs /\ Q vis cs.
Proof.
  intros Hfill Hnil. unfold findComponents. fold W H.
  set (P := fun acc : option (list bool * list BoundingBox.t) =>
              exists vis cs, acc = Some (vis, cs) /\ length vis = N /\ Q vis cs).
  assert (HP : P (fold_left (scanRow img) (seqZ 0 H)
                    (Some (replicate (Z.to_nat (W * H)) false, [])))).
  { apply fold_left_inv.
    - intros acc y Hy Hacc. unfold scanRow. fold W.
      apply fold_left_inv; [|exact Hacc].
      clear acc Hacc. intros acc x Hx (vis & cs & -> & Hlen & HQ).
      apply In_seqZ in Hx, Hy.
      unfold scanPixel. fold W.
      destruct (negb _ && isForeground img x y) eqn:Htest.
      + apply andb_true_iff in Htest. destruct Htest as [_ Hfg].
        destruct (floodFill_total img vis x y Hlen) as (s & Hs & Hlen').
        unfold floodFill. rewrite Hs.
        specialize (Hfill vis x y s cs (conj Hx Hy) Hfg Hlen Hs HQ).
        destruct (rejected img s); exists (visited s); eexists; eauto.
      + exists vis, cs. auto.
    - exists (replicate (Z.to_nat (W * H)) false), [].
      split; [reflexivity|]. split; [apply length_replicate | exact Hnil]. }
  destruct HP as (vis & cs & -> & _ & HQ). eauto.
Qed.

Lemma accepted_pixelCount s : rejected img s = false -> 50 <= pixelCount s.
Proof.
  unfold rejected. intros Hr.
  apply orb_false_iff in Hr. destruct Hr as [Hr _].
  apply orb_false_iff in Hr. destruct Hr as [Hr _].
  apply orb_false_iff in Hr. destruct Hr as [Hr _].
  apply Z.ltb_ge in Hr. exact Hr.
Qed.

Lemma findComponents_count :
  exists cs, findComponents img = Some cs
             /\ (50 * length cs <= foregroundCount img)%nat.
Proof.
  destruct (scan_invariant_marks
              (fun vis cs =>
                 (50 * length cs + pendingFrom img 0 vis <= foregroundCount img)%nat))
    as (vis & cs & Hcs & Hle).
  - intros vis x y s cs Hin Hfg Hlen Hs HQ.
    destruct (fill_ends img vis x y Hlen) as (s' & Hs' & _ & Hinv).
    fold W H in Hs, Hs'. rewrite Hs in Hs'. injection Hs' as <-.
    pose proof (inv_count img _ _ _ Hinv) as Hc.
    destruct (rejected img s) eqn:Hr.
    + assert (0 <= pixelCount s)
        by (rewrite (inv_marks img _ _ _ Hinv); lia).
      lia.
    + apply accepted_pixelCount in Hr. rewrite length_app. simpl. lia.
  - rewrite pendingFrom_fresh. simpl. unfold foregroundCount. fold W H N. lia.
  - exists cs. split; [exact Hcs | lia].
Qed.
End CountProofs.

Section PartitionProofs.
Import DigitSegmentation.
Variable img : ImageData.t.
Let W := ImageData.width img.
Let H := ImageData.height img.
Let N := Z.to_nat (W * H).

Lemma scanInv_pixel x y acc :
  inside img x y -> scanInv img (y * W + x) acc ->
  scanInv img (y * W + x + 1) (scanPixelFills img y acc x).
Proof.
  intros Hin (vis & fills & -> & Hlen & Hsc & Hink).
  pose proof (inside_index img x y Hin) as Hidx. fold W H in Hidx.
  unfold scanPixelFills. fold W. fold (seen vis (y * W + x)).
  destruct (negb (seen vis (y * W + x)) && isForeground img x y) eqn:Htest.
  - apply andb_true_iff in Htest. destruct Htest as [_ Hfg].
    destruct (fill_ends img vis x y Hlen) as (s & Hs & Hst & Hinv).
    rewrite Hs. exists (visited s), (fills ++ [s]).
    split; [reflexivity|]. split; [apply (inv_length img _ _ _ Hinv)|]. split.
    + intros i Hi Hfi.
      assert (Hseen : seen (visited s) (Z.of_nat i) = true).
      { destruct (decide (Z.of_nat i = y * W + x)) as [He | Hne].
        - destruct (inv_seed img _ _ _ Hinv) as [Hseed _].
          rewrite Hst in Hseed. rewrite He.
          destruct Hseed as [[] | [Hq | [Hq | Hq]]]; [exact Hq | |];
            exfalso; apply Hq; assumption.
        - apply (inv_mono img _ _ _ Hinv). apply seen_lookup.
          split; [lia|]. rewrite Nat2Z.id. apply Hsc; [lia | exact Hfi]. }
      apply seen_lookup in Hseen. rewrite Nat2Z.id in Hseen. apply Hseen.
    + rewrite inkOf_snoc. pose proof (inv_count img _ _ _ Hinv). lia.
  - exists vis, fills. split; [reflexivity|]. split; [exact Hlen|].
    split; [|exact Hink].
    intros i Hi Hfi.
    destruct (decide (Z.of_nat i = y * W + x)) as [He | Hne];
      [|apply Hsc; [lia | exact Hfi]].
    apply andb_false_iff in Htest. destruct Htest as [Hs | Hf].
    + apply negb_false_iff, seen_lookup in Hs. rewrite <- He, Nat2Z.id in Hs.
      apply Hs.
    + rewrite (isForeground_fgAt img x y Hin) in Hf. fold W in Hf.
      rewrite <- He, Nat2Z.id in Hf. congruence.
Qed.

(** X4: the scan of [segmentDigits] partitions the foreground: over all the
    components that it flood-fills, rejected or not, the pixel counts add up
    to the number of foreground pixels of the raster, each foreground pixel
    being counted by exactly one fill. *)
Theorem components_partition_foreground :
  0 <= ImageData.width img -> 0 <= ImageData.height img ->
  exists fills,
    allFills img = Some fills /\ inkOf fills = Z.of_nat (foregroundCount img).
Proof.
  intros HW HH. fold W in HW. fold H in HH. unfold allFills. fold W H.
  assert (Hend : scanInv img (H * W)
                   (fold_left
                      (fun acc y =>
                         fold_left (scanPixelFills img y) (seqZ 0 W) acc)
                      (seqZ 0 H) (Some (replicate (Z.to_nat (W * H)) false, [])))).
  { apply (fold_left_seqZ_ind _ (fun y => scanInv img (y * W))); [exact HH | |].
    - exists (replicate (Z.to_nat (W * H)) false), [].
      split; [reflexivity|]. split; [apply length_replicate|]. split.
      + intros i Hi. lia.
      + rewrite pendingFrom_fresh. unfold foregroundCount, inkOf. fold W H.
        simpl. lia.
    - intros y acc Hy Hacc.
      replace ((y + 1) * W) with (y * W + W) by lia.
      apply (fold_left_seqZ_ind _ (fun x => scanInv img (y * W + x))); [exact HW | |].
      + rewrite Z.add_0_r. exact Hacc.
      + intros x acc' Hx Hacc'.
        replace (y * W + (x + 1)) with (y * W + x + 1) by lia.
        apply scanInv_pixel; [split; assumption | exact Hacc']. }
  destruct Hend as (vis & fills & -> & Hlen & Hsc & Hink).
  exists fills. split; [reflexivity|].
  rewrite (pending_none img 0 vis) in Hink; [lia|].
  intros j Hj Hfj. apply Hsc; [|exact Hfj]. rewrite Hlen in Hj. unfold N in Hj. lia.
Qed.
End PartitionProofs.

(** X1: a flood fill started on an array that has one entry per pixel ends;
    it keeps the length of the array and every mark that was set; every
    pixel that it marks is a foreground pixel and lies within the bounds
    that it returns; and its pixel count is the number of entries that it
    marked. *)
Theorem floodFill_marks img vis x y :
  length vis = Z.to_nat (ImageData.width img * ImageData.height img) ->
  exists s,
    DigitSegmentation.fillLoop img (DigitSegmentation.fillFuel img)
      (DigitSegmentation.fillStart vis x y) = Some s
    /\ DigitSegmentation.floodFill img vis x y
       = Some (DigitSegmentation.visited s,
               if DigitSegmentation.rejected img s then None
               else Some (DigitSegmentation.boxOf s))
    /\ length (DigitSegmentation.visited s) = length vis
    /\ (forall i, seen vis i = true ->
                  seen (DigitSegmentation.visited s) i = true)
    /\ (forall p,
          insideP img p -> seenAt img (DigitSegmentation.visited s) p ->
          ~ seenAt img vis p ->
          foregroundP img p
          /\ DigitSegmentation.minX s <= fst p <= DigitSegmentation.maxX s
          /\ DigitSegmentation.minY s <= snd p <= DigitSegmentation.maxY s)
    /\ DigitSegmentation.pixelCount s
       = Z.of_nat (marks vis (DigitSegmentation.visited s)).
Proof.
  intros Hlen. destruct (fill_ends img vis x y Hlen) as (s & Hs & _ & Hinv).
  exists s. split; [exact Hs|].
  split; [unfold DigitSegmentation.floodFill; rewrite Hs; reflexivity|].
  destruct Hinv as [Hl0 Hl Hmono Hmarked _ _ _ Hmarks].
  split; [congruence|]. auto.
Qed.

Lemma floodFill_marks_witness :
  length (replicate 400 false)
  = Z.to_nat (ImageData.width speck * ImageData.height speck)
  /\ exists s,
       DigitSegmentation.fillLoop speck (DigitSegmentation.fillFuel speck)
         (DigitSegmentation.fillStart (replicate 400 false) 5 5) = Some s
       /\ DigitSegmentation.pixelCount s
          = Z.of_nat (marks (replicate 400 false) (DigitSegmentation.visited s)).
Proof.
  split; [reflexivity|].
  destruct (floodFill_marks speck (replicate 400 false) 5 5 eq_refl)
    as (s & Hs & _ & _ & _ & _ & Hc).
  exists s. split; [exact Hs | exact Hc].
Defined.

(** X2: a flood fill started on a foreground pixel of the raster marks that
    pixel, and what it marks is closed under 8-connectivity: a foreground
    pixel of the raster that touches, by a side or by a corner, a pixel
    marked by the fill is marked when the fill returns. *)
Theorem floodFill_closed img vis x y :
  length vis = Z.to_nat (ImageData.width img * ImageData.height img) ->
  inside img x y -> DigitSegmentation.isForeground img x y = true ->
  exists vis' r,
    DigitSegmentation.floodFill img vis x y = Some (vis', r)
    /\ seenAt img vis' (x, y)
    /\ forall p q,
         insideP img p -> seenAt img vis' p -> ~ seenAt img vis p ->
         adjacent p q -> insideP img q -> foregroundP img q ->
         seenAt img vis' q.
Proof.
  intros Hlen Hin Hfg.
  destruct (fill_ends img vis x y Hlen) as (s & Hs & Hst & Hinv).
  exists (DigitSegmentation.visited s),
    (if DigitSegmentation.rejected img s then None
     else Some (DigitSegmentation.boxOf s)).
  split; [unfold DigitSegmentation.floodFill; rewrite Hs; reflexivity|].
  destruct Hinv as [_ _ _ _ Hfront [Hseed _] _ _].
  rewrite Hst in *. split.
  - destruct Hseed as [[] | [Hq | [Hq | Hq]]]; [exact Hq | |];
      exfalso; apply Hq; assumption.
  - intros p q Hp Hs' Hn Hadj Hq Hfq.
    destruct (Hfront p q Hp Hs' Hn Hadj) as [[] | [Hc | [Hc | Hc]]];
      [contradiction | exact Hc | contradiction].
Qed.

Lemma floodFill_closed_witness :
  length (replicate 400 false)
  = Z.to_nat (ImageData.width speck * ImageData.height speck)
  /\ inside speck 5 5
  /\ DigitSegmentation.isForeground speck 5 5 = true
  /\ exists vis' r,
       DigitSegmentation.floodFill speck (replicate 400 false) 5 5
       = Some (vis', r)
       /\ seenAt speck vis' (5, 5).
Proof.
  split; [reflexivity|].
  split; [unfold inside; simpl; lia|].
  split; [reflexivity|].
  destruct (floodFill_closed speck (replicate 400 false) 5 5 eq_refl)
    as (vis' & r & Hf & Hseed & _).
  - unfold inside. simpl. lia.
  - reflexivity.
  - exists vis', r. split; [exact Hf | exact Hseed].
Defined.

(** X3: on every raster, [segmentDigits] returns at most one segment for
    every 50 foreground pixels; a raster with fewer than 50 foreground
    pixels has no segment. *)
Theorem segmentDigits_count_bound img :
  exists segs,
    DigitSegmentation.segmentDigits img = Some segs
    /\ (50 * length segs <= foregroundCount img)%nat.
Proof.
  destruct (findComponents_count img) as (cs & Hcs & Hle).
  unfold DigitSegmentation.segmentDigits. rewrite Hcs.
  eexists. split; [reflexivity|].
  rewrite length_map.
  rewrite (Permutation_length (js_sort_perm _ cs)). exact Hle.
Qed.

Lemma components_partition_foreground_witness :
  0 <= ImageData.width stackedBlobs
  /\ 0 <= ImageData.height stackedBlobs
  /\ exists fills,
       allFills stackedBlobs = Some fills
       /\ inkOf fills = Z.of_nat (foregroundCount stackedBlobs).
Proof.
  split; [simpl; lia|]. split; [simpl; lia|].
  apply (components_partition_foreground stackedBlobs); simpl; lia.
Defined.

(** ** Column segmentation *)

Lemma half_centred (size w : Z) :
  (((size - w) # 2) * 2 + inject_Z w == inject_Z size)%Q.
Proof.
  unfold Qeq, Qmult, Qplus, inject_Z. simpl. lia.
Qed.

(** X5: for a positive count [n] of expected digits, [segmentDigitsSimple]
    returns exactly [n] segments; the segment [i] is the column of width
    [floor(width / n)] at [i * floor(width / n)], over the whole height,
    centred in a square patch whose side is the larger of that width and the
    height; the columns lie side by side from the left edge and leave fewer
    than [n] columns of pixels uncovered at the right. *)
Theorem segmentDigitsSimple_bands img n :
  0 < n -> 0 <= ImageData.width img ->
  let digitWidth := ImageData.width img / n in
  exists segs,
    DigitSegmentation.segmentDigitsSimple img (Some n) = Some segs
    /\ Z.of_nat (length segs) = n
    /\ (forall i, 0 <= i < n ->
          exists s, segs !! Z.to_nat i = Some s /\ columnBand img digitWidth i s)
    /\ 0 <= digitWidth
    /\ n * digitWidth <= ImageData.width img < n * digitWidth + n.
Proof.
  intros Hn Hw digitWidth. unfold DigitSegmentation.segmentDigitsSimple.
  destruct (n =? 0) eqn:E; [apply Z.eqb_eq in E; lia|].
  eexists. split; [reflexivity|]. fold digitWidth.
  split; [rewrite length_map, length_seqZ; lia|]. split.
  - intros i Hi. exists (DigitSegmentation.band img digitWidth i). split.
    + rewrite list_lookup_fmap.
      rewrite (proj2 (lookup_seqZ 0 n (Z.to_nat i) i)) by lia. reflexivity.
    + unfold columnBand, DigitSegmentation.band. simpl.
      repeat split; apply half_centred.
  - pose proof (Z.div_pos _ n Hw Hn) as Hpos.
    pose proof (Z.mul_div_le (ImageData.width img) n Hn) as Hle.
    pose proof (Z.mul_succ_div_gt (ImageData.width img) n Hn) as Hgt.
    fold digitWidth in Hpos, Hle, Hgt. lia.
Qed.

Lemma segmentDigitsSimple_bands_witness :
  0 < 4
  /\ 0 <= ImageData.width cornerBlob
  /\ exists segs,
       DigitSegmentation.segmentDigitsSimple cornerBlob (Some 4) = Some segs
       /\ Z.of_nat (length segs) = 4.
Proof.
  split; [lia|]. split; [simpl; lia|].
  destruct (segmentDigitsSimple_bands cornerBlob 4 eq_refl)
    as (segs & H1 & H2 & _).
  - simpl. lia.
  - exists segs. split; [exact H1 | exact H2].
Defined.

(** ** The order of doubles, and the class that [predictDigit] picks *)

Lemma SFleb_trans x y z :
  SFleb x y = true -> SFleb y z = true -> SFleb x z = true.
Proof.
  unfold SFleb.
  destruct x as [[]|[]| |[] mx ex], y as [[]|[]| |[] my ey],
    z as [[]|[]| |[] mz ez]; simpl; try congruence;
    change (PosDef.Pos.compare_cont Eq mx my) with (mx ?= my)%positive;
    change (PosDef.Pos.compare_cont Eq my mz) with (my ?= mz)%positive;
    change (PosDef.Pos.compare_cont Eq mx mz) with (mx ?= mz)%positive;
    destruct (Z.compare_spec ex ey), (Z.compare_spec ey ez),
      (Z.compare_spec ex ez); simpl; try congruence; try lia; subst;
    destruct (Pos.compare_spec mx my), (Pos.compare_spec my mz),
      (Pos.compare_spec mx mz); simpl; try congruence; try lia.
Qed.

Lemma SFleb_total x y :
  x <> S754_nan -> y <> S754_nan -> SFleb x y = true \/ SFleb y x = true.
Proof.
  intros Hx Hy. unfold SFleb.
  destruct (SFcompare x y) as [c|] eqn:E.
  - rewrite (SFcompare_antisym _ _ _ E). destruct c; simpl; auto.
  - destruct x, y; simpl in E; congruence.
Qed.

Lemma SFltb_leb x y :
  x <> S754_nan -> y <> S754_nan -> SFltb x y = negb (SFleb y x).
Proof.
  intros Hx Hy. unfold SFltb, SFleb.
  destruct (SFcompare x y) as [c|] eqn:E.
  - rewrite (SFcompare_antisym _ _ _ E). destruct c; reflexivity.
  - destruct x, y; simpl in E; congruence.
Qed.

Lemma SFeqb_leb x y : SFeqb x y = SFleb x y && SFleb y x.
Proof.
  unfold SFeqb, SFleb.
  destruct (SFcompare x y) as [c|] eqn:E.
  - rewrite (SFcompare_antisym _ _ _ E). destruct c; reflexivity.
  - reflexivity.
Qed.

Lemma not_nan_SF v : is_nan v = false -> Prim2SF v <> S754_nan.
Proof. rewrite is_nan_spec. destruct (Prim2SF v); congruence. Qed.

Lemma leb_trans a b c :
  (a <=? b)%float = true -> (b <=? c)%float = true -> (a <=? c)%float = true.
Proof. rewrite !FloatAxioms.leb_spec. apply SFleb_trans. Qed.

Lemma leb_total a b :
  is_nan a = false -> is_nan b = false ->
  (a <=? b)%float = true \/ (b <=? a)%float = true.
Proof.
  intros Ha Hb. rewrite !FloatAxioms.leb_spec.
  apply SFleb_total; apply not_nan_SF; assumption.
Qed.

Lemma ltb_leb a b :
  is_nan a = false -> is_nan b = false -> (a <? b)%float = negb (b <=? a)%float.
Proof.
  intros Ha Hb. rewrite FloatAxioms.ltb_spec, FloatAxioms.leb_spec.
  apply SFltb_leb; apply not_nan_SF; assumption.
Qed.

Lemma eqb_leb a b : (a =? b)%float = ((a <=? b)%float && (b <=? a)%float).
Proof.
  rewrite FloatAxioms.eqb_spec, !FloatAxioms.leb_spec. apply SFeqb_leb.
Qed.

Lemma leb_refl a : is_nan a = false -> (a <=? a)%float = true.
Proof. intros Ha. destruct (leb_total a a Ha Ha); assumption. Qed.

Lemma leb_not_nan a b : (a <=? b)%float = true -> is_nan a = false /\ is_nan b = false.
Proof.
  rewrite FloatAxioms.leb_spec, !is_nan_spec. unfold SFleb.
  destruct (Prim2SF a), (Prim2SF b); simpl; auto; discriminate.
Qed.

Lemma Math_max_spec a b :
  is_nan a = false -> is_nan b = false ->
  (Math_max a b = a \/ Math_max a b = b)
  /\ (a <=? Math_max a b)%float = true /\ (b <=? Math_max a b)%float = true.
Proof.
  intros Ha Hb. unfold Math_max. rewrite Ha, Hb. simpl.
  rewrite (ltb_leb a b Ha Hb), (ltb_leb b a Hb Ha).
  pose proof (leb_refl a Ha). pose proof (leb_refl b Hb).
  destruct (b <=? a)%float eqn:Eba, (a <=? b)%float eqn:Eab; simpl; auto.
  - destruct (Prim2SF a) as [[]| | |]; auto.
  - destruct (leb_total a b Ha Hb); congruence.
Qed.

Lemma Math_max_nan a b :
  is_nan a = true \/ is_nan b = true -> is_nan (Math_max a b) = true.
Proof.
  intros Hn. unfold Math_max.
  destruct Hn as [-> | ->]; rewrite ?orb_true_r; reflexivity.
Qed.

Lemma maxOf_from acc ps :
  is_nan acc = false -> nanFree ps ->
  let m := fold_left Math_max ps acc in
  is_nan m = false /\ (acc <=? m)%float = true
  /\ Forall (fun q => (q <=? m)%float = true) ps
  /\ (m = acc \/ In m ps).
Proof.
  revert acc. induction ps as [|p ps IH]; intros acc Hacc Hps; simpl.
  - split; [exact Hacc|]. split; [apply leb_refl, Hacc|]. split; [constructor | auto].
  - inversion Hps as [|? ? Hp Hps']; subst.
    destruct (Math_max_spec acc p Hacc Hp) as (Hor & Hle1 & Hle2).
    assert (Hn : is_nan (Math_max acc p) = false)
      by (destruct Hor as [-> | ->]; assumption).
    destruct (IH (Math_max acc p) Hn Hps') as (Hm & Hle & Hall & Hin).
    split; [exact Hm|]. split; [eapply leb_trans; eassumption|]. split.
    + constructor; [eapply leb_trans; eassumption | exact Hall].
    + destruct Hin as [-> | Hin]; [|auto].
      destruct Hor as [-> | ->]; auto.
Qed.

Lemma maxOf_nan acc ps :
  is_nan acc = true \/ hasNaN ps -> is_nan (fold_left Math_max ps acc) = true.
Proof.
  revert acc. induction ps as [|p ps IH]; intros acc Hn; simpl.
  - destruct Hn as [Hn | Hn]; [exact Hn | inversion Hn].
  - apply IH. destruct Hn as [Hn | Hn].
    + left. apply Math_max_nan. auto.
    + inversion Hn; subst; [left; apply Math_max_nan; auto | right; assumption].
Qed.

Lemma neg_infinity_least a : is_nan a = false -> (neg_infinity <=? a)%float = true.
Proof.
  intros Ha. rewrite FloatAxioms.leb_spec.
  rewrite is_nan_spec in Ha. unfold SFleb.
  change (Prim2SF neg_infinity) with (S754_infinity true).
  destruct (Prim2SF a) as [| [] | |]; simpl; congruence.
Qed.

Lemma eqb_nan_r p v : is_nan v = true -> (p =? v)%float = false.
Proof.
  rewrite is_nan_spec, FloatAxioms.eqb_spec. unfold SFeqb.
  destruct (Prim2SF v); try discriminate. intros _.
  destruct (Prim2SF p); reflexivity.
Qed.

Lemma indexOfFrom_nan v ps i :
  is_nan v = true -> MnistModel.indexOfFrom v ps i = -1.
Proof.
  intros Hv. revert i. induction ps as [|p ps IH]; intros i; simpl; [reflexivity|].
  rewrite (eqb_nan_r p v Hv). apply IH.
Qed.

Lemma indexOfFrom_first v ps i :
  Exists (fun p => (p =? v)%float = true) ps ->
  exists k p,
    MnistModel.indexOfFrom v ps i = i + Z.of_nat k
    /\ ps !! k = Some p /\ (p =? v)%float = true
    /\ forall j q, (j < k)%nat -> ps !! j = Some q -> (q =? v)%float = false.
Proof.
  revert i. induction ps as [|p ps IH]; intros i Hex; [inversion Hex|]. simpl.
  destruct (p =? v)%float eqn:E.
  - exists 0%nat, p. repeat split; [lia | exact E | intros; lia].
  - inversion Hex as [? ? Hp | ? ? Hex']; subst; [congruence|].
    destruct (IH (i + 1) Hex') as (k & p' & Hidx & Hk & Hp' & Hfirst).
    exists (S k), p'. split; [lia|]. split; [exact Hk|]. split; [exact Hp'|].
    intros [|j] q Hj Hq; simpl in Hq; [congruence|].
    apply (Hfirst j q); [lia | exact Hq].
Qed.

(** The maximum of a non-empty array without NaN is not NaN, bounds every
    entry and is strictly equal to one of them: [indexOf] finds it. *)
Lemma maximum_found ps :
  ps <> [] -> nanFree ps ->
  Forall (fun q => (q <=? MnistModel.maxOf ps)%float = true) ps
  /\ exists k p,
       MnistModel.indexOf ps (MnistModel.maxOf ps) = Z.of_nat k
       /\ ps !! k = Some p /\ (p =? MnistModel.maxOf ps)%float = true
       /\ forall j q, (j < k)%nat -> ps !! j = Some q ->
                      (q =? MnistModel.maxOf ps)%float = false.
Proof.
  intros Hne Hps.
  destruct (maxOf_from neg_infinity ps eq_refl Hps) as (Hm & _ & Hall & Hin).
  fold (MnistModel.maxOf ps) in Hm, Hall, Hin.
  split; [exact Hall|].
  assert (Hex : Exists (fun p => (p =? MnistModel.maxOf ps)%float = true) ps).
  { destruct Hin as [Heq | Hin].
    - destruct ps as [|p ps]; [congruence|]. apply Exists_cons_hd.
      inversion Hall as [|? ? Hp _]; subst.
      inversion Hps as [|? ? Hnp _]; subst.
      rewrite eqb_leb, Hp. rewrite Heq. simpl. apply neg_infinity_least, Hnp.
    - apply List.Exists_exists. exists (MnistModel.maxOf ps). split; [exact Hin|].
      rewrite eqb_leb, (leb_refl _ Hm). reflexivity. }
  destruct (indexOfFrom_first _ ps 0 Hex) as (k & p & Hidx & Hk & Hp & Hfirst).
  exists k, p. unfold MnistModel.indexOf. rewrite Hidx, Z.add_0_l. auto.
Qed.

(** X6: when the model's output is not empty and holds no NaN,
    [predictDigit] reports a class of the output: no entry is greater than
    the entry of that class, every entry before it is smaller (so the digit is
    the first class of maximal probability), and the confidence is 100 times
    that entry. *)
Theorem tidyPrediction_argmax ps :
  ps <> [] -> nanFree ps ->
  exists k p,
    MnistModel.digit (MnistModel.tidyPrediction ps) = Z.of_nat k
    /\ ps !! k = Some p
    /\ MnistModel.confidence (MnistModel.tidyPrediction ps) = (p * 100)%float
    /\ Forall (fun q => (q <=? p)%float = true) ps
    /\ forall j q, (j < k)%nat -> ps !! j = Some q -> (q <? p)%float = true.
Proof.
  intros Hne Hps.
  destruct (maximum_found ps Hne Hps)
    as (Hall & k & p & Hidx & Hk & Hp & Hfirst).
  rewrite eqb_leb in Hp. apply andb_true_iff in Hp. destruct Hp as [Hpm Hmp].
  exists k, p. unfold MnistModel.tidyPrediction. simpl.
  rewrite Hidx. split; [reflexivity|]. split; [exact Hk|]. split.
  - unfold js_get. destruct (Z.of_nat k <? 0) eqn:E; [apply Z.ltb_lt in E; lia|].
    rewrite Nat2Z.id, Hk. reflexivity.
  - split.
    + eapply List.Forall_impl; [|exact Hall].
      intros q Hq. simpl in Hq. eapply leb_trans; eassumption.
    + intros j q Hj Hq.
      assert (Hqm : (q <=? MnistModel.maxOf ps)%float = true).
      { exact (Forall_lookup_1 _ _ _ _ Hall Hq). }
      pose proof (Hfirst j q Hj Hq) as Hneq. rewrite eqb_leb, Hqm in Hneq.
      simpl in Hneq.
      destruct (leb_not_nan _ _ Hqm) as [Hnq _].
      destruct (leb_not_nan _ _ Hpm) as [Hnp _].
      rewrite (ltb_leb q p Hnq Hnp).
      destruct (p <=? q)%float eqn:Epq; [|reflexivity].
      rewrite (leb_trans _ _ _ Hmp Epq) in Hneq. discriminate.
Qed.

Lemma tidyPrediction_argmax_witness :
  sureOfOne <> []
  /\ nanFree sureOfOne
  /\ exists k p,
       MnistModel.digit (MnistModel.tidyPrediction sureOfOne) = Z.of_nat k
       /\ sureOfOne !! k = Some p.
Proof.
  split; [discriminate|]. split; [repeat constructor|].
  destruct (tidyPrediction_argmax sureOfOne) as (k & p & Hk & Hp & _).
  - discriminate.
  - repeat constructor.
  - exists k, p. split; [exact Hk | exact Hp].
Defined.

(** X7: [predictDigit] reports the digit -1 exactly when the model's output
    is empty or holds a NaN, and its confidence is then NaN. *)
Theorem tidyPrediction_no_digit ps :
  (ps = [] \/ hasNaN ps ->
   MnistModel.digit (MnistModel.tidyPrediction ps) = -1
   /\ is_nan (MnistModel.confidence (MnistModel.tidyPrediction ps)) = true)
  /\ (MnistModel.digit (MnistModel.tidyPrediction ps) = -1 ->
      ps = [] \/ hasNaN ps).
Proof.
  split.
  - intros Hn.
    assert (Hd : MnistModel.digit (MnistModel.tidyPrediction ps) = -1).
    { destruct Hn as [-> | Hn]; [reflexivity|].
      unfold MnistModel.tidyPrediction, MnistModel.indexOf. simpl.
      apply indexOfFrom_nan. apply maxOf_nan. auto. }
    split; [exact Hd|].
    unfold MnistModel.tidyPrediction in *. simpl in *. rewrite Hd. reflexivity.
  - intros Hd. destruct ps as [|p0 ps0]; [auto|]. right.
    set (ps := p0 :: ps0) in *.
    destruct (List.Forall_Exists_dec (fun p => is_nan p = false)
                (fun p => bool_dec (is_nan p) false) ps) as [Hall | Hex].
    + destruct (maximum_found ps) as (_ & k & p & Hk & _);
        [discriminate | exact Hall|].
      unfold MnistModel.tidyPrediction in Hd. simpl in Hd. lia.
    + eapply List.Exists_impl; [|exact Hex].
      intros p Hp. simpl in Hp. destruct (is_nan p); congruence.
Qed.

Lemma tidyPrediction_no_digit_witness :
  hasNaN [0%float; nan]
  /\ MnistModel.digit (MnistModel.tidyPrediction [0%float; nan]) = -1.
Proof.
  split; [right; left; reflexivity|].
  apply (proj1 (tidyPrediction_no_digit [0%float; nan])).
  right. right. left. reflexivity.
Defined.

(** ** The recognition effect: what every run reports *)

Section ReportProofs.
Import Recognizer.

Lemma runInv_step s e : runInv s -> runInv (step s e).
Proof.
  intros [Hpc Hwf]. destruct s as [p c st os]. destruct e as [a now|]; simpl.
  - (* a promise settles *)
    unfold runInv, resume in *. simpl in *.
    destruct p as [ | |url|url segs i results| ].
    + destruct a as [[ | | | ]|r]; simpl; try (split; assumption).
      * destruct c; simpl; unfold reports in *; simpl in *;
          rewrite ?completions_app, ?errors_app, ?app_nil_r; simpl;
          rewrite ?app_nil_r; split; auto; lia.
      * unfold catch. simpl. destruct c; simpl; unfold reports in *; simpl in *;
          rewrite ?completions_app, ?errors_app, ?app_nil_r; simpl;
          rewrite ?app_nil_r, ?length_app; simpl; split; auto; lia.
    + destruct a as [[ | | | ]|r]; simpl; try (split; assumption).
      * unfold reports in *; simpl in *.
        rewrite ?completions_app, ?errors_app; simpl;
          rewrite ?app_nil_r; split; auto; lia.
      * unfold catch. simpl. destruct c; simpl; unfold reports in *; simpl in *;
          rewrite ?completions_app, ?errors_app, ?app_nil_r; simpl;
          rewrite ?app_nil_r, ?length_app; simpl; split; auto; lia.
    + destruct a as [[ | | | ]|r]; simpl; try (split; assumption).
      * destruct (default [] (DigitSegmentation.segmentDigits imageData));
          simpl; unfold reports in *; simpl in *;
          rewrite ?completions_app, ?errors_app; simpl;
          rewrite ?app_nil_r, ?length_app; simpl; split; auto; lia.
      * unfold catch. simpl. destruct c; simpl; unfold reports in *; simpl in *;
          rewrite ?completions_app, ?errors_app, ?app_nil_r; simpl;
          rewrite ?app_nil_r, ?length_app; simpl; split; auto; lia.
    + destruct (segs !! i) as [segment|]; [|destruct a as [[]|]; split; assumption].
      assert (Hcase :
                (exists o lg,
                    match a with
                    | Fulfilled (Prediction ps) => Some (Fulfilled ps, [])
                    | Rejected r => Some (Rejected r, [ConsoleError])
                    | _ => None
                    end = Some (o, lg)
                    /\ completions lg = [] /\ errors lg = [])
                \/ match a with
                   | Fulfilled (Prediction ps) => Some (Fulfilled ps, [])
                   | Rejected r => Some (Rejected r, [ConsoleError])
                   | _ => None
                   end = None).
      { destruct a as [[ | | |ps]|r]; auto; left; eexists; eexists; eauto. }
      destruct Hcase as [(o & lg & -> & Hlc & Hle) | ->]; [|split; assumption].
      destruct (S i <? length segs)%nat; simpl.
      * unfold reports in *; simpl in *.
        rewrite ?completions_app, ?errors_app, Hlc, Hle; simpl;
          rewrite ?app_nil_r; split; auto; lia.
      * unfold complete, reports in *; simpl in *.
        rewrite ?completions_app, ?errors_app, Hlc, Hle; simpl;
          rewrite ?app_nil_r, ?length_app; simpl.
        split; [lia|]. apply Forall_app. split; [exact Hwf|].
        constructor; [|constructor]. split; [|reflexivity]. simpl.
        destruct results; discriminate.
    + destruct a as [[ | | | ]|r]; simpl; split; assumption.
  - (* the cleanup function runs *)
    unfold runInv in *. simpl in *. split; [|exact Hwf].
    destruct p; auto. destruct Hpc. auto.
Qed.

Lemma runInv_run s es : runInv s -> runInv (run s es).
Proof.
  revert s. induction es as [|e es IH]; intros s Hs; simpl; [exact Hs|].
  apply IH, runInv_step, Hs.
Qed.

Lemma runInv_recognize now : runInv (recognize now).
Proof. split; [reflexivity | constructor]. Qed.
End ReportProofs.

(** X8: however the promises of a run of [recognize] settle and whenever
    the effect is cleaned up, the run calls [onComplete] or [onError] at most
    once in all; once it has called, it is finished; a finished run has
    called once, or was cancelled; and a result given to [onComplete] has at
    least one digit, its text being the one of its digits. *)
Theorem recognize_reports_at_most_once now es :
  let s := Recognizer.run (Recognizer.recognize now) es in
  (reports s <= 1)%nat
  /\ (reports s = 1%nat -> Recognizer.pc s = Recognizer.Done)
  /\ (Recognizer.pc s = Recognizer.Done ->
      reports s = 1%nat \/ Recognizer.cancelled s = true)
  /\ Forall wellFormed (Recognizer.completions (Recognizer.outputs s)).
Proof.
  intros s.
  destruct (runInv_run (Recognizer.recognize now) es (runInv_recognize now))
    as [Hpc Hwf].
  fold s in Hpc, Hwf. split; [|split; [|split; [|exact Hwf]]].
  - destruct (Recognizer.pc s); lia.
  - destruct (Recognizer.pc s); try lia. reflexivity.
  - intros Hd. rewrite Hd in Hpc. destruct Hpc as [Hle H0].
    destruct (reports s) as [|[|n]]; [right; auto | left; reflexivity | lia].
Qed.

(** X9: a digit that [recognize] records with a negative class, because the
    inference failed or because the model's output had no maximum, is shown
    by [HandwritingResults] as '?' on a red tile: its confidence is 0 or
    NaN. *)
Theorem unknown_digit_tile_is_red seg outcome :
  let r := Recognizer.resultOf seg outcome in
  Recognizer.digit r < 0 ->
  Recognizer.digitText r = "?"%string
  /\ Recognizer.getConfidenceColor (Recognizer.confidence r)
     = "bg-red-100 dark:bg-red-900/30 border-red-500"%string.
Proof.
  intros r Hneg. split.
  - unfold Recognizer.digitText.
    destruct (0 <=? Recognizer.digit r) eqn:E; [apply Z.leb_le in E; lia|].
    reflexivity.
  - subst r. destruct outcome as [ps|reason]; [|reflexivity].
    change (MnistModel.digit (MnistModel.tidyPrediction ps) < 0) in Hneg.
    change (Recognizer.getConfidenceColor (MnistModel.confidence (MnistModel.tidyPrediction ps))
            = "bg-red-100 dark:bg-red-900/30 border-red-500"%string).
    pose proof (tidyPrediction_digit ps) as Hd.
    assert (Hm1 : MnistModel.digit (MnistModel.tidyPrediction ps) = -1) by lia.
    unfold MnistModel.tidyPrediction in *. simpl in *. rewrite Hm1. reflexivity.
Qed.

Lemma unknown_digit_tile_is_red_witness :
  Recognizer.digit
    (Recognizer.resultOf (DigitSegmentation.band blank 4 0) (Rejected None)) < 0
  /\ Recognizer.getConfidenceColor
       (Recognizer.confidence
          (Recognizer.resultOf (DigitSegmentation.band blank 4 0)
             (Rejected None)))
     = "bg-red-100 dark:bg-red-900/30 border-red-500"%string.
Proof.
  split; [simpl; lia|].
  apply (proj2 (unknown_digit_tile_is_red (DigitSegmentation.band blank 4 0)
                  (Rejected None) ltac:(simpl; lia))).
Defined.

(** ** The filter loop, pixel by pixel *)

Lemma applyFilters_length o data :
  length (Utils.applyFilters o data) = length data.
Proof.
  remember (length data) as n eqn:Hn. revert data Hn.
  induction n as [n IH] using lt_wf_ind. intros data Hn.
  destruct data as [|r [|g [|b [|a rest]]]]; try (subst; reflexivity).
  simpl. destruct (Utils.filterPixel o r g b) as [[r' g'] b']. simpl.
  rewrite (IH (length rest)); [subst; reflexivity | simpl in Hn; lia | reflexivity].
Qed.

Lemma pixelAt_length data k p :
  pixelAt data k = Some p -> (4 * k + 3 < length data)%nat.
Proof.
  unfold pixelAt. intros Hp.
  destruct (data !! (4 * k + 3)%nat) as [a|] eqn:E.
  - apply lookup_lt_Some in E. exact E.
  - destruct (data !! (4 * k)%nat), (data !! (4 * k + 1)%nat),
      (data !! (4 * k + 2)%nat); discriminate Hp.
Qed.

Lemma pixelAt_next r g b a (l : list Z) k :
  pixelAt (r :: g :: b :: a :: l) (S k) = pixelAt l k.
Proof.
  unfold pixelAt.
  replace (4 * S k)%nat with (S (S (S (S (4 * k))))) by lia. reflexivity.
Qed.

Lemma applyFilters_pixelAt o k : forall data p,
  pixelAt data k = Some p ->
  pixelAt (Utils.applyFilters o data) k = Some (filtered o p).
Proof.
  induction k as [|k IH]; intros data p Hp;
    pose proof (pixelAt_length data _ p Hp) as Hlen;
    destruct data as [|r [|g [|b [|a rest]]]]; simpl in Hlen; try lia.
  - unfold pixelAt in Hp. simpl in Hp. injection Hp as <-.
    simpl. destruct (Utils.filterPixel o r g b) as [[r' g'] b']. reflexivity.
  - simpl. destruct (Utils.filterPixel o r g b) as [[r' g'] b'].
    rewrite pixelAt_next in Hp. rewrite pixelAt_next. apply IH, Hp.
Qed.

Lemma filterPixel_grey o r g b r' g' b' :
  Utils.grayscale o = true -> Utils.filterPixel o r g b = (r', g', b') ->
  r' = g' /\ g' = b'.
Proof.
  unfold Utils.filterPixel, Utils.adjust. intros ->.
  destruct (Utils.threshold o); intros [= <- <- <-]; auto.
Qed.

(** X10: the filter loop keeps the length of the sample array and works
    pixel by pixel: the pixel [k] of the output is computed from the pixel
    [k] of the input alone, its alpha sample being the input's; and with
    [grayscale] set, every pixel of the output has equal red, green and blue
    samples. *)
Theorem applyFilters_pointwise o data :
  length (Utils.applyFilters o data) = length data
  /\ (forall k p, pixelAt data k = Some p ->
                  pixelAt (Utils.applyFilters o data) k = Some (filtered o p))
  /\ (forall k r g b a,
        Utils.grayscale o = true ->
        pixelAt (Utils.applyFilters o data) k = Some (r, g, b, a) ->
        r = g /\ g = b).
Proof.
  split; [apply applyFilters_length|]. split; [intros; apply applyFilters_pixelAt; assumption|].
  intros k r g b a Hg Hout.
  destruct (pixelAt data k) as [[[[r0 g0] b0] a0]|] eqn:Hin.
  - rewrite (applyFilters_pixelAt o k data _ Hin) in Hout. simpl in Hout.
    destruct (Utils.filterPixel o r0 g0 b0) as [[r' g'] b'] eqn:Hf.
    injection Hout as <- <- <- <-.
    destruct (filterPixel_grey o _ _ _ _ _ _ Hg Hf) as [-> ->]. auto.
  - exfalso. unfold pixelAt in Hin, Hout.
    pose proof (applyFilters_length o data) as Hlen.
    destruct (Utils.applyFilters o data !! (4 * k + 3)%nat) as [x|] eqn:E3;
      [|repeat (destruct (_ !! _) in Hout; try discriminate Hout)].
    apply lookup_lt_Some in E3. rewrite Hlen in E3.
    destruct (lookup_lt_is_Some_2 data (4 * k) ltac:(lia)) as [x0 E0].
    destruct (lookup_lt_is_Some_2 data (4 * k + 1) ltac:(lia)) as [x1 E1].
    destruct (lookup_lt_is_Some_2 data (4 * k + 2) ltac:(lia)) as [x2 E2].
    destruct (lookup_lt_is_Some_2 data (4 * k + 3) ltac:(lia)) as [x3 E3'].
    rewrite E0, E1, E2, E3' in Hin. discriminate.
Qed.

Lemma pixelAt_red data k r g b a :
  pixelAt data k = Some (r, g, b, a) -> data !! (4 * k)%nat = Some r.
Proof.
  unfold pixelAt.
  destruct (data !! (4 * k)%nat), (data !! (4 * k + 1)%nat),
    (data !! (4 * k + 2)%nat), (data !! (4 * k + 3)%nat); try discriminate.
  intros [= -> _ _ _]. reflexivity.
Qed.

(** X11: on a raster that the filter loop has binarized with a threshold,
    the foreground test of [segmentDigits] holds of a pixel exactly when the
    average of its adjusted samples does not exceed the threshold. *)
Theorem preprocessed_foreground o t W H data x y r0 g0 b0 a r g b :
  Utils.threshold o = Some t ->
  0 <= y * W + x ->
  pixelAt data (Z.to_nat (y * W + x)) = Some (r0, g0, b0, a) ->
  Utils.adjust o r0 g0 b0 = (r, g, b) ->
  DigitSegmentation.isForeground
    {| ImageData.width := W; ImageData.height := H;
       ImageData.data := Utils.applyFilters o data |} x y
  = negb (t <? (r + g + b) / 3)%float.
Proof.
  intros Ht Hidx Hp Ha.
  pose proof (applyFilters_pixelAt o _ data _ Hp) as Hout. simpl in Hout.
  pose proof (filterPixel_threshold o t r0 g0 b0 r g b Ht Ha) as Hbin.
  destruct (Utils.filterPixel o r0 g0 b0) as [[r' g'] b'].
  apply pixelAt_red in Hout.
  unfold DigitSegmentation.isForeground, js_get. simpl.
  destruct ((y * W + x) * 4 <? 0) eqn:E; [apply Z.ltb_lt in E; lia|].
  replace (Z.to_nat ((y * W + x) * 4)) with (4 * Z.to_nat (y * W + x))%nat by lia.
  rewrite Hout. unfold Spec.binarize in Hbin.
  destruct (t <? (r + g + b) / 3)%float; injection Hbin as -> _ _; reflexivity.
Qed.

Lemma preprocessed_foreground_witness :
  Utils.threshold Recognizer.preprocessOptions = Some 140%float
  /\ 0 <= 0 * 1 + 0
  /\ pixelAt [10; 10; 10; 255] (Z.to_nat (0 * 1 + 0)) = Some (10, 10, 10, 255)
  /\ DigitSegmentation.isForeground
       {| ImageData.width := 1; ImageData.height := 1;
          ImageData.data :=
            Utils.applyFilters Recognizer.preprocessOptions [10; 10; 10; 255] |}
       0 0
     = true.
Proof.
  split; [reflexivity|]. split; [lia|]. split; [reflexivity|].
  rewrite (preprocessed_foreground Recognizer.preprocessOptions 140 1 1
             [10; 10; 10; 255] 0 0 10 10 10 255
             (fst (fst (Utils.adjust Recognizer.preprocessOptions 10 10 10)))
             (snd (fst (Utils.adjust Recognizer.preprocessOptions 10 10 10)))
             (snd (Utils.adjust Recognizer.preprocessOptions 10 10 10))
             eq_refl ltac:(lia) eq_refl eq_refl).
  vm_compute. reflexivity.
Defined.

(** ** File validation and confidence bands *)

Lemma includes_In l s : Utils.includes l s = true <-> In s l.
Proof.
  unfold Utils.includes. rewrite existsb_exists. split.
  - intros (x & Hx & He). apply String.eqb_eq in He. subst. exact Hx.
  - intros Hin. exists s. split; [exact Hin | apply String.eqb_refl].
Qed.

(** X12: [validateImageFile] accepts a file exactly when its type is one of
    the six image types and its size is at most 10485760 bytes (a file of
    exactly 10 MiB passes); it gives an error message exactly when it
    rejects; and the type is tested first, so a file of a wrong type gets
    the message about the type whatever its size. *)
Theorem validateImageFile_accepts file :
  (Utils.valid (Utils.validateImageFile file) = true <->
   In (Utils.type file) Utils.VALID_IMAGE_TYPES /\ Utils.size file <= 10485760)
  /\ (Utils.error (Utils.validateImageFile file) = None <->
      Utils.valid (Utils.validateImageFile file) = true)
  /\ (~ In (Utils.type file) Utils.VALID_IMAGE_TYPES ->
      Utils.error (Utils.validateImageFile file)
      = Some "Please select a valid image file (JPG, PNG, GIF, WEBP, or BMP)"%string)
  /\ (In (Utils.type file) Utils.VALID_IMAGE_TYPES ->
      10485760 < Utils.size file ->
      Utils.error (Utils.validateImageFile file)
      = Some "File size must be less than 10MB"%string).
Proof.
  unfold Utils.validateImageFile.
  pose proof (includes_In Utils.VALID_IMAGE_TYPES (Utils.type file)) as Hin.
  change Utils.MAX_FILE_SIZE with 10485760.
  destruct (Utils.includes Utils.VALID_IMAGE_TYPES (Utils.type file)); simpl.
  - assert (HIn : In (Utils.type file) Utils.VALID_IMAGE_TYPES)
      by (apply Hin; reflexivity).
    destruct (10485760 <? Utils.size file) eqn:E; simpl.
    + apply Z.ltb_lt in E. split; [|split; [|split]].
      * split; [discriminate | lia].
      * split; discriminate.
      * contradiction.
      * reflexivity.
    + apply Z.ltb_ge in E. split; [|split; [|split]].
      * split; auto.
      * split; reflexivity.
      * contradiction.
      * lia.
  - assert (HnIn : ~ In (Utils.type file) Utils.VALID_IMAGE_TYPES).
    { intros Hc. apply Hin in Hc. discriminate. }
    split; [|split; [|split]].
    + split; [discriminate | intros [Hc _]; contradiction].
    + split; discriminate.
    + reflexivity.
    + contradiction.
Qed.


(** X13: [getConfidenceLabel] and [getConfidenceColor] always agree on the
    band of a confidence: "High" goes with green and holds exactly from 80,
    "Medium" with yellow from 60 to 80, "Low" with red; a confidence that is
    NaN is in the lowest band. *)
Theorem confidence_label_matches_color c :
  (Utils.getConfidenceLabel c = "High"%string <->
   Utils.getConfidenceColor c = "text-green-600 dark:text-green-400"%string)
  /\ (Utils.getConfidenceLabel c = "High"%string <-> (80 <=? c)%float = true)
  /\ (Utils.getConfidenceLabel c = "Medium"%string <->
      Utils.getConfidenceColor c = "text-yellow-600 dark:text-yellow-400"%string)
  /\ (Utils.getConfidenceLabel c = "Low"%string <->
      Utils.getConfidenceColor c = "text-red-600 dark:text-red-400"%string)
  /\ (is_nan c = true -> Utils.getConfidenceLabel c = "Low"%string).
Proof.
  unfold Utils.getConfidenceLabel, Utils.getConfidenceColor.
  split; [|split; [|split; [|split]]].
  - destruct (80 <=? c)%float, (60 <=? c)%float; split; intros Hc;
      try reflexivity; discriminate Hc.
  - destruct (80 <=? c)%float, (60 <=? c)%float; split; intros Hc;
      try reflexivity; discriminate Hc.
  - destruct (80 <=? c)%float, (60 <=? c)%float; split; intros Hc;
      try reflexivity; discriminate Hc.
  - destruct (80 <=? c)%float, (60 <=? c)%float; split; intros Hc;
      try reflexivity; discriminate Hc.
  - intros Hn.
    assert (H80 : (80 <=? c)%float = false).
    { destruct (80 <=? c)%float eqn:E; [|reflexivity].
      apply leb_not_nan in E. destruct E. congruence. }
    assert (H60 : (60 <=? c)%float = false).
    { destruct (60 <=? c)%float eqn:E; [|reflexivity].
      apply leb_not_nan in E. destruct E. congruence. }
    rewrite H80, H60. reflexivity.
Qed.

(** ** The model service under interleaved calls *)

Section DisposeProofs.
Import MnistModel.
Context {Weights : Type}.

Lemma sysInv_absent : sysInv (@absent Weights).
Proof.
  constructor; simpl.
  - constructor.
  - constructor.
  - discriminate.
  - intros i pc n Hi. rewrite lookup_nil in Hi. discriminate.
  - intros i j pc pc' n Hi. rewrite lookup_nil in Hi. discriminate.
Qed.

Lemma lookup_snoc_cases {A} (l : list A) (x : A) i y :
  (l ++ [x]) !! i = Some y -> l !! i = Some y \/ (i = length l /\ y = x).
Proof.
  intros Hi. destruct (lookup_app_Some l [x] i y) as [Hc _].
  destruct (Hc Hi) as [Hl | [Hge Hx]]; [auto|].
  destruct (i - length l)%nat as [|k] eqn:E; simpl in Hx; [|discriminate].
  right. split; [lia | congruence].
Qed.

Lemma sysInv_step (s : @Sys Weights) e : sysInv s -> sysInv (step s e).
Proof.
  intros [Hold Honce Hmodel Hpend Hdist].
  destruct s as [[md nu lg] cs]. simpl in *.
  destruct e as [ |i a| ]; simpl.
  - (* a call starts *)
    unfold loadMNISTModel. simpl.
    destruct md as [m|]; simpl; constructor; simpl; auto.
    + intros i pc n Hi Hn. apply lookup_snoc_cases in Hi.
      destruct Hi as [Hi | [_ ->]]; [eauto | discriminate].
    + intros i j pc pc' n Hi Hj Hn Hn'.
      apply lookup_snoc_cases in Hi, Hj.
      destruct Hi as [Hi | [_ ->]]; [|discriminate].
      destruct Hj as [Hj | [_ ->]]; [eauto | discriminate].
    + intros i pc n Hi Hn. apply lookup_snoc_cases in Hi.
      destruct Hi as [Hi | [_ ->]]; [eauto | discriminate].
    + intros i j pc pc' n Hi Hj Hn Hn'.
      apply lookup_snoc_cases in Hi, Hj.
      destruct Hi as [Hi | [_ ->]]; [|discriminate].
      destruct Hj as [Hj | [_ ->]]; [eauto | discriminate].
  - (* a promise settles *)
    destruct (cs !! i) as [pc|] eqn:Hi; [|constructor; assumption].
    assert (Hlt : (i < length cs)%nat) by (eapply lookup_lt_Some; eassumption).
    assert (Hother : forall (pc' : @LoadPc Weights) j q,
               <[i:=pc']> cs !! j = Some q ->
               (j = i /\ q = pc') \/ (j <> i /\ cs !! j = Some q)).
    { intros pc' j q Hj. destruct (decide (j = i)) as [-> | Hne].
      - rewrite list_lookup_insert_eq in Hj by exact Hlt. left. split; congruence.
      - rewrite list_lookup_insert_ne in Hj by congruence. auto. }
    destruct pc as [ |n|n|nm|m|msg], a as [ws|r]; simpl;
      constructor; simpl; auto.
    all: try (eapply List.Forall_impl; [|exact Hold]; simpl; intros; lia).
    all: try (intros m' [= <-]; simpl).
    all: try (intros j q k Hj Hk; apply Hother in Hj;
              destruct Hj as [[-> ->] | [Hne Hj]]; simpl in Hk).
    all: try (intros j j' q q' k Hj Hj' Hk Hk'; apply Hother in Hj, Hj';
              destruct Hj as [[-> ->] | [Hne Hj]];
              destruct Hj' as [[-> ->] | [Hne' Hj']]; simpl in Hk, Hk').
    all: try discriminate.
    all: try reflexivity.
    all: try (injection Hk as <-).
    all: try (injection Hk' as <-).
    all: try (eapply Hdist; eassumption).
    all: try (exfalso; eapply Hdist in Hj; [| exact Hi | reflexivity | eassumption]; congruence).
    all: try (exfalso; eapply Hdist in Hj'; [| exact Hi | reflexivity | eassumption]; congruence).
    all: try (destruct (Hpend _ _ _ Hj Hk) as (H1 & H2 & H3)).
    all: try (destruct (Hpend _ _ _ Hj' Hk') as (H1' & H2' & H3')).
    all: try (destruct (Hpend _ _ _ Hi eq_refl) as (G1 & G2 & G3)).
    all: try (split; [lia|]; split; [assumption|]).
    all: try (intros m' Hm; destruct (Hmodel m' Hm); try injection Hm as <-; simpl; try lia; eauto).
    all: try (split; [lia|]; intros Hc;
              pose proof (proj1 (List.Forall_forall _ _) Hold _ Hc); simpl in *; lia).
    all: try lia.
    all: try (split; auto; lia).
    all: try (split; [lia|]; split; [|discriminate]; intros Hc;
              pose proof (proj1 (List.Forall_forall _ _) Hold _ Hc); simpl in *; lia).
    + intros m [= <-]. simpl. lia.
    + split; [lia|]. split.
      * intros Hc. pose proof (proj1 (List.Forall_forall _ _) Hold _ Hc).
        simpl in *. lia.
      * intros m Hm. destruct (Hmodel m Hm). lia.
    + intros m [= <-] Hc. apply Hne. symmetry. rewrite <- Hc in Hk.
      exact (Hdist i j _ _ _ Hi Hj eq_refl Hk).
  - (* disposeModel *)
    unfold disposeModel. simpl.
    destruct md as [m|]; simpl; [|constructor; assumption].
    destruct (Hmodel m eq_refl) as [Hm1 Hm2].
    constructor; simpl; auto.
    + apply List.NoDup_cons; [exact Hm2 | exact Honce].
    + discriminate.
    + intros i pc n Hi Hn. destruct (Hpend i pc n Hi Hn) as (H1 & H2 & H3).
      split; [exact H1|]. split; [|discriminate].
      intros [Hc | Hc]; [|contradiction]. apply (H3 m eq_refl). exact Hc.
Qed.
End DisposeProofs.

(** X14: however calls of [loadMNISTModel], settlements of the promises
    they await and calls of [disposeModel] interleave on a page, no model is
    disposed of twice, and the model that is cached has not been disposed
    of. *)
Theorem model_disposed_at_most_once {Weights : Type}
    (es : list (@MnistModel.Event Weights)) :
  let w := MnistModel.world (MnistModel.run MnistModel.absent es) in
  List.NoDup (disposed (MnistModel.log w))
  /\ (forall m, MnistModel.model w = Some m ->
                ~ In (MnistModel.uid m) (disposed (MnistModel.log w))).
Proof.
  assert (Hrun : forall (s : @MnistModel.Sys Weights),
             sysInv s -> sysInv (MnistModel.run s es)).
  { unfold MnistModel.run. induction es as [|e es' IH]; intros s Hs; simpl;
      [exact Hs|].
    apply IH, sysInv_step, Hs. }
  destruct (Hrun _ sysInv_absent) as [_ Honce Hmodel _ _].
  split; [exact Honce|]. intros m Hm. apply (Hmodel m Hm).
Qed.

Section LoadProofs.
Import MnistModel.
Context {Weights : Type}.

Lemma loadInv_resume (w : @World Weights) pc a :
  loadInv (w, pc) -> loadInv (loadResume w pc a).
Proof.
  unfold loadInv. simpl.
  destruct pc as [ |n|n|nm|m|msg], a as [ws|r]; simpl; auto;
    try (intros [Hm Hd]; repeat split; eauto; fail).
Qed.

Lemma loadInv_run (st : @World Weights * @LoadPc Weights) answers :
  loadInv st ->
  loadInv (fold_left (fun st a => loadResume (fst st) (snd st) a) answers st).
Proof.
  revert st. induction answers as [|a answers IH]; intros [w pc] Hst; simpl;
    [exact Hst|].
  apply IH. apply loadInv_resume. exact Hst.
Qed.
End LoadProofs.

(** X15: when a call of [loadMNISTModel] that found no model fails, it
    has tried to train (the stored model could not be loaded, and
    [data.load()] was called); its message is "Failed to initialize MNIST
    model: " followed by the message of the error, or by "Unknown error";
    no model is cached; and the next call enters the load path again. *)
Theorem failed_initialisation_is_not_cached {Weights : Type}
    (w : @MnistModel.World Weights) answers message :
  MnistModel.model w = None ->
  snd (MnistModel.loadRun w answers) = MnistModel.Threw message ->
  let w' := fst (MnistModel.loadRun w answers) in
  MnistModel.model w' = None
  /\ In MnistModel.DataLoad (MnistModel.log w')
  /\ (exists reason,
        message
        = ("Failed to initialize MNIST model: "
           +:+ match reason with Some m => m | None => "Unknown error" end)%string)
  /\ MnistModel.loadMNISTModel w'
     = (MnistModel.emit MnistModel.LoadLayersModel w', MnistModel.AwaitLoadLayers).
Proof.
  intros Hm Hthrew w'.
  assert (Hinv : loadInv (MnistModel.loadRun w answers)).
  { unfold MnistModel.loadRun. apply loadInv_run.
    unfold MnistModel.loadMNISTModel, loadInv. rewrite Hm. simpl. exact Hm. }
  unfold loadInv in Hinv. rewrite Hthrew in Hinv.
  destruct Hinv as (Hnone & Hdata & reason & Hmsg).
  fold w' in Hnone, Hdata.
  split; [exact Hnone|]. split; [exact Hdata|]. split.
  - exists reason. unfold MnistModel.initFailure in Hmsg. congruence.
  - unfold MnistModel.loadMNISTModel. rewrite Hnone. reflexivity.
Qed.

Lemma failed_initialisation_is_not_cached_witness :
  MnistModel.model absentWorld = None
  /\ snd (MnistModel.loadRun absentWorld [Rejected None; Rejected (Some "offline"%string)])
     = MnistModel.Threw "Failed to initialize MNIST model: offline"
  /\ MnistModel.model
       (fst (MnistModel.loadRun absentWorld
               [Rejected None; Rejected (Some "offline"%string)]))
     = None.
Proof.
  split; [reflexivity|]. split; [reflexivity|].
  exact (proj1 (failed_initialisation_is_not_cached absentWorld
                  [Rejected None; Rejected (Some "offline"%string)]
                  "Failed to initialize MNIST model: offline" eq_refl eq_refl)).
Defined.

(** ** The page *)

Section RouteProofs.
Import Route.
Context {RecognizeResult : Type}.
Implicit Types (p : @Page RecognizeResult) (s : @State RecognizeResult).
Implicit Types (ev : @Event RecognizeResult) (a : Settled (@Value RecognizeResult)).

Lemma run_invariant (P : @Page RecognizeResult -> Prop) :
  (forall p ev, P p -> P (step p ev)) ->
  forall evs p, P p -> P (run p evs).
Proof.
  intros Hstep. unfold run. induction evs as [|ev evs IH]; intros p Hp; simpl;
    [exact Hp|].
  apply IH, Hstep, Hp.
Qed.

(** What a resumption does not touch, and the calls it makes. *)
Lemma resume_frame i pc a now s :
  let '(s', pc', es) := resume i pc a now s in
  selectedFile s' = selectedFile s
  /\ Forall (fun e => fileOf e = None) es
  /\ (forall k, In (Terminate k) es ->
                k = i /\ pc' = AwaitTerminate
                /\ exists t0 url, pc = AwaitRecognize t0 url)
  /\ (pc = Finished -> pc' = Finished /\ s' = s /\ es = [])
  /\ (forall k, In (CreateWorker k) es -> k = i)
  /\ (pc' = Finished \/ isProcessing s' = isProcessing s).
Proof.
  destruct pc as [t0|t0 url|t0 url|t0 url| | ], a as [[url'| | |result]|r];
    simpl;
    (split; [reflexivity|]); (split; [repeat constructor|]);
    (split; [intros k Hk; in_cases Hk; injection Hk as <-; eauto 6|]);
    (split; [intros Hpc; try discriminate Hpc; auto|]);
    (split; [intros k Hk; in_cases Hk; injection Hk as <-; reflexivity|]);
    auto.
Qed.

(** A click on the button does nothing, or starts [handleProcess] on the
    selected file while nothing is processing. *)
Lemma click_cases p now :
  step p (ClickProcess now) = p
  \/ (exists file,
        selectedFile (state p) = Some file /\ isProcessing (state p) = false
        /\ step p (ClickProcess now)
           = match engine (state p) with
             | tensorflow =>
                 withState
                   (state p |> setIsProcessing true |> setError ""
                            |> setOcrResult None |> setHandwritingResult None) p
             | tesseract =>
                 {| state :=
                      state p |> setIsProcessing true |> setError ""
                              |> setProgress 0 |> setOcrResult None
                              |> setHandwritingResult None;
                    runs := runs p ++ [AwaitPreprocess now];
                    effects :=
                      PreprocessImage (length (runs p)) file tesseractOptions
                        :: effects p |}
             end).
Proof.
  simpl. unfold handleProcess.
  destruct (selectedFile (state p)) as [file|]; [|auto].
  destruct (isProcessing (state p)); [auto|].
  right. exists file. auto.
Qed.

Lemma filesInv_step p ev : filesInv p -> filesInv (step p ev).
Proof.
  unfold filesInv. intros [Hsel Heff].
  destruct ev as [file|result|en|now|i a now|st pr|result|msg];
    simpl; try (split; assumption).
  - unfold handleFileSelect.
    destruct (Utils.valid (Utils.validateImageFile file)) eqn:Hv; simpl;
      [|split; assumption].
    split.
    + intros f [= <-]. exact Hv.
    + intros e f [<- | He] Hf; [injection Hf as <-; exact Hv | eauto].
  - destruct (click_cases p now) as [Hc | (file & Hf & _ & Hc)];
      simpl in Hc; rewrite Hc; [split; assumption|].
    destruct (engine (state p)); simpl; split; auto.
    intros e f [<- | He] Hfe; [injection Hfe as <-; auto | eauto].
  - destruct (runs p !! i) as [pc|]; [|split; assumption].
    pose proof (resume_frame i pc a now (state p)) as Hr.
    destruct (resume i pc a now (state p)) as [[s' pc'] es].
    destruct Hr as (Hs & Hes & _). simpl. split.
    + rewrite Hs. exact Hsel.
    + intros e f He Hf. apply in_app_or in He. destruct He as [He | He]; [|eauto].
      rewrite List.Forall_forall in Hes. rewrite (Hes e He) in Hf. discriminate.
  - unfold logger. destruct (String.eqb st "recognizing text"); split; assumption.
Qed.
Lemma lookup_insert_cases {A} (l : list A) i j (x y : A) :
  (i < length l)%nat -> <[i:=x]> l !! j = Some y ->
  (j = i /\ y = x) \/ (j <> i /\ l !! j = Some y).
Proof.
  intros Hlt Hj. destruct (decide (j = i)) as [-> | Hne].
  - rewrite list_lookup_insert_eq in Hj by exact Hlt. left. split; congruence.
  - rewrite list_lookup_insert_ne in Hj by congruence. auto.
Qed.

Lemma workerInv_step p ev : workerInv p -> workerInv (step p ev).
Proof.
  unfold workerInv. intros [Hreq Hterm].
  destruct ev as [file|result|en|now|i a now|st pr|result|msg];
    simpl; try (split; assumption).
  - unfold handleFileSelect.
    destruct (Utils.valid (Utils.validateImageFile file)); simpl;
      [|split; assumption].
    split.
    + intros i pc Hi. specialize (Hreq i pc Hi). destruct pc; simpl; auto.
    + intros i [Hc | Hc]; [discriminate | auto].
  - destruct (click_cases p now) as [Hc | (file & _ & _ & Hc)];
      simpl in Hc; rewrite Hc; [split; assumption|].
    destruct (engine (state p)); simpl; [|split; assumption].
    split.
    + intros i pc Hi. apply lookup_snoc_cases in Hi.
      destruct Hi as [Hi | [_ ->]]; [|exact I].
      specialize (Hreq i pc Hi). destruct pc; simpl; auto.
    + intros i [Hc' | Hc']; [discriminate|].
      destruct (Hterm i Hc') as [Hi | Hi];
        [left | right]; apply lookup_app_l_Some; exact Hi.
  - destruct (runs p !! i) as [pc|] eqn:Hi; [|split; assumption].
    assert (Hlt : (i < length (runs p))%nat)
      by (eapply lookup_lt_Some; eassumption).
    pose proof (resume_frame i pc a now (state p)) as Hr.
    destruct (resume i pc a now (state p)) as [[s' pc'] es] eqn:Hres.
    destruct Hr as (_ & _ & Ht & Hfin & Hcw & _). simpl. split.
    + intros j q Hj. apply (lookup_insert_cases _ _ _ _ _ Hlt) in Hj.
      destruct Hj as [[-> ->] | [Hne Hj]].
      * specialize (Hreq i pc Hi).
        destruct pc as [t0|t0 url|t0 url|t0 url| | ],
          a as [[url'| | |res]|r]; simpl in Hres; injection Hres as <- <- <-;
          simpl; auto.
      * specialize (Hreq j q Hj). destruct q; auto; apply in_or_app; auto.
    + intros k Hk. apply in_app_or in Hk. destruct Hk as [Hk | Hk].
      * destruct (Ht k Hk) as (-> & -> & _). left.
        apply list_lookup_insert_eq, Hlt.
      * destruct (decide (k = i)) as [-> | Hne].
        -- rewrite list_lookup_insert_eq by exact Hlt.
           destruct (Hterm i Hk) as [Hk' | Hk']; rewrite Hi in Hk';
             injection Hk' as ->.
           ++ destruct a as [[ | | | ]|r]; simpl in Hres;
                injection Hres as <- <- <-; auto.
           ++ destruct (Hfin eq_refl) as (-> & _). auto.
        -- rewrite list_lookup_insert_ne by congruence. auto.
Qed.

Lemma leaked_step i p ev : leaked i p -> leaked i (step p ev).
Proof.
  unfold leaked. intros (Hfin & Hcw & Hnt).
  destruct ev as [file|result|en|now|j a now|st pr|result|msg];
    simpl; try (repeat split; assumption).
  - unfold handleFileSelect.
    destruct (Utils.valid (Utils.validateImageFile file)); simpl;
      [|repeat split; assumption].
    split; [exact Hfin|]. split; [auto|].
    intros [Hc | Hc]; [discriminate | auto].
  - destruct (click_cases p now) as [Hc | (file & _ & _ & Hc)];
      simpl in Hc; rewrite Hc; [repeat split; assumption|].
    destruct (engine (state p)); simpl; [|repeat split; assumption].
    split; [apply lookup_app_l_Some; exact Hfin|]. split; [auto|].
    intros [Hc' | Hc']; [discriminate | auto].
  - destruct (runs p !! j) as [pc|] eqn:Hj; [|repeat split; assumption].
    assert (Hlt : (j < length (runs p))%nat)
      by (eapply lookup_lt_Some; eassumption).
    pose proof (resume_frame j pc a now (state p)) as Hr.
    destruct (resume j pc a now (state p)) as [[s' pc'] es].
    destruct Hr as (_ & _ & Ht & Hf & _). simpl.
    destruct (decide (j = i)) as [-> | Hne].
    + rewrite Hfin in Hj. injection Hj as <-.
      destruct (Hf eq_refl) as (-> & _ & ->). simpl.
      split; [apply list_lookup_insert_eq, Hlt | auto].
    + rewrite list_lookup_insert_ne by exact Hne.
      split; [exact Hfin|]. split; [apply in_or_app; auto|].
      intros Hc. apply in_app_or in Hc. destruct Hc as [Hc | Hc]; [|auto].
      destruct (Ht i Hc) as (-> & _). congruence.
Qed.

Lemma inFlight_insert (l : list Pc) i pc pc' :
  l !! i = Some pc ->
  (length (inFlight (<[i:=pc']> l)) + (if isFinished pc then 0 else 1)
   = length (inFlight l) + (if isFinished pc' then 0 else 1))%nat.
Proof.
  revert i. induction l as [|q l IH]; intros [|i] Hi; simpl in *;
    try discriminate.
  - injection Hi as ->. destruct (isFinished pc), (isFinished pc'); simpl; lia.
  - specialize (IH i Hi). destruct (isFinished q); simpl; lia.
Qed.

Lemma flightInv_step p ev : ownEvent ev -> flightInv p -> flightInv (step p ev).
Proof.
  unfold flightInv. intros Hown [Hone Hbusy].
  destruct ev as [file|result|en|now|i a now|st pr|result|msg];
    simpl; try (split; assumption); try contradiction.
  - unfold handleFileSelect.
    destruct (Utils.valid (Utils.validateImageFile file)); simpl;
      split; assumption.
  - destruct (click_cases p now) as [Hc | (file & _ & Hidle & Hc)];
      simpl in Hc; rewrite Hc; [split; assumption|].
    destruct (engine (state p)); simpl; [|split; auto].
    assert (Hnone : inFlight (runs p) = []).
    { destruct (inFlight (runs p)) eqn:E; [reflexivity|].
      rewrite Hbusy in Hidle; [discriminate | discriminate]. }
    unfold inFlight in *. rewrite List.filter_app, Hnone. simpl. auto.
  - destruct (runs p !! i) as [pc|] eqn:Hi; [|split; assumption].
    pose proof (resume_frame i pc a now (state p)) as Hr.
    destruct (resume i pc a now (state p)) as [[s' pc'] es].
    destruct Hr as (_ & _ & _ & Hf & _ & Hproc). simpl.
    pose proof (inFlight_insert (runs p) i pc pc' Hi) as Hcount.
    destruct (isFinished pc) eqn:Epc.
    + destruct pc; try discriminate Epc.
      destruct (Hf eq_refl) as (-> & -> & _). simpl in Hcount.
      split; [lia|]. intros Hne. apply Hbusy.
      intros Hnil. rewrite Hnil in Hcount. simpl in Hcount.
      destruct (inFlight (<[i:=Finished]> (runs p))); [auto | discriminate].
    + destruct (isFinished pc') eqn:Epc'.
      * split; [lia|]. intros Hne.
        destruct (inFlight (<[i:=pc']> (runs p))); [congruence | simpl in *; lia].
      * destruct Hproc as [-> | ->]; [discriminate|].
        pose proof (inFlight_insert (runs p) i pc Finished Hi) as Hpos.
        rewrite Epc in Hpos. simpl in Hpos.
        split; [lia|]. intros _. apply Hbusy.
        intros Hnil. rewrite Hnil in Hpos. simpl in Hpos. lia.
  - unfold logger. destruct (String.eqb st "recognizing text"); split; assumption.
Qed.
End RouteProofs.

(** X16: whatever happens on the page, the selected file, every file handed
    to [FileReader] and every file handed to [preprocessImage] has passed
    [validateImageFile]. *)
Theorem only_validated_files_are_processed {RecognizeResult : Type}
    (es : list (@Route.Event RecognizeResult)) :
  let p := Route.run Route.initial es in
  (forall f, Route.selectedFile (Route.state p) = Some f -> validated f)
  /\ (forall e f, In e (Route.effects p) -> fileOf e = Some f -> validated f).
Proof.
  apply (run_invariant filesInv filesInv_step).
  split; [discriminate | intros e f []].
Qed.

(** X17: when [worker.setParameters] or [worker.recognize] rejects, the
    Tesseract run shows the message of the error (or "OCR processing
    failed"), resets [isProcessing] and [progress], and ends; and whatever
    happens next, [worker.terminate()] is never called on the worker that the
    run had created. *)
Theorem worker_not_terminated_after_failure {RecognizeResult : Type}
    (evs evs' : list (@Route.Event RecognizeResult)) i pc r now :
  let p := Route.run Route.initial evs in
  Route.runs p !! i = Some pc -> holdsWorker pc ->
  let failed := Route.step p (Route.Settle i (Rejected r) now) in
  let p' := Route.run failed evs' in
  Route.error (Route.state failed)
  = match r with Some m => m | None => "OCR processing failed"%string end
  /\ Route.isProcessing (Route.state failed) = false
  /\ Route.progress (Route.state failed) = 0%float
  /\ Route.runs p' !! i = Some Route.Finished
  /\ In (Route.CreateWorker i) (Route.effects p')
  /\ ~ In (Route.Terminate i) (Route.effects p').
Proof.
  intros p Hi Hw failed p'.
  assert (Hinv : workerInv p).
  { apply (run_invariant workerInv workerInv_step).
    split; [intros j q Hj; simpl in Hj; rewrite lookup_nil in Hj; discriminate
           | intros j []]. }
  destruct Hinv as [Hreq Hterm].
  assert (Hlt : (i < length (Route.runs p))%nat)
    by (eapply lookup_lt_Some; eassumption).
  assert (Hstep : failed
                  = {| Route.state := Route.catch r (Route.state p);
                       Route.runs := <[i:=Route.Finished]> (Route.runs p);
                       Route.effects := Route.effects p |}).
  { unfold failed. simpl. rewrite Hi.
    destruct pc; simpl in Hw; try contradiction; reflexivity. }
  assert (Hleak : leaked i failed).
  { rewrite Hstep. unfold leaked. simpl.
    split; [apply list_lookup_insert_eq, Hlt|]. split.
    - specialize (Hreq i pc Hi). destruct pc; simpl in Hw; try contradiction; auto.
    - intros Hc. destruct (Hterm i Hc) as [Hc' | Hc']; rewrite Hi in Hc';
        injection Hc' as ->; contradiction. }
  split; [rewrite Hstep; reflexivity|].
  split; [rewrite Hstep; reflexivity|].
  split; [rewrite Hstep; reflexivity|].
  apply (run_invariant (leaked i) (leaked_step i) evs' failed Hleak).
Qed.

Lemma worker_not_terminated_after_failure_witness :
  Route.runs (Route.run Route.initial workerReady) !! 0%nat
  = Some (Route.AwaitSetParameters 0 "data:image/png")
  /\ holdsWorker (Route.AwaitSetParameters 0 "data:image/png")
  /\ ~ In (Route.Terminate 0)
         (Route.effects
            (Route.run
               (Route.step (Route.run Route.initial workerReady)
                  (Route.Settle 0 (Rejected (Some "network"%string)) 30))
               [Route.ClickProcess 40])).
Proof.
  split; [reflexivity|]. split; [exact I|].
  exact (proj2 (proj2 (proj2 (proj2 (proj2
           (worker_not_terminated_after_failure workerReady
              [Route.ClickProcess 40] 0%nat
              (Route.AwaitSetParameters 0 "data:image/png")
              (Some "network"%string) 30 eq_refl I)))))).
Defined.

(** X18: as long as no callback of [HandwrittenDigitRecognizer] arrives, at
    most one Tesseract run is in flight, and [isProcessing] is set while one
    is (so the button that starts a run is not rendered). *)
Theorem one_tesseract_run_at_a_time {RecognizeResult : Type}
    (evs : list (@Route.Event RecognizeResult)) :
  Forall ownEvent evs ->
  let p := Route.run Route.initial evs in
  (length (inFlight (Route.runs p)) <= 1)%nat
  /\ (inFlight (Route.runs p) <> [] ->
      Route.isProcessing (Route.state p) = true).
Proof.
  intros Hown. cbv zeta.
  assert (H0 : flightInv (@Route.initial RecognizeResult))
    by (split; [simpl; lia | intros Hc; contradiction Hc; reflexivity]).
  revert H0. generalize (@Route.initial RecognizeResult).
  induction Hown as [|ev evs Hev Hown IH]; intros p Hp; simpl; [exact Hp|].
  apply IH, flightInv_step; assumption.
Qed.

Lemma one_tesseract_run_at_a_time_witness :
  Forall ownEvent workerReady
  /\ (length (inFlight (Route.runs (Route.run Route.initial workerReady))) <= 1)%nat.
Proof.
  split; [repeat constructor|].
  apply (proj1 (one_tesseract_run_at_a_time workerReady
                  ltac:(repeat constructor))).
Defined.

(** ** Components: what a fill marks, and what a segment covers *)

Section ComponentProofs.
Import DigitSegmentation.
Variable img : ImageData.t.
Let W := ImageData.width img.
Let H := ImageData.height img.
Let N := Z.to_nat (W * H).

Lemma adjacent_of_pushed x y q :
  In q [(x - 1, y + 1); (x + 1, y - 1); (x - 1, y - 1); (x + 1, y + 1);
        (x, y - 1); (x, y + 1); (x - 1, y); (x + 1, y)] ->
  adjacent (x, y) q.
Proof.
  intros Hq. in_cases Hq; subst q; unfold adjacent; simpl;
    (split; [intros Hc; injection Hc; lia | lia]).
Qed.

Lemma newly_insert vis0 vis j p :
  newly img vis0 vis p -> newly img vis0 (<[j:=true]> vis) p.
Proof.
  intros (Hin & Hs & Hn). split; [exact Hin|]. split; [|exact Hn].
  unfold seenAt in *. apply seen_insert_mono. exact Hs.
Qed.

Lemma componentInv_start vis x y :
  componentInv img vis (x, y) (fillStart vis x y).
Proof.
  constructor; simpl; auto.
  - intros p (_ & Hs & Hn). contradiction.
  - intros q [<- | []]. auto.
Qed.

Lemma componentInv_iter vis0 p0 x y rest s :
  fillInv img vis0 p0 s -> componentInv img vis0 p0 s ->
  stack s = (x, y) :: rest ->
  componentInv img vis0 p0 (fillIter img x y rest s).
Proof.
  intros Hf [Hconn Hstk HminX HmaxX HminY HmaxY] Hstack.
  destruct (fillIter_step img x y rest s)
    as [[-> Hwhy] | (Hin & Hfg & Hseen & ->)].
  - constructor; simpl; auto.
    intros q Hq. apply Hstk. rewrite Hstack. right. exact Hq.
  - pose proof (inside_index img x y Hin) as Hidx. fold W H in Hidx.
    fold W in Hseen.
    assert (Hlt : (Z.to_nat (y * W + x) < length (visited s))%nat).
    { rewrite (inv_length img _ _ _ Hf). fold W H. lia. }
    assert (Hnew : newly img vis0
                     (<[Z.to_nat (y * W + x):=true]> (visited s)) (x, y)).
    { split; [exact Hin|]. split.
      - unfold seenAt, pixelIndex. simpl. fold W.
        apply seen_insert_same; [apply Hidx | exact Hlt].
      - intros Hc. unfold seenAt, pixelIndex in Hc. simpl in Hc. fold W in Hc.
        apply (inv_mono img _ _ _ Hf) in Hc. congruence. }
    assert (Hfresh : fresh img vis0 (x, y)).
    { destruct Hnew as (? & _ & ?). split; [assumption|]. split; assumption. }
    assert (Hcxy : connected img vis0 p0 (x, y)).
    { destruct (Hstk (x, y)) as [<- | (p & Hp & Hadj)];
        [rewrite Hstack; left; reflexivity | apply connected_seed, Hfresh |].
      eapply connected_step; [apply Hconn, Hp | exact Hadj | exact Hfresh]. }
    assert (Hold : forall p,
               newly img vis0 (<[Z.to_nat (y * W + x):=true]> (visited s)) p ->
               p = (x, y) \/ newly img vis0 (visited s) p).
    { intros p (Hp & Hs & Hn).
      destruct (decide (pixelIndex img p = pixelIndex img (x, y))) as [He | Hne].
      - left. apply (pixelIndex_inj img); assumption.
      - right. split; [exact Hp|]. split; [|exact Hn].
        unfold seenAt in *. rewrite seen_insert_other in Hs; [exact Hs | |].
        + destruct p as [px py]. unfold insideP in Hp.
          pose proof (inside_index img px py Hp). unfold pixelIndex. simpl. lia.
        + destruct p as [px py]. unfold insideP in Hp.
          pose proof (inside_index img px py Hp) as Hi. fold W H in Hi.
          unfold pixelIndex in *. simpl in *. fold W in Hne |- *. lia. }
    constructor; simpl.
    + intros p Hp. destruct (Hold p Hp) as [-> | Hp']; auto.
    + intros q Hq.
      assert (Hq' : In q [(x - 1, y + 1); (x + 1, y - 1); (x - 1, y - 1);
                          (x + 1, y + 1); (x, y - 1); (x, y + 1); (x - 1, y);
                          (x + 1, y)] \/ In q rest).
      { simpl in Hq. simpl. tauto. }
      destruct Hq' as [Hq' | Hq'].
      * right. exists (x, y). split; [exact Hnew | apply adjacent_of_pushed, Hq'].
      * destruct (Hstk q) as [-> | (p & Hp & Hadj)];
          [rewrite Hstack; right; exact Hq' | auto |].
        right. exists p. split; [apply newly_insert, Hp | exact Hadj].
    + destruct (Z.min_spec (minX s) x) as [[_ ->] | [_ ->]].
      * destruct HminX as [He | (p & Hp & He)]; [auto|].
        right. exists p. split; [apply newly_insert, Hp | exact He].
      * right. exists (x, y). split; [exact Hnew | reflexivity].
    + destruct (Z.max_spec (maxX s) x) as [[_ ->] | [_ ->]].
      * right. exists (x, y). split; [exact Hnew | reflexivity].
      * destruct HmaxX as [He | (p & Hp & He)]; [auto|].
        right. exists p. split; [apply newly_insert, Hp | exact He].
    + destruct (Z.min_spec (minY s) y) as [[_ ->] | [_ ->]].
      * destruct HminY as [He | (p & Hp & He)]; [auto|].
        right. exists p. split; [apply newly_insert, Hp | exact He].
      * right. exists (x, y). split; [exact Hnew | reflexivity].
    + destruct (Z.max_spec (maxY s) y) as [[_ ->] | [_ ->]].
      * right. exists (x, y). split; [exact Hnew | reflexivity].
      * destruct HmaxY as [He | (p & Hp & He)]; [auto|].
        right. exists p. split; [apply newly_insert, Hp | exact He].
Qed.

Lemma component_ends vis x y :
  length vis = N ->
  exists s, fillLoop img (fillFuel img) (fillStart vis x y) = Some s
            /\ stack s = []
            /\ fillInv img vis (x, y) s /\ componentInv img vis (x, y) s.
Proof.
  intros Hlen. destruct (floodFill_total img vis x y Hlen) as (s & Hs & _).
  exists s. split; [exact Hs|].
  destruct (fillLoop_invariant img
              (fun s => fillInv img vis (x, y) s /\ componentInv img vis (x, y) s))
    with (fuel := fillFuel img) (s := fillStart vis x y) (s' := s)
    as [[Hf Hc] Hst].
  - intros x1 y1 rest s1 [Hf Hc] Hstack. split.
    + apply fillInv_iter; assumption.
    + apply componentInv_iter; assumption.
  - split; [apply fillInv_start, Hlen | apply componentInv_start].
  - exact Hs.
  - auto.
Qed.

(** A fill from a fresh seed marks exactly the component of the seed. *)
Lemma marks_component vis x y s :
  fresh img vis (x, y) -> stack s = [] ->
  fillInv img vis (x, y) s -> componentInv img vis (x, y) s ->
  newly img vis (visited s) (x, y)
  /\ forall q, newly img vis (visited s) q <-> connected img vis (x, y) q.
Proof.
  intros (Hin & Hfg & Hn) Hst Hf Hc.
  assert (Hseed : newly img vis (visited s) (x, y)).
  { split; [exact Hin|]. split; [|exact Hn].
    destruct (inv_seed img _ _ _ Hf) as [Hseed _]. rewrite Hst in Hseed.
    destruct Hseed as [[] | [Hq | [Hq | Hq]]]; [exact Hq | |];
      exfalso; apply Hq; assumption. }
  split; [exact Hseed|].
  intros q. split; [apply (inv_connected img _ _ _ Hc)|].
  induction 1 as [Hfr | p q Hpq IH Hadj (Hq & Hfq & Hnq)]; [exact Hseed|].
  split; [exact Hq|]. split; [|exact Hnq].
  destruct IH as (Hp & Hsp & Hnp).
  destruct (inv_frontier img _ _ _ Hf p q Hp Hsp Hnp Hadj)
    as [Hc' | [Hc' | [Hc' | Hc']]];
    [rewrite Hst in Hc'; destruct Hc' | contradiction | exact Hc'
    | contradiction].
Qed.
End ComponentProofs.

(** X19: a flood fill started on a foreground pixel of the raster that is
    not yet marked marks exactly the 8-connected component of that pixel
    among the foreground pixels not yet marked; and the bounds it returns are
    tight: each of them is the coordinate of a pixel of the component. *)
Theorem floodFill_marks_component img vis x y :
  length vis = Z.to_nat (ImageData.width img * ImageData.height img) ->
  fresh img vis (x, y) ->
  exists s,
    DigitSegmentation.fillLoop img (DigitSegmentation.fillFuel img)
      (DigitSegmentation.fillStart vis x y) = Some s
    /\ (forall q, newly img vis (DigitSegmentation.visited s) q
                  <-> connected img vis (x, y) q)
    /\ (exists p, newly img vis (DigitSegmentation.visited s) p
                  /\ fst p = DigitSegmentation.minX s)
    /\ (exists p, newly img vis (DigitSegmentation.visited s) p
                  /\ fst p = DigitSegmentation.maxX s)
    /\ (exists p, newly img vis (DigitSegmentation.visited s) p
                  /\ snd p = DigitSegmentation.minY s)
    /\ (exists p, newly img vis (DigitSegmentation.visited s) p
                  /\ snd p = DigitSegmentation.maxY s).
Proof.
  intros Hlen Hfresh.
  destruct (component_ends img vis x y Hlen) as (s & Hs & Hst & Hf & Hc).
  exists s. split; [exact Hs|].
  destruct (marks_component img vis x y s Hfresh Hst Hf Hc) as [Hseed Hiff].
  split; [exact Hiff|].
  destruct Hc as [_ _ HminX HmaxX HminY HmaxY].
  repeat split.
  - destruct HminX as [He | Hex]; [|exact Hex].
    exists (x, y). split; [exact Hseed | symmetry; exact He].
  - destruct HmaxX as [He | Hex]; [|exact Hex].
    exists (x, y). split; [exact Hseed | symmetry; exact He].
  - destruct HminY as [He | Hex]; [|exact Hex].
    exists (x, y). split; [exact Hseed | symmetry; exact He].
  - destruct HmaxY as [He | Hex]; [|exact Hex].
    exists (x, y). split; [exact Hseed | symmetry; exact He].
Qed.

Lemma floodFill_marks_component_witness :
  length (replicate 400 false)
  = Z.to_nat (ImageData.width speck * ImageData.height speck)
  /\ fresh speck (replicate 400 false) (5, 5)
  /\ exists s,
       DigitSegmentation.fillLoop speck (DigitSegmentation.fillFuel speck)
         (DigitSegmentation.fillStart (replicate 400 false) 5 5) = Some s
       /\ exists p, newly speck (replicate 400 false)
                      (DigitSegmentation.visited s) p
                    /\ fst p = DigitSegmentation.minX s.
Proof.
  assert (Hfresh : fresh speck (replicate 400 false) (5, 5)).
  { split; [unfold insideP, inside; simpl; lia|].
    split; [reflexivity | discriminate]. }
  split; [reflexivity|]. split; [exact Hfresh|].
  destruct (floodFill_marks_component speck (replicate 400 false) 5 5 eq_refl
              Hfresh) as (s & Hs & _ & Hmin & _).
  exists s. split; [exact Hs | exact Hmin].
Defined.

Lemma adjacent_sym p q : adjacent p q -> adjacent q p.
Proof. unfold adjacent. intros (Hne & Hx & Hy). split; [congruence | lia]. Qed.

Section CoverProofs.
Import DigitSegmentation.
Variable img : ImageData.t.
Let W := ImageData.width img.
Let H := ImageData.height img.
Let N := Z.to_nat (W * H).

Lemma extract_covers s q :
  inside img (fst q) (snd q) ->
  minX s <= fst q <= maxX s -> minY s <= snd q <= maxY s ->
  covers (extract img (boxOf s)) q.
Proof.
  intros [Hx Hy] Hbx Hby. unfold covers, extract, boxOf. simpl.
  fold W H in Hx, Hy |- *. lia.
Qed.

Lemma seenAt_nil p : ~ seenAt img [] p.
Proof.
  unfold seenAt, seen, js_get.
  destruct (pixelIndex img p <? 0); rewrite ?lookup_nil; discriminate.
Qed.

(** Below closed marks, the component of an unmarked pixel among the
    unmarked pixels is its component in the raster. *)
Lemma connected_closed vis p0 q :
  closed img vis -> ~ seenAt img vis p0 ->
  (component img p0 q <-> connected img vis p0 q).
Proof.
  intros Hcl Hn0. unfold component. split.
  - induction 1 as [(Hin & Hfg & _) | p q Hpq IH Hadj (Hq & Hfq & _)].
    + apply connected_seed. split; [exact Hin|]. split; [exact Hfg | exact Hn0].
    + eapply connected_step; [exact IH | exact Hadj|].
      split; [exact Hq|]. split; [exact Hfq|].
      intros Hsq.
      assert (Hp : fresh img vis p) by (destruct IH; assumption).
      destruct Hp as (Hp & Hfp & Hnp). apply Hnp.
      apply (Hcl q p Hq Hsq (adjacent_sym _ _ Hadj) Hp Hfp).
  - induction 1 as [(Hin & Hfg & _) | p q Hpq IH Hadj (Hq & Hfq & _)].
    + apply connected_seed. split; [exact Hin|]. split; [exact Hfg|].
      apply seenAt_nil.
    + eapply connected_step; [exact IH | exact Hadj|].
      split; [exact Hq|]. split; [exact Hfq | apply seenAt_nil].
Qed.

Lemma countedInv_start vis x y : countedInv img vis (fillStart vis x y).
Proof. exists []. split; [constructor|]. split; [reflexivity | constructor]. Qed.

Lemma countedInv_iter vis0 p0 x y rest s :
  fillInv img vis0 p0 s -> countedInv img vis0 s ->
  countedInv img vis0 (fillIter img x y rest s).
Proof.
  intros Hf (l & Hnd & Hlen & Hall).
  destruct (fillIter_step img x y rest s)
    as [[-> Hwhy] | (Hin & Hfg & Hseen & ->)].
  - exists l. auto.
  - pose proof (inside_index img x y Hin) as Hidx. fold W H in Hidx.
    fold W in Hseen.
    assert (Hlt : (Z.to_nat (y * W + x) < length (visited s))%nat).
    { rewrite (inv_length img _ _ _ Hf). fold W H. lia. }
    exists ((x, y) :: l). simpl. split; [|split].
    + apply List.NoDup_cons; [|exact Hnd].
      intros Hc. rewrite List.Forall_forall in Hall.
      destruct (Hall _ Hc) as (_ & Hs & _).
      unfold seenAt, pixelIndex in Hs. simpl in Hs. fold W in Hs. congruence.
    + lia.
    + constructor.
      * split; [exact Hin|]. split.
        -- unfold seenAt, pixelIndex. simpl. fold W.
           apply seen_insert_same; [apply Hidx | exact Hlt].
        -- intros Hc. unfold seenAt, pixelIndex in Hc. simpl in Hc. fold W in Hc.
           apply (inv_mono img _ _ _ Hf) in Hc. congruence.
      * eapply List.Forall_impl; [|exact Hall].
        intros p (Hp & Hs & Hn). split; [exact Hp|]. split; [|exact Hn].
        unfold seenAt in *. apply seen_insert_mono. exact Hs.
Qed.

(** A fill from closed marks and an unmarked foreground seed: it leaves
    closed marks, and it is the fill of a whole component of the raster. *)
Lemma whole_fill vis x y :
  length vis = N -> closed img vis -> fresh img vis (x, y) ->
  exists s, fillLoop img (fillFuel img) (fillStart vis x y) = Some s
            /\ length (visited s) = N
            /\ closed img (visited s) /\ wholeFill img s.
Proof.
  intros Hlen Hcl Hfresh.
  destruct (floodFill_total img vis x y Hlen) as (s & Hs & Hlen').
  exists s. split; [exact Hs|]. split; [exact Hlen'|].
  destruct (fillLoop_invariant img
              (fun s => fillInv img vis (x, y) s
                        /\ componentInv img vis (x, y) s
                        /\ countedInv img vis s))
    with (fuel := fillFuel img) (s := fillStart vis x y) (s' := s)
    as [(Hf & Hc & Hn) Hst].
  { intros x1 y1 rest s1 (Hf & Hc & Hn) Hstack. split; [|split].
    - apply fillInv_iter; assumption.
    - apply componentInv_iter; assumption.
    - apply countedInv_iter with (p0 := (x, y)); assumption. }
  { split; [apply fillInv_start, Hlen|].
    split; [apply componentInv_start | apply countedInv_start]. }
  { exact Hs. }
  destruct (marks_component img vis x y s Hfresh Hst Hf Hc) as [Hseed Hiff].
  destruct Hfresh as (Hin & Hfg & Hn0).
  assert (Hcomp : forall q, component img (x, y) q
                            <-> newly img vis (visited s) q).
  { intros q. rewrite (connected_closed vis (x, y) q Hcl Hn0).
    symmetry. apply Hiff. }
  split.
  - intros p q Hp Hsp Hadj Hq Hfq.
    destruct (seen vis (pixelIndex img p)) eqn:Ep.
    + apply (inv_mono img _ _ _ Hf). apply (Hcl p q); assumption.
    + assert (Hnp : ~ seenAt img vis p) by (unfold seenAt; congruence).
      destruct (inv_frontier img _ _ _ Hf p q Hp Hsp Hnp Hadj)
        as [Hc' | [Hc' | [Hc' | Hc']]];
        [rewrite Hst in Hc'; destruct Hc' | contradiction | exact Hc'
        | contradiction].
  - exists (x, y). split; [exact Hin|]. split; [exact Hfg|]. split.
    + intros q Hq. apply Hcomp in Hq. destruct Hq as (Hq & Hsq & Hnq).
      split; [exact Hq|].
      destruct (inv_marked img _ _ _ Hf q Hq Hsq Hnq) as (_ & Hbx & Hby). auto.
    + destruct Hn as (l & Hnd & Hl & Hall). exists l.
      split; [exact Hnd|]. split; [exact Hl|].
      eapply List.Forall_impl; [|exact Hall].
      intros q Hq. apply Hcomp. exact Hq.
Qed.

Lemma allFills_whole :
  exists fills, allFills img = Some fills /\ Forall (wholeFill img) fills.
Proof.
  unfold allFills. fold W H.
  set (P := fun acc : option (list bool * list Fill) =>
              exists vis fills,
                acc = Some (vis, fills) /\ length vis = N
                /\ closed img vis /\ Forall (wholeFill img) fills).
  assert (HP : P (fold_left
                    (fun acc y => fold_left (scanPixelFills img y) (seqZ 0 W) acc)
                    (seqZ 0 H) (Some (replicate (Z.to_nat (W * H)) false, [])))).
  { apply fold_left_inv.
    - intros acc y Hy Hacc. apply fold_left_inv; [|exact Hacc].
      clear acc Hacc. intros acc x Hx (vis & fills & -> & Hlen & Hcl & Hall).
      apply In_seqZ in Hx, Hy.
      unfold scanPixelFills. fold W. fold (seen vis (y * W + x)).
      destruct (negb (seen vis (y * W + x)) && isForeground img x y) eqn:Htest.
      + apply andb_true_iff in Htest. destruct Htest as [Hns Hfg].
        apply negb_true_iff in Hns.
        assert (Hfresh : fresh img vis (x, y)).
        { split; [split; assumption|]. split; [exact Hfg|].
          unfold seenAt, pixelIndex. simpl. fold W. congruence. }
        destruct (whole_fill vis x y Hlen Hcl Hfresh)
          as (s & Hs & Hlen' & Hcl' & Hwhole).
        fold W H in Hs. rewrite Hs. exists (visited s), (fills ++ [s]).
        split; [reflexivity|]. split; [exact Hlen'|]. split; [exact Hcl'|].
        apply Forall_app. split; [exact Hall|]. constructor; [exact Hwhole|].
        constructor.
      + exists vis, fills. auto.
    - exists (replicate (Z.to_nat (W * H)) false), [].
      split; [reflexivity|]. split; [apply length_replicate|].
      split; [|constructor].
      intros p q Hp Hsp. exfalso.
      unfold seenAt, seen, js_get in Hsp.
      destruct (pixelIndex img p <? 0); [discriminate|].
      destruct (replicate (Z.to_nat (W * H)) false !! Z.to_nat (pixelIndex img p))
        as [b|] eqn:E; [|discriminate].
      apply lookup_replicate in E. destruct E as [-> _]. discriminate. }
  destruct HP as (vis & fills & -> & _ & _ & Hall). eauto.
Qed.

Lemma accepted_whole s :
  wholeFill img s -> accepted img s = true ->
  coversComponent img (extract img (boxOf s)).
Proof.
  intros (p0 & Hin & Hfg & Hbox & l & Hnd & Hl & Hall) Hacc.
  exists p0. split; [exact Hin|]. split; [exact Hfg|]. split.
  - intros q Hq. destruct (Hbox q Hq) as (Hq' & Hbx & Hby).
    apply extract_covers; assumption.
  - exists l. split; [exact Hnd|]. split; [|exact Hall].
    unfold accepted in Hacc. apply negb_true_iff in Hacc.
    apply (accepted_pixelCount img) in Hacc. lia.
Qed.
End CoverProofs.

(** X20: on every raster, the box of every segment that [segmentDigits]
    returns covers a whole 8-connected component of the foreground of the
    raster, and that component has at least 50 pixels: there is a foreground
    pixel of the raster such that every pixel joined to it through
    foreground pixels that touch by a side or a corner lies in the box, and
    50 distinct pixels are so joined to it. *)
Theorem segments_cover_components img :
  exists segs,
    DigitSegmentation.segmentDigits img = Some segs
    /\ Forall (coversComponent img) segs.
Proof.
  destruct (findComponents_fills img) as (fills & Hfills & Hcs).
  destruct (allFills_whole img) as (fills' & Hfills' & Hall).
  rewrite Hfills in Hfills'. injection Hfills' as <-.
  unfold DigitSegmentation.segmentDigits. rewrite Hcs.
  eexists. split; [reflexivity|].
  apply Forall_map.
  rewrite (js_sort_perm BoundingBox.x).
  apply Forall_map.
  apply List.Forall_forall. intros s Hs.
  apply List.filter_In in Hs. destruct Hs as [Hin Hacc].
  apply accepted_whole; [|exact Hacc].
  rewrite List.Forall_forall in Hall. apply Hall, Hin.
Qed.

(** X21: when the preprocessed image that [recognize] decodes has fewer
    than 50 foreground pixels, the run reports "No digits detected. Try
    adjusting the image or preprocessing." through [onError] and ends,
    without classifying anything. *)
Theorem faint_image_reports_no_digits s url img now :
  Recognizer.pc s = Recognizer.AwaitImage url ->
  (foregroundCount img < 50)%nat ->
  let s' := Recognizer.resume (Fulfilled (Recognizer.Image img)) now s in
  Recognizer.pc s' = Recognizer.Done
  /\ Recognizer.outputs s'
     = Recognizer.outputs s
       ++ [Recognizer.SetStatus "Detecting digits..."; Recognizer.SetProgress 55;
           Recognizer.OnError
             "No digits detected. Try adjusting the image or preprocessing."].
Proof.
  intros Hpc Hfaint.
  destruct (findComponents_count img) as (cs & Hcs & Hle).
  assert (Hnil : cs = []) by (destruct cs; [reflexivity | simpl in Hle; lia]).
  subst cs.
  assert (Hseg : DigitSegmentation.segmentDigits img = Some []).
  { unfold DigitSegmentation.segmentDigits. rewrite Hcs. reflexivity. }
  unfold Recognizer.resume. rewrite Hpc. cbv zeta. rewrite Hseg. simpl.
  split; [reflexivity|]. rewrite <- app_assoc. reflexivity.
Qed.

Lemma faint_image_reports_no_digits_witness :
  Recognizer.pc
    (Recognizer.run (Recognizer.recognize 0)
       [Recognizer.Settle (Fulfilled Recognizer.Model) 10;
        Recognizer.Settle (Fulfilled (Recognizer.Url "data:image/png")) 20])
  = Recognizer.AwaitImage "data:image/png"
  /\ (foregroundCount speck < 50)%nat
  /\ Recognizer.pc
       (Recognizer.resume (Fulfilled (Recognizer.Image speck)) 30
          (Recognizer.run (Recognizer.recognize 0)
             [Recognizer.Settle (Fulfilled Recognizer.Model) 10;
              Recognizer.Settle (Fulfilled (Recognizer.Url "data:image/png")) 20]))
     = Recognizer.Done.
Proof.
  split; [reflexivity|]. split; [vm_compute; lia|].
  apply (proj1 (faint_image_reports_no_digits
                  (Recognizer.run (Recognizer.recognize 0)
                     [Recognizer.Settle (Fulfilled Recognizer.Model) 10;
                      Recognizer.Settle
                        (Fulfilled (Recognizer.Url "data:image/png")) 20])
                  "data:image/png" speck 30 eq_refl ltac:(vm_compute; lia))).
Defined.
